(** * xc-mcp: response cache, summary extractors, streaming executor and
      destination resolver

    A shallow embedding of the TypeScript sources

      - [src/utils/command.ts]        (executeCommandStreaming)
      - [src/utils/response-cache.ts] (ResponseCache, extractBuildSummary)
      - [src/tools/xcodebuild/build.ts] (xcodebuildBuildTool, resolveDestination)

    Modelling conventions.

    - A JavaScript string is a Rocq [string]; every character stands for one
      code unit in the range 0..255.  [toLowerCase] and [trim] are given for
      that range (ASCII and Latin-1 letters, the seven white-space code units
      below 256).
    - A JavaScript number that the code uses as an integer (timestamps in
      milliseconds, exit codes, sizes, limits) is a [Z].
    - [undefined] / [null] are [None].
    - A JavaScript [Map] keeps its entries in insertion order and its keys
      unique; it is a list of pairs, the operations below maintain the
      uniqueness of keys.
    - [Date.now()], [new Date()] and [randomUUID()] read the environment; the
      values they return are explicit arguments of the operation that reads
      them.
    - [Array.prototype.sort] is stable; it is an insertion sort that keeps
      the input order of elements the comparator declares equal. *)

From Stdlib Require Import ZArith List String Ascii Bool Lia Arith.
From Stdlib Require Import Permutation Sorted.
From Stdlib Require DecimalString.
From stdpp Require gmap strings.
Import ListNotations.

Open Scope string_scope.
Open Scope Z_scope.

(* ================================================================= *)
(** ** JavaScript strings *)

Definition dquote : ascii := ascii_of_nat 34.
Definition newline : ascii := ascii_of_nat 10.

(** [s.startsWith(p)]. *)
Fixpoint startsWith (p s : string) : bool :=
  match p with
  | EmptyString => true
  | String a p' =>
      match s with
      | EmptyString => false
      | String b s' => Ascii.eqb a b && startsWith p' s'
      end
  end.

(** [s.includes(needle)]. *)
Fixpoint includes (needle s : string) : bool :=
  startsWith needle s
  || match s with
     | EmptyString => false
     | String _ s' => includes needle s'
     end.

(** [s.split(sep)] for a one-character separator: never empty,
    [''.split(sep)] is [['']]. *)
Fixpoint split (sep : ascii) (s : string) : list string :=
  match s with
  | EmptyString => [EmptyString]
  | String c s' =>
      if Ascii.eqb c sep then EmptyString :: split sep s'
      else match split sep s' with
           | l :: ls => String c l :: ls
           | [] => [String c EmptyString]
           end
  end.

(** [toLowerCase] on one code unit below 256: A-Z and the Latin-1 capitals
    (U+00C0..U+00DE without the multiplication sign U+00D7). *)
Definition toLowerChar (c : ascii) : ascii :=
  let n := nat_of_ascii c in
  if (((65 <=? n) && (n <=? 90))
      || ((192 <=? n) && (n <=? 222) && negb (n =? 215)))%nat
  then ascii_of_nat (n + 32) else c.

Fixpoint toLowerCase (s : string) : string :=
  match s with
  | EmptyString => EmptyString
  | String c s' => String (toLowerChar c) (toLowerCase s')
  end.

(** White space and line terminators below 256: TAB, LF, VT, FF, CR, SP and
    NBSP. *)
Definition isWhiteSpace (c : ascii) : bool :=
  let n := nat_of_ascii c in
  ((n =? 9) || (n =? 10) || (n =? 11) || (n =? 12) || (n =? 13)
   || (n =? 32) || (n =? 160))%nat.

Fixpoint trimStart (s : string) : string :=
  match s with
  | EmptyString => EmptyString
  | String c s' => if isWhiteSpace c then trimStart s' else s
  end.

(** [trimEnd]: a character is dropped when everything from it to the end is
    white space. *)
Fixpoint trimEnd (s : string) : string :=
  match s with
  | EmptyString => EmptyString
  | String c s' =>
      match trimEnd s' with
      | EmptyString => if isWhiteSpace c then EmptyString else String c EmptyString
      | t => String c t
      end
  end.

Definition trim (s : string) : string := trimEnd (trimStart s).

(** Truthiness of a string-or-undefined value: defined and not empty. *)
Definition truthy (o : option string) : bool :=
  match o with
  | Some s => negb (String.eqb s EmptyString)
  | None => false
  end.

(** [o || undefined] for a string [o]. *)
Definition orUndefined (s : string) : option string :=
  if String.eqb s EmptyString then None else Some s.

Definition strlen (s : string) : Z := Z.of_nat (String.length s).

(* ================================================================= *)
(** ** JavaScript arrays *)

(** [a.slice(start, end)] with the relative-to-end reading of negative
    indices. *)
Definition slice {A : Type} (start end_ : Z) (l : list A) : list A :=
  let len := Z.of_nat (List.length l) in
  let k := if start <? 0 then Z.max (len + start) 0 else Z.min start len in
  let final := if end_ <? 0 then Z.max (len + end_) 0 else Z.min end_ len in
  firstn (Z.to_nat (final - k)) (skipn (Z.to_nat k) l).

(** [a.sort(cmp)]: stable. [insert_by cmp x l] puts [x] in front of the first
    element that [cmp] does not place before it. *)
Fixpoint insert_by {A : Type} (cmp : A -> A -> Z) (x : A) (l : list A) : list A :=
  match l with
  | [] => [x]
  | y :: l' => if cmp x y <=? 0 then x :: y :: l' else y :: insert_by cmp x l'
  end.

Fixpoint sort_by {A : Type} (cmp : A -> A -> Z) (l : list A) : list A :=
  match l with
  | [] => []
  | x :: l' => insert_by cmp x (sort_by cmp l')
  end.

(* ================================================================= *)
(** ** JavaScript [Map] with string keys *)

Abbreviation JsMap V := (list (string * V)).

Definition map_keys {V : Type} (m : JsMap V) : list string := map fst m.
Definition map_values {V : Type} (m : JsMap V) : list V := map snd m.

Fixpoint map_get {V : Type} (k : string) (m : JsMap V) : option V :=
  match m with
  | [] => None
  | (k', v) :: m' => if String.eqb k' k then Some v else map_get k m'
  end.

(** [m.set(k, v)]: an existing key keeps its place, a new key goes last. *)
Fixpoint map_set {V : Type} (k : string) (v : V) (m : JsMap V) : JsMap V :=
  match m with
  | [] => [(k, v)]
  | (k', v') :: m' =>
      if String.eqb k' k then (k, v) :: m' else (k', v') :: map_set k v m'
  end.

Definition map_delete {V : Type} (k : string) (m : JsMap V) : JsMap V :=
  filter (fun kv => negb (String.eqb (fst kv) k)) m.

Definition map_has {V : Type} (k : string) (m : JsMap V) : bool :=
  existsb (fun kv => String.eqb (fst kv) k) m.

Definition map_size {V : Type} (m : JsMap V) : Z := Z.of_nat (List.length m).

(* ================================================================= *)
(** ** response-cache.ts: [ResponseCache] *)

(** A metadata value: [string | number | boolean | null | undefined]. *)
Inductive Scalar : Type :=
| SString (s : string)
| SNumber (n : Z)
| SBool (b : bool)
| SNull
| SUndefined.

(** [Omit<CachedResponse, 'id' | 'timestamp'>], the argument of [store]. *)
Record ResponseData : Type := mkResponseData {
  d_tool : string;
  d_fullOutput : string;
  d_stderr : string;
  d_exitCode : Z;
  d_command : string;
  d_metadata : list (string * Scalar)
}.

Record CachedResponse : Type := mkCachedResponse {
  id : string;
  tool : string;
  timestamp : Z;
  fullOutput : string;
  stderr : string;
  exitCode : Z;
  command : string;
  metadata : list (string * Scalar)
}.

(** [private readonly maxAge = 1000 * 60 * 30], in milliseconds. *)
Definition maxAge : Z := 1000 * 60 * 30.

(** [private readonly maxEntries = 100]. *)
Definition maxEntries : Z := 100.

(** [{ ...data, id, timestamp: new Date() }]. *)
Definition mkCached (data : ResponseData) (uuid : string) (created : Z) : CachedResponse :=
  {| id := uuid;
     tool := d_tool data;
     timestamp := created;
     fullOutput := d_fullOutput data;
     stderr := d_stderr data;
     exitCode := d_exitCode data;
     command := d_command data;
     metadata := d_metadata data |}.

(** The test both [get] and [cleanup] apply:
    [now - cached.timestamp.getTime() > this.maxAge]. *)
Definition expired (now : Z) (cached : CachedResponse) : bool :=
  now - timestamp cached >? maxAge.

(** The first loop of [cleanup]: visit every entry, delete the expired
    ones. *)
Definition purgeExpired (now : Z) (c : JsMap CachedResponse) : JsMap CachedResponse :=
  fold_left
    (fun acc kv => if expired now (snd kv) then map_delete (fst kv) acc else acc)
    c c.

(** The comparator of [cleanup]: ascending creation time. *)
Definition byAgeAsc (a b : string * CachedResponse) : Z :=
  timestamp (snd a) - timestamp (snd b).

(** The second part of [cleanup]. *)
Definition evictOldest (c : JsMap CachedResponse) : JsMap CachedResponse :=
  if map_size c >? maxEntries then
    let entries := sort_by byAgeAsc c in
    let toRemove := slice 0 (map_size c - maxEntries) entries in
    fold_left (fun acc kv => map_delete (fst kv) acc) toRemove c
  else c.

(** [cleanup()], reading [Date.now()] as [now]. *)
Definition cleanup (now : Z) (c : JsMap CachedResponse) : JsMap CachedResponse :=
  evictOldest (purgeExpired now c).

(** [store(data)]: [uuid] is what [randomUUID()] returns, [created] what
    [new Date()] reads and [now] what the [Date.now()] of [cleanup] reads.
    The debounced persist acts on the persistence manager only. *)
Definition store (data : ResponseData) (uuid : string) (created now : Z)
  (c : JsMap CachedResponse) : string * JsMap CachedResponse :=
  (uuid, cleanup now (map_set uuid (mkCached data uuid created) c)).

(** [get(id)], reading [Date.now()] as [now]; the second component is the
    cache after the call. *)
Definition get (k : string) (now : Z) (c : JsMap CachedResponse)
  : option CachedResponse * JsMap CachedResponse :=
  match map_get k c with
  | None => (None, c)
  | Some cached =>
      if expired now cached then (None, map_delete k c) else (Some cached, c)
  end.

(** The comparator of [getRecentByTool]: descending creation time. *)
Definition byAgeDesc (a b : CachedResponse) : Z := timestamp b - timestamp a.

(** [getRecentByTool(tool, limit = 5)]. *)
Definition getRecentByTool (t : string) (limit : Z) (c : JsMap CachedResponse)
  : list CachedResponse :=
  slice 0 limit
    (sort_by byAgeDesc (filter (fun e => String.eqb (tool e) t) (map_values c))).

Definition defaultLimit : Z := 5.

(** [delete(id)]. *)
Definition delete (k : string) (c : JsMap CachedResponse) : bool * JsMap CachedResponse :=
  (map_has k c, map_delete k c).

(** [clear()]. *)
Definition clear (c : JsMap CachedResponse) : JsMap CachedResponse := [].

(* ================================================================= *)
(** ** response-cache.ts: [extractBuildSummary] *)

(** The result object.  Its two regex-extracted fields [duration] (a float)
    and [target] do not take part in any other field and are left out. *)
Record BuildSummary : Type := mkBuildSummary {
  success : bool;
  s_exitCode : Z;
  errorCount : Z;
  warningCount : Z;
  hasErrors : bool;
  hasWarnings : bool;
  firstError : option string;
  errors : list string;
  warnings : list string;
  buildSizeBytes : Z
}.

Definition isErrorLine (line : string) : bool :=
  includes "error:" line || includes "** BUILD FAILED **" line.

Definition isWarningLine (line : string) : bool := includes "warning:" line.

Definition isSuccessLine (line : string) : bool :=
  includes "** BUILD SUCCEEDED **" line || includes "Build completed" line.

(** [(output + '\n' + stderr).split('\n')]. *)
Definition combinedLines (output stderr_ : string) : list string :=
  split newline (output ++ String newline stderr_).

Definition extractBuildSummary (output stderr_ : string) (code : Z) : BuildSummary :=
  let lines := combinedLines output stderr_ in
  let errs := filter isErrorLine lines in
  let warns := filter isWarningLine lines in
  let successIndicators := filter isSuccessLine lines in
  {| success := (code =? 0) && (Z.of_nat (List.length successIndicators) >? 0);
     s_exitCode := code;
     errorCount := Z.of_nat (List.length errs);
     warningCount := Z.of_nat (List.length warns);
     hasErrors := Z.of_nat (List.length errs) >? 0;
     hasWarnings := Z.of_nat (List.length warns) >? 0;
     firstError := option_map trim (hd_error errs);
     errors := map trim (slice 0 10 errs);
     warnings := map trim (slice 0 10 warns);
     buildSizeBytes := strlen output + strlen stderr_ |}.

(* ================================================================= *)
(** ** command.ts: [executeCommandStreaming] *)

Record StreamingCommandResult : Type := mkStreamingResult {
  r_stdout : string;
  r_stderr : string;
  r_code : Z;
  timedOut : bool;
  fatalMatch : option string
}.

(** The two [McpError]s the executor raises. *)
Inductive McpError : Type :=
| BufferExceeded (limit : Z)
| FailedToExecute (message : string).

(** The state of the returned promise; the first [resolve] or [reject]
    settles it, later ones have no effect. *)
Inductive Promise : Type :=
| Pending
| Resolved (r : StreamingCommandResult)
| Rejected (e : McpError).

(** A [RegExp] used with [chunk.match(pattern)] (no [g] flag): the function
    from the chunk to [match[0]] of the leftmost match. *)
Abbreviation Pattern := (string -> option string).

Record StreamingOptions : Type := mkStreamingOptions {
  maxBuffer : Z;
  fatalPatterns : list Pattern
}.

Definition defaultMaxBuffer : Z := 10 * 1024 * 1024.

(** What the child process and the timer deliver to the handlers, one event
    at a time.  [TimerFired] is the callback of [setTimeout(..., timeout)]. *)
Inductive ChildEvent : Type :=
| StdoutData (text : string)
| StderrData (text : string)
| TimerFired
| Close (code : option Z)
| ChildError (message : string).

(** The variables of the promise executor's closure.  [kills] counts the
    calls of [child.kill()], [notified] lists the arguments of
    [onFatalMatch] (latest first), [timerArmed] is false once the timer has
    fired or [clearTimeout] was called. *)
Record ExecState : Type := mkExecState {
  st_stdout : string;
  st_stderr : string;
  st_timedOut : bool;
  st_fatalMatch : option string;
  timerArmed : bool;
  kills : nat;
  notified : list string;
  promise : Promise
}.

Definition initialState : ExecState :=
  {| st_stdout := ""; st_stderr := ""; st_timedOut := false;
     st_fatalMatch := None; timerArmed := true; kills := 0%nat;
     notified := []; promise := Pending |}.

(** The loop of [checkPatterns]: the first pattern that matches. *)
Fixpoint firstMatch (patterns : list Pattern) (chunk : string) : option string :=
  match patterns with
  | [] => None
  | p :: ps =>
      match p chunk with
      | Some m => Some m
      | None => firstMatch ps chunk
      end
  end.

Definition checkPatterns (opts : StreamingOptions) (chunk : string) (s : ExecState) : ExecState :=
  if truthy (st_fatalMatch s) then s
  else match firstMatch (fatalPatterns opts) chunk with
       | Some m =>
           {| st_stdout := st_stdout s; st_stderr := st_stderr s;
              st_timedOut := st_timedOut s;
              st_fatalMatch := Some m;
              timerArmed := timerArmed s;
              kills := S (kills s);
              notified := m :: notified s;
              promise := promise s |}
       | None => s
       end.

(** [resolve] / [reject] on a promise. *)
Definition settle (p : Promise) (outcome : Promise) : Promise :=
  match p with
  | Pending => outcome
  | _ => p
  end.

Definition onStdout (opts : StreamingOptions) (text : string) (s : ExecState) : ExecState :=
  let s1 :=
    checkPatterns opts text
      {| st_stdout := st_stdout s ++ text; st_stderr := st_stderr s;
         st_timedOut := st_timedOut s; st_fatalMatch := st_fatalMatch s;
         timerArmed := timerArmed s; kills := kills s;
         notified := notified s; promise := promise s |} in
  if strlen (st_stdout s1) >? maxBuffer opts then
    {| st_stdout := st_stdout s1; st_stderr := st_stderr s1;
       st_timedOut := st_timedOut s1; st_fatalMatch := st_fatalMatch s1;
       timerArmed := false;
       kills := S (kills s1);
       notified := notified s1;
       promise := settle (promise s1) (Rejected (BufferExceeded (maxBuffer opts))) |}
  else s1.

Definition onStderr (opts : StreamingOptions) (text : string) (s : ExecState) : ExecState :=
  checkPatterns opts text
    {| st_stdout := st_stdout s; st_stderr := st_stderr s ++ text;
       st_timedOut := st_timedOut s; st_fatalMatch := st_fatalMatch s;
       timerArmed := timerArmed s; kills := kills s;
       notified := notified s; promise := promise s |}.

(** The [setTimeout] callback; it cannot run once the timer is cleared. *)
Definition onTimer (s : ExecState) : ExecState :=
  if timerArmed s then
    {| st_stdout := st_stdout s; st_stderr := st_stderr s;
       st_timedOut := true; st_fatalMatch := st_fatalMatch s;
       timerArmed := false; kills := S (kills s);
       notified := notified s; promise := promise s |}
  else s.

(** The ['close'] handler; [code ?? 0]. *)
Definition onClose (code : option Z) (s : ExecState) : ExecState :=
  {| st_stdout := st_stdout s; st_stderr := st_stderr s;
     st_timedOut := st_timedOut s; st_fatalMatch := st_fatalMatch s;
     timerArmed := false; kills := kills s; notified := notified s;
     promise :=
       settle (promise s)
         (Resolved {| r_stdout := trim (st_stdout s);
                      r_stderr := trim (st_stderr s);
                      r_code := match code with Some c => c | None => 0 end;
                      timedOut := st_timedOut s;
                      fatalMatch := st_fatalMatch s |}) |}.

(** The ['error'] handler. *)
Definition onError (message : string) (s : ExecState) : ExecState :=
  {| st_stdout := st_stdout s; st_stderr := st_stderr s;
     st_timedOut := st_timedOut s; st_fatalMatch := st_fatalMatch s;
     timerArmed := false; kills := kills s; notified := notified s;
     promise := settle (promise s) (Rejected (FailedToExecute message)) |}.

Definition handle (opts : StreamingOptions) (s : ExecState) (ev : ChildEvent) : ExecState :=
  match ev with
  | StdoutData text => onStdout opts text s
  | StderrData text => onStderr opts text s
  | TimerFired => onTimer s
  | Close code => onClose code s
  | ChildError message => onError message s
  end.

(** The executor on the sequence of events the environment delivers. *)
Definition runFrom (opts : StreamingOptions) (s : ExecState) (evs : list ChildEvent) : ExecState :=
  fold_left (handle opts) evs s.

Definition executeCommandStreaming (opts : StreamingOptions) (evs : list ChildEvent) : Promise :=
  promise (runFrom opts initialState evs).

(** A case-insensitive literal pattern [/lit/i]: the leftmost place where
    [lit] occurs up to letter case; [match[0]] is the text found there. *)
Fixpoint startsWith_ci (p s : string) : option string :=
  match p with
  | EmptyString => Some EmptyString
  | String a p' =>
      match s with
      | EmptyString => None
      | String b s' =>
          if Ascii.eqb (toLowerChar a) (toLowerChar b)
          then option_map (String b) (startsWith_ci p' s')
          else None
      end
  end.

Fixpoint literal_i (lit : string) (chunk : string) : option string :=
  match startsWith_ci lit chunk with
  | Some m => Some m
  | None =>
      match chunk with
      | EmptyString => None
      | String _ chunk' => literal_i lit chunk'
      end
  end.

(** The [fatalPatterns] of the build tool. *)
Definition buildFatalPatterns : list Pattern :=
  [ literal_i ("Failed to start remote service "
               ++ String dquote "com.apple.mobile.notification_proxy"
               ++ String dquote EmptyString);
    literal_i "The device is passcode protected";
    literal_i "Unable to find a device matching the provided destination specifier" ].

Definition buildOptions : StreamingOptions :=
  {| maxBuffer := 50 * 1024 * 1024; fatalPatterns := buildFatalPatterns |}.

(* ================================================================= *)
(** ** build.ts: what [xcodebuildBuildTool] makes of the executor's result *)

(** [const timeoutMs = 55_000]. *)
Definition timeoutMs : Z := 55000.

(** [a || b] on string-or-undefined values. *)
Definition orElse (a b : option string) : option string :=
  if truthy a then a else b.

(** The outcome object handed to [projectCache.recordBuildResult]
    ([timestamp] and [duration] are clock readings and left out). *)
Record BuildOutcome : Type := mkBuildOutcome {
  o_success : bool;
  o_errorCount : Z;
  o_warningCount : Z;
  o_buildSizeBytes : Z
}.

(** The parts of the tool's return value that depend on the executor's
    result: [responseData.success], [responseData.errors],
    [responseData.warnings], [responseData.summary.firstError], the outcome
    recorded in the project cache, and the [isError] flag. *)
Record BuildToolResult : Type := mkBuildToolResult {
  response_success : bool;
  response_errors : option (list string);
  response_warnings : option (list string);
  response_summary_success : bool;
  response_firstError : option string;
  recordedOutcome : BuildOutcome;
  isError : bool
}.

Definition nonEmptyOrUndefined {A : Type} (l : list A) : option (list A) :=
  if Z.of_nat (List.length l) >? 0 then Some l else None.

Definition buildToolResult (result : StreamingCommandResult) : BuildToolResult :=
  let summary := extractBuildSummary (r_stdout result) (r_stderr result) (r_code result) in
  let buildSuccess := success summary && negb (timedOut result) in
  let augmented0 := errors summary in
  let augmented1 :=
    match fatalMatch result with
    | Some m =>
        if truthy (Some m)
        then ("Detected fatal xcodebuild output: " ++ m) :: augmented0
        else augmented0
    | None => augmented0
    end in
  let augmentedErrors :=
    if timedOut result
    then "Build aborted after 55000ms (timeout)" :: augmented1
    else augmented1 in
  let adjustedFirstError :=
    orElse (orElse (firstError summary) (fatalMatch result))
      (if timedOut result then Some "Build timed out after 55000ms" else None) in
  {| response_success := buildSuccess;
     response_errors := nonEmptyOrUndefined augmentedErrors;
     response_warnings := nonEmptyOrUndefined (warnings summary);
     response_summary_success := buildSuccess;
     response_firstError := adjustedFirstError;
     recordedOutcome :=
       {| o_success := buildSuccess;
          o_errorCount := errorCount summary;
          o_warningCount := warningCount summary;
          o_buildSizeBytes := buildSizeBytes summary |};
     isError := negb (success summary) |}.

(* ================================================================= *)
(** ** build.ts: destination resolution *)

Record BuildConfig : Type := mkBuildConfig {
  scheme : string;
  configuration : string;
  destination : option string;
  sdk : option string;
  derivedDataPath : option string
}.

(** [preferredConfig?.destination]. *)
Definition preferredDestination (preferredConfig : option BuildConfig) : option string :=
  match preferredConfig with
  | Some cfg => destination cfg
  | None => None
  end.

(** [lower.replace(/[^a-z]/g, '')]. *)
Definition isLowerLetter (c : ascii) : bool :=
  let n := nat_of_ascii c in ((97 <=? n) && (n <=? 122))%nat.

Fixpoint keepLowerLetters (s : string) : string :=
  match s with
  | EmptyString => EmptyString
  | String c s' =>
      if isLowerLetter c then String c (keepLowerLetters s') else keepLowerLetters s'
  end.

Definition derivePlatformFromToken (token : option string) : option string :=
  match token with
  | None => None
  | Some t =>
      if String.eqb t EmptyString then None
      else
        let lower := toLowerCase t in
        if includes "mac" lower then Some "macos"
        else if includes "iphone" lower || includes "ios" lower then Some "ios"
        else if includes "tvos" lower || includes "appletv" lower then Some "tvos"
        else if includes "watch" lower then Some "watchos"
        else if includes "vision" lower then Some "visionos"
        else orUndefined (keepLowerLetters lower)
  end.

Record SdkInfo : Type := mkSdkInfo {
  platform : option string;
  isSimulator : bool
}.

Definition deriveSdkInfo (sdk_ : option string) : SdkInfo :=
  if truthy sdk_ then
    match sdk_ with
    | Some s =>
        let lower := toLowerCase s in
        {| platform := derivePlatformFromToken (Some lower);
           isSimulator := includes "simulator" lower |}
    | None => {| platform := None; isSimulator := false |}
    end
  else {| platform := None; isSimulator := false |}.

(** The prefix of [s] the class [[^,]+] consumes. *)
Fixpoint takeNonComma (s : string) : string :=
  match s with
  | EmptyString => EmptyString
  | String c s' => if Ascii.eqb c "," then EmptyString else String c (takeNonComma s')
  end.

(** [p] in front of [s] up to letter case: what follows it in [s]. *)
Fixpoint dropPrefix_ci (p s : string) : option string :=
  match p with
  | EmptyString => Some s
  | String a p' =>
      match s with
      | EmptyString => None
      | String b s' =>
          if Ascii.eqb (toLowerChar a) (toLowerChar b) then dropPrefix_ci p' s' else None
      end
  end.

(** [destination.match(/platform=([^,]+)/i)]: group 1 of the leftmost
    match. *)
Fixpoint matchPlatform (s : string) : option string :=
  match s with
  | EmptyString => None
  | String _ s' =>
      match dropPrefix_ci "platform=" s with
      | Some rest =>
          match takeNonComma rest with
          | EmptyString => matchPlatform s'
          | captured => Some captured
          end
      | None => matchPlatform s'
      end
  end.

Definition derivePlatformFromDestination (dest : option string) : option string :=
  if truthy dest then
    match dest with
    | Some d =>
        match matchPlatform d with
        | Some token => derivePlatformFromToken (Some token)
        | None => None
        end
    | None => None
    end
  else None.

Definition platformsCompatible (sdkPlatform destinationPlatform : option string) : bool :=
  if negb (truthy sdkPlatform) || negb (truthy destinationPlatform) then true
  else match sdkPlatform, destinationPlatform with
       | Some a, Some b => String.eqb a b
       | _, _ => false
       end.

Record SimulatorDevice : Type := mkSimulatorDevice {
  udid : string;
  name : string;
  isAvailable : bool
}.

(** What the build tool reads from [simulatorCache]
    (src/state/simulator-cache.ts, not part of these sources).  An outer
    [None] stands for a call that throws.  [getSimulatorList] gives
    [Object.entries(list.devices)]: runtime keys in insertion order. *)
Record SimulatorCache : Type := mkSimulatorCache {
  getPreferredSimulator : string -> option (option SimulatorDevice);
  getSimulatorList : option (list (string * list SimulatorDevice))
}.

Definition runtimeMatchesPlatform (runtime platform_ : string) : bool :=
  includes (toLowerCase platform_) (toLowerCase runtime).

Definition platformLabelFromRuntime (runtime : string) : option string :=
  let lastSegment :=
    let popped := last (split "." runtime) EmptyString in
    if String.eqb popped EmptyString then runtime else popped in
  let baseName := hd EmptyString (split "-" lastSegment) in
  if String.eqb baseName EmptyString then None
  else Some (baseName ++ " Simulator").

Definition buildDestinationFromUdid (udid_ : string) (runtime : option string) : string :=
  let platformLabel :=
    if truthy runtime then
      match runtime with
      | Some r => platformLabelFromRuntime r
      | None => None
      end
    else None in
  match platformLabel with
  | Some label => "platform=" ++ label ++ ",id=" ++ udid_
  | None => "id=" ++ udid_
  end.

Definition findRuntimeForUdid (devices : list (string * list SimulatorDevice)) (udid_ : string)
  : option string :=
  option_map fst
    (find (fun rd => existsb (fun d => String.eqb (udid d) udid_) (snd rd)) devices).

(** The loop over [Object.entries(list.devices)]. *)
Fixpoint firstAvailable (platformHint : option string)
  (devices : list (string * list SimulatorDevice)) : option string :=
  match devices with
  | [] => None
  | (runtime, devs) :: rest =>
      if truthy platformHint
         && negb (runtimeMatchesPlatform runtime
                    (match platformHint with Some p => p | None => EmptyString end))
      then firstAvailable platformHint rest
      else match find isAvailable devs with
           | Some available => Some (buildDestinationFromUdid (udid available) (Some runtime))
           | None => firstAvailable platformHint rest
           end
  end.

Definition getSmartSimulatorDestination (sc : SimulatorCache) (projectPath : string)
  (platformHint : option string) : option string :=
  match getPreferredSimulator sc projectPath with
  | None => None
  | Some preferredSim =>
      let viaPreferred :=
        match preferredSim with
        | None => Some None
        | Some sim =>
            match getSimulatorList sc with
            | None => None
            | Some devices =>
                let runtime := findRuntimeForUdid devices (udid sim) in
                if negb (truthy platformHint)
                   || (truthy runtime
                       && runtimeMatchesPlatform
                            (match runtime with Some r => r | None => EmptyString end)
                            (match platformHint with Some p => p | None => EmptyString end))
                then Some (Some (buildDestinationFromUdid (udid sim) runtime))
                else Some None
            end
        end in
      match viaPreferred with
      | None => None
      | Some (Some dest) => Some dest
      | Some None =>
          match getSimulatorList sc with
          | None => None
          | Some devices => firstAvailable platformHint devices
          end
      end
  end.

Record ResolveParams : Type := mkResolveParams {
  explicitDestination : option string;
  preferredConfig : option BuildConfig;
  projectPath : string;
  p_sdk : option string
}.

Definition resolveDestination (sc : SimulatorCache) (params : ResolveParams) : option string :=
  if truthy (explicitDestination params)
     && (strlen (trim (match explicitDestination params with
                       | Some d => d
                       | None => EmptyString
                       end)) >? 0)
  then explicitDestination params
  else
    let sdkInfo := deriveSdkInfo (p_sdk params) in
    let cached := preferredDestination (preferredConfig params) in
    if truthy cached
       && platformsCompatible (platform sdkInfo) (derivePlatformFromDestination cached)
    then cached
    else if match platform sdkInfo with
            | Some p => String.eqb p "macos"
            | None => false
            end
    then None
    else if truthy (platform sdkInfo)
            && negb (isSimulator sdkInfo)
            && negb (match platform sdkInfo with
                     | Some p => String.eqb p "macos"
                     | None => false
                     end)
    then None
    else getSmartSimulatorDestination sc (projectPath params) (platform sdkInfo).

(** The earlier revision of the tool ([getSmartDestination]): no SDK is
    consulted. *)
Definition getSmartDestination (sc : SimulatorCache) (preferredConfig_ : option BuildConfig)
  (projectPath_ : string) : option string :=
  if truthy (preferredDestination preferredConfig_)
  then preferredDestination preferredConfig_
  else match getPreferredSimulator sc projectPath_ with
       | Some (Some sim) => Some ("platform=iOS Simulator,id=" ++ udid sim)
       | _ => None
       end.

(* ================================================================= *)
(** ** project-cache.ts: the project preference cache *)

Module ProjectCache.
Import stdpp.base stdpp.option stdpp.gmap stdpp.strings stdpp.fin_maps.

(** Modelled from the spec: src/state/project-cache.ts is not part of these
    sources; only the two call sites in build.ts are.  Per project the cache
    keeps "the last-known-good build configuration" and "a bounded history
    of past outcomes". *)
Record ProjectInfo : Type := mkProjectInfo {
  lastSuccessfulConfig : option BuildConfig;
  buildHistory : list BuildOutcome
}.

(** Modelled from the spec: a project never recorded has no preferred
    configuration and an empty history. *)
Definition noInfo : ProjectInfo :=
  {| lastSuccessfulConfig := None; buildHistory := [] |}.

(** Modelled from the spec: "history is append-only up to a retention cap,
    oldest entries dropped first".  The cap itself is not given; it is the
    argument [cap]. *)
Definition retain (cap : nat) (history : list BuildOutcome) : list BuildOutcome :=
  skipn (List.length history - cap)%nat history.

(** Modelled from the spec: "getPreferredBuildConfig(projectIdentity): the
    last successful BuildConfig for that project, or none if never
    recorded". *)
Definition getPreferredBuildConfig (project : string)
  (pc : gmap string ProjectInfo) : option BuildConfig :=
  match pc !! project with
  | Some info => lastSuccessfulConfig info
  | None => None
  end.

(** Modelled from the spec: "recordBuildResult(projectIdentity, config,
    outcome): appends an outcome record to history (bounded retention); if
    outcome.success is true, replaces the preferred configuration with
    config". *)
Definition recordBuildResult (cap : nat) (project : string) (config : BuildConfig)
  (outcome : BuildOutcome) (pc : gmap string ProjectInfo) : gmap string ProjectInfo :=
  let info := match pc !! project with Some i => i | None => noInfo end in
  <[ project :=
       {| lastSuccessfulConfig :=
            if o_success outcome then Some config else lastSuccessfulConfig info;
          buildHistory := retain cap (buildHistory info ++ [outcome]) |} ]> pc.

(** A successful and a failed outcome, and two configurations. *)
Definition succeeded : BuildOutcome :=
  {| o_success := true; o_errorCount := 0; o_warningCount := 2; o_buildSizeBytes := 4096 |}.

Definition failed : BuildOutcome :=
  {| o_success := false; o_errorCount := 3; o_warningCount := 0; o_buildSizeBytes := 512 |}.

Definition debugConfig : BuildConfig :=
  {| scheme := "App"; configuration := "Debug";
     destination := Some "platform=iOS Simulator,id=ABC-123";
     sdk := Some "iphonesimulator"; derivedDataPath := None |}.

Definition releaseConfig : BuildConfig :=
  {| scheme := "App"; configuration := "Release"; destination := None;
     sdk := Some "iphoneos"; derivedDataPath := None |}.

End ProjectCache.

(* ================================================================= *)
(** ** Vocabulary of the properties *)

(** The payload of a cached entry: everything but [id] and [timestamp]. *)
Definition payloadOf (e : CachedResponse) : ResponseData :=
  {| d_tool := tool e;
     d_fullOutput := fullOutput e;
     d_stderr := stderr e;
     d_exitCode := exitCode e;
     d_command := command e;
     d_metadata := metadata e |}.

(** [randomUUID()] returned a handle the cache does not hold. *)
Definition fresh (uuid : string) (c : JsMap CachedResponse) : Prop :=
  ~ In uuid (map_keys c).

(** No entry is stamped later than [now]: the clock has not run
    backwards since the entries were stored. *)
Definition noneFromFuture (now : Z) (c : JsMap CachedResponse) : Prop :=
  Forall (fun kv => timestamp (snd kv) <= now) c.

(** The keys of a [Map] are unique. *)
Definition uniqueKeys {V : Type} (m : JsMap V) : Prop := NoDup (map_keys m).

(** The last [n] elements of a list. *)
Definition lastN {A : Type} (n : nat) (l : list A) : list A :=
  skipn (List.length l - n) l.

(** One call of [store] with what it reads from the environment. *)
Record StoreCall : Type := mkStoreCall {
  call_data : ResponseData;
  call_uuid : string;
  call_created : Z;
  call_now : Z
}.

Definition storeCall (c : JsMap CachedResponse) (r : StoreCall) : JsMap CachedResponse :=
  snd (store (call_data r) (call_uuid r) (call_created r) (call_now r) c).

(** A sequence of [store] calls, in order. *)
Definition storeAll (calls : list StoreCall) (c : JsMap CachedResponse) : JsMap CachedResponse :=
  fold_left storeCall calls c.

(** The entry a call puts into the cache. *)
Definition entryOf (r : StoreCall) : string * CachedResponse :=
  (call_uuid r, mkCached (call_data r) (call_uuid r) (call_created r)).

(** Every clock reading of the calls, in the order they are taken. *)
Definition clockReadings (calls : list StoreCall) : list Z :=
  flat_map (fun r => [call_created r; call_now r]) calls.

(** The keys the first loop of [cleanup] deletes. *)
Definition expiredKeys (now : Z) (c : JsMap CachedResponse) : list string :=
  map_keys (filter (fun kv => expired now (snd kv)) c).

(** The order a comparator sorts by, given the key it compares. *)
Definition key_le {A : Type} (key : A -> Z) (a b : A) : Prop := key a <= key b.

(** A payload and a small cache to evaluate the operations on. *)
Definition sampleData : ResponseData :=
  mkResponseData "build" "out" "" 0 "xcodebuild build" [("scheme", SString "App")].

Definition sampleCache : JsMap CachedResponse :=
  [("h1", mkCachedResponse "h1" "build" 1000 "a" "" 0 "c1" []);
   ("h2", mkCachedResponse "h2" "list" 2000 "b" "" 0 "c2" [])].

(** A list of keys without repetition. *)
Fixpoint distinctb (ks : list string) : bool :=
  match ks with
  | [] => true
  | k :: ks' => negb (existsb (String.eqb k) ks') && distinctb ks'
  end.

(** Clock readings that never go backwards. *)
Fixpoint ascendingb (ts : list Z) : bool :=
  match ts with
  | a :: ((b :: _) as rest) => (a <=? b) && ascendingb rest
  | _ => true
  end.

(** The creation times held by the cache followed by the clock readings of
    the calls. *)
Definition timeline (c0 : JsMap CachedResponse) (calls : list StoreCall) : list Z :=
  (map (fun kv => timestamp (snd kv)) c0 ++ clockReadings calls)%list.

(** A run of [store] calls on a cache [c0] in which every handle is new,
    the clock never goes backwards (the entries of [c0] were stored in order
    before the run began), everything happens within [maxAge], and [c0] is
    within its limit. *)
Definition orderlyRun (c0 : JsMap CachedResponse) (calls : list StoreCall) : bool :=
  distinctb (map_keys c0 ++ map call_uuid calls)
  && ascendingb (timeline c0 calls)
  && forallb (fun t => forallb (fun t' => t' - t <=? maxAge) (timeline c0 calls))
       (timeline c0 calls)
  && (map_size c0 <=? maxEntries).

(** The facts [orderlyRun] checks. *)
Definition Orderly (c0 : JsMap CachedResponse) (calls : list StoreCall) : Prop :=
  NoDup (map_keys c0 ++ map call_uuid calls)
  /\ StronglySorted Z.le (timeline c0 calls)
  /\ (forall t t', In t (timeline c0 calls) -> In t' (timeline c0 calls) -> t' - t <= maxAge)
  /\ map_size c0 <= maxEntries.

(** One more call than the cache has room for: call [i] stores under the
    handle made of the character with code [i], at time [i]. *)
Definition sampleCalls : list StoreCall :=
  map (fun i => mkStoreCall sampleData (String (ascii_of_nat i) EmptyString)
                  (Z.of_nat i) (Z.of_nat i))
    (seq 1 101).

(** The entries of the cache stored for tool [t] that are not expired at
    [now], in insertion order. *)
Definition liveFor (now : Z) (t : string) (c : JsMap CachedResponse) : list CachedResponse :=
  filter (fun e => negb (expired now e) && String.eqb (tool e) t) (map_values c).

(** Three stores for tool "build": within one millisecond, and one second
    apart. *)
Definition buildData (output : string) : ResponseData :=
  mkResponseData "build" output "" 0 "xcodebuild build" [].

Definition sameMsCalls : list StoreCall :=
  [ mkStoreCall (buildData "first") "u1" 5000 5000;
    mkStoreCall (buildData "second") "u2" 5000 5000;
    mkStoreCall (buildData "third") "u3" 5000 5000 ].

Definition spacedCalls : list StoreCall :=
  [ mkStoreCall (buildData "first") "u1" 5000 5000;
    mkStoreCall (buildData "second") "u2" 6000 6000;
    mkStoreCall (buildData "third") "u3" 7000 7000 ].

(** A string without a line feed. *)
Fixpoint noNewline (s : string) : bool :=
  match s with
  | EmptyString => true
  | String c s' => negb (Ascii.eqb c newline) && noNewline s'
  end.

(** The combined text [extractBuildSummary] splits into lines. *)
Definition combinedText (output stderr_ : string) : string :=
  output ++ String newline stderr_.

(** A successful build log. *)
Definition sampleBuildLog : string :=
  "Building target MyApp with configuration Debug"
  ++ String newline ("** BUILD SUCCEEDED **" ++ String newline "Total time: 45.2 seconds").

(** The three ways a run of the executor can end, read off the result:
    a fatal pattern matched, the timer fired, or neither. *)
Definition fatalExit (r : StreamingCommandResult) : bool :=
  match fatalMatch r with
  | Some _ => true
  | None => false
  end.

Definition timeoutExit (r : StreamingCommandResult) : bool := timedOut r.

Definition normalExit (r : StreamingCommandResult) : bool :=
  negb (fatalExit r) && negb (timeoutExit r).

(** Exactly one of three. *)
Definition exactlyOne (a b c : bool) : bool :=
  (a && negb b && negb c) || (negb a && b && negb c) || (negb a && negb b && c).

Definition isTimerFired (ev : ChildEvent) : bool :=
  match ev with
  | TimerFired => true
  | _ => false
  end.

Definition isStderrData (ev : ChildEvent) : bool :=
  match ev with
  | StderrData _ => true
  | _ => false
  end.

(** Everything the events deliver on stdout, in order. *)
Fixpoint stdoutText (evs : list ChildEvent) : string :=
  match evs with
  | [] => EmptyString
  | StdoutData text :: evs' => text ++ stdoutText evs'
  | _ :: evs' => stdoutText evs'
  end.

(** Two promises in the same state, with the same error when rejected. *)
Definition sameSettlement (p p' : Promise) : Prop :=
  match p, p' with
  | Pending, Pending => True
  | Resolved _, Resolved _ => True
  | Rejected e, Rejected e' => e = e'
  | _, _ => False
  end.

(** A run in which a fatal line arrives on stderr, the process outlives the
    [kill], the timer fires, and the process then closes. *)
Definition fatalThenTimeout : list ChildEvent :=
  [ StderrData "xcodebuild: error: The device is passcode protected";
    TimerFired;
    Close None ].

(** A run in which the build reports success, the timer fires and the
    killed process closes without an exit code. *)
Definition successThenTimeout : list ChildEvent :=
  [ StdoutData "** BUILD SUCCEEDED **";
    TimerFired;
    Close None ].

(** The state [s] with something else accumulated on stderr. *)
Definition withStderr (accumulated : string) (s : ExecState) : ExecState :=
  {| st_stdout := st_stdout s; st_stderr := accumulated;
     st_timedOut := st_timedOut s; st_fatalMatch := st_fatalMatch s;
     timerArmed := timerArmed s; kills := kills s;
     notified := notified s; promise := promise s |}.

(** Options with a buffer of four code units, and a run that delivers more
    than that on stderr first and on stdout next. *)
Definition tinyOptions : StreamingOptions :=
  {| maxBuffer := 4; fatalPatterns := [] |}.

Definition stderrThenStdout : list ChildEvent :=
  [ StderrData "warning: a long line on stderr"; StdoutData "hello"; Close (Some 0) ].

(** The same request with the cached destination taken out of the
    preferred configuration. *)
Definition withoutCachedDestination (params : ResolveParams) : ResolveParams :=
  {| explicitDestination := explicitDestination params;
     preferredConfig :=
       option_map
         (fun cfg => {| scheme := scheme cfg; configuration := configuration cfg;
                        destination := None; sdk := sdk cfg;
                        derivedDataPath := derivedDataPath cfg |})
         (preferredConfig params);
     projectPath := projectPath params;
     p_sdk := p_sdk params |}.

(** A simulator destination: its [platform=] field names a simulator, and
    not a Mac platform. *)
Definition simulatorDestination (d : string) : bool :=
  match matchPlatform d with
  | Some token =>
      includes "simulator" (toLowerCase token)
      && negb (includes "mac" (toLowerCase token))
  | None => false
  end.

(** A string without a comma. *)
Fixpoint noComma (s : string) : bool :=
  match s with
  | EmptyString => true
  | String c s' => negb (Ascii.eqb c ",") && noComma s'
  end.

(** All characters are lower-case letters a-z. *)
Fixpoint allLowerLetters (s : string) : bool :=
  match s with
  | EmptyString => true
  | String c s' => isLowerLetter c && allLowerLetters s'
  end.

(** A simulator cache with nothing to suggest, and the request of a macOS
    build for a project whose last good build ran on an iOS simulator. *)
Definition emptySimulatorCache : SimulatorCache :=
  {| getPreferredSimulator := fun _ => Some None; getSimulatorList := Some [] |}.

Definition cachedConfig (dest : string) : BuildConfig :=
  {| scheme := "SpaceTime"; configuration := "Debug"; destination := Some dest;
     sdk := None; derivedDataPath := None |}.

Definition requestFor (sdk_ : string) (cachedDest : string) : ResolveParams :=
  {| explicitDestination := None;
     preferredConfig := Some (cachedConfig cachedDest);
     projectPath := "SpaceTime.xcodeproj";
     p_sdk := Some sdk_ |}.

(* ================================================================= *)
(** ** response-cache.ts: [getStats] *)

(** A value of the [byTool] object: a number, or the text that [+ 1] makes
    of anything that is not a number. *)
Inductive Tally : Type :=
| Counted (n : Z)
| Concatenated.

(** The function-valued properties every object inherits from
    [Object.prototype]; [byTool[name]] is truthy for them before any
    assignment. *)
Definition inheritedNames : list string :=
  [ "constructor"; "hasOwnProperty"; "isPrototypeOf"; "propertyIsEnumerable";
    "toLocaleString"; "toString"; "valueOf";
    "__defineGetter__"; "__defineSetter__"; "__lookupGetter__"; "__lookupSetter__" ].

(** [byTool[t] = (byTool[t] || 0) + 1] on the own properties of [byTool],
    kept in creation order (enumeration puts integer-like names first).  A
    count is never 0, so an own number is truthy; an inherited function
    plus 1 is a text, and so is a text plus 1.  The name [__proto__] reads
    as an object and ignores the assignment of a text. *)
Definition tally (byTool : JsMap Tally) (t : string) : JsMap Tally :=
  match map_get t byTool with
  | Some (Counted n) => map_set t (Counted (n + 1)) byTool
  | Some Concatenated => map_set t Concatenated byTool
  | None =>
      if String.eqb t "__proto__" then byTool
      else if existsb (String.eqb t) inheritedNames then map_set t Concatenated byTool
      else map_set t (Counted 1) byTool
  end.

Record CacheStats : Type := mkCacheStats {
  totalEntries : Z;
  byTool : JsMap Tally
}.

Definition getStats (c : JsMap CachedResponse) : CacheStats :=
  {| totalEntries := map_size c;
     byTool := fold_left (fun acc cached => tally acc (tool cached)) (map_values c) [] |}.

(** A tool name that is no property of [Object.prototype]. *)
Definition plainName (t : string) : bool :=
  negb (String.eqb t "__proto__") && negb (existsb (String.eqb t) inheritedNames).

(** The sum of the numbers in a [byTool] object. *)
Fixpoint tallySum (m : JsMap Tally) : Z :=
  match m with
  | [] => 0
  | (_, Counted n) :: m' => n + tallySum m'
  | (_, Concatenated) :: m' => tallySum m'
  end.

(** How many entries the cache holds for a tool. *)
Definition entriesFor (t : string) (c : JsMap CachedResponse) : Z :=
  Z.of_nat (List.length (filter (fun e => String.eqb (tool e) t) (map_values c))).

(** Everything the events deliver on stderr, in order. *)
Fixpoint stderrText (evs : list ChildEvent) : string :=
  match evs with
  | [] => EmptyString
  | StderrData text :: evs' => text ++ stderrText evs'
  | _ :: evs' => stderrText evs'
  end.

(** No pattern of the options ever matches the empty text. *)
Definition matchesNonEmpty (opts : StreamingOptions) : Prop :=
  forall chunk m, firstMatch (fatalPatterns opts) chunk = Some m -> m <> EmptyString.

(** Options whose one pattern is a literal. *)
Definition passcodeOptions : StreamingOptions :=
  {| maxBuffer := defaultMaxBuffer;
     fatalPatterns := [ fun chunk => if includes "passcode" chunk then Some "passcode" else None ] |}.

(* ================================================================= *)
(** ** command.ts: [executeCommandWithArgs] *)

Record CommandResult : Type := mkCommandResult {
  c_stdout : string;
  c_stderr : string;
  c_code : Z
}.

(** The three [McpError]s of [executeCommandWithArgs], by what their
    message is made of. *)
Inductive SpawnError : Type :=
| SpawnTimedOut (timeout : Z) (command_ : string) (args : list string)
| SpawnBufferExceeded (limit : Z)
| SpawnFailed (message : string).

Inductive SpawnPromise : Type :=
| SpawnPending
| SpawnResolved (r : CommandResult)
| SpawnRejected (e : SpawnError).

(** [{ timeout: 300000, maxBuffer: 10 * 1024 * 1024, ...options }]. *)
Record SpawnOptions : Type := mkSpawnOptions {
  sp_timeout : Z;
  sp_maxBuffer : Z
}.

Definition defaultSpawnOptions : SpawnOptions :=
  {| sp_timeout := 300000; sp_maxBuffer := 10 * 1024 * 1024 |}.

(** The variables of the promise executor's closure; [sp_kills] counts the
    calls of [child.kill()]. *)
Record SpawnState : Type := mkSpawnState {
  sp_stdout : string;
  sp_stderr : string;
  killed : bool;
  sp_timerArmed : bool;
  sp_kills : nat;
  sp_promise : SpawnPromise
}.

Definition spawnInitial : SpawnState :=
  {| sp_stdout := ""; sp_stderr := ""; killed := false; sp_timerArmed := true;
     sp_kills := 0%nat; sp_promise := SpawnPending |}.

Definition spawnSettle (p outcome : SpawnPromise) : SpawnPromise :=
  match p with
  | SpawnPending => outcome
  | _ => p
  end.

Definition spawnHandle (opts : SpawnOptions) (command_ : string) (args : list string)
  (s : SpawnState) (ev : ChildEvent) : SpawnState :=
  match ev with
  | TimerFired =>
      if sp_timerArmed s then
        {| sp_stdout := sp_stdout s; sp_stderr := sp_stderr s;
           killed := true; sp_timerArmed := false; sp_kills := S (sp_kills s);
           sp_promise :=
             spawnSettle (sp_promise s)
               (SpawnRejected (SpawnTimedOut (sp_timeout opts) command_ args)) |}
      else s
  | StdoutData text =>
      if strlen (sp_stdout s ++ text) >? sp_maxBuffer opts then
        {| sp_stdout := sp_stdout s ++ text; sp_stderr := sp_stderr s;
           killed := true; sp_timerArmed := false; sp_kills := S (sp_kills s);
           sp_promise :=
             spawnSettle (sp_promise s)
               (SpawnRejected (SpawnBufferExceeded (sp_maxBuffer opts))) |}
      else
        {| sp_stdout := sp_stdout s ++ text; sp_stderr := sp_stderr s;
           killed := killed s; sp_timerArmed := sp_timerArmed s;
           sp_kills := sp_kills s; sp_promise := sp_promise s |}
  | StderrData text =>
      {| sp_stdout := sp_stdout s; sp_stderr := sp_stderr s ++ text;
         killed := killed s; sp_timerArmed := sp_timerArmed s;
         sp_kills := sp_kills s; sp_promise := sp_promise s |}
  | Close code =>
      {| sp_stdout := sp_stdout s; sp_stderr := sp_stderr s;
         killed := killed s; sp_timerArmed := false; sp_kills := sp_kills s;
         sp_promise :=
           if killed s then sp_promise s
           else spawnSettle (sp_promise s)
                  (SpawnResolved
                     {| c_stdout := trim (sp_stdout s);
                        c_stderr := trim (sp_stderr s);
                        c_code := match code with Some c => c | None => 0 end |}) |}
  | ChildError message =>
      {| sp_stdout := sp_stdout s; sp_stderr := sp_stderr s;
         killed := killed s; sp_timerArmed := false; sp_kills := sp_kills s;
         sp_promise :=
           if killed s then sp_promise s
           else spawnSettle (sp_promise s) (SpawnRejected (SpawnFailed message)) |}
  end.

Definition spawnRun (opts : SpawnOptions) (command_ : string) (args : list string)
  (s : SpawnState) (evs : list ChildEvent) : SpawnState :=
  fold_left (spawnHandle opts command_ args) evs s.

(** [executeCommandWithArgs(command, args, options)] on the events the
    environment delivers. *)
Definition executeCommandWithArgs (opts : SpawnOptions) (command_ : string)
  (args : list string) (evs : list ChildEvent) : SpawnPromise :=
  sp_promise (spawnRun opts command_ args spawnInitial evs).

(** A state of [executeCommandWithArgs] in which nothing has gone wrong
    yet. *)
Definition spawnClean (opts : SpawnOptions) (s : SpawnState) : Prop :=
  sp_promise s = SpawnPending /\ killed s = false /\ sp_timerArmed s = true
  /\ strlen (sp_stdout s) <= sp_maxBuffer opts.

(** The same request without an explicit destination. *)
Definition withoutExplicitDestination (params : ResolveParams) : ResolveParams :=
  {| explicitDestination := None;
     preferredConfig := preferredConfig params;
     projectPath := projectPath params;
     p_sdk := p_sdk params |}.

(** A simulator cache with one available tvOS simulator. *)
Definition tvSimulatorCache : SimulatorCache :=
  {| getPreferredSimulator := fun _ => Some None;
     getSimulatorList :=
       Some [ ("com.apple.CoreSimulator.SimRuntime.iOS-17-0",
               [ {| udid := "IOS-OFF"; name := "iPhone 15"; isAvailable := false |} ]);
              ("com.apple.CoreSimulator.SimRuntime.tvOS-17-0",
               [ {| udid := "TV-1"; name := "Apple TV"; isAvailable := true |} ]) ] |}.

(* ================================================================= *)
(** ** command.ts: [executeCommand] and [executeCommandSync] *)

(** The [code] of an error object at run time: absent, a number (the exit
    code) or a text (the name of a system error). *)
Inductive JsCode : Type :=
| NoCode
| NumberCode (n : Z)
| TextCode (s : string).

(** [code || 1]. *)
Definition codeOr1 (c : JsCode) : JsCode :=
  match c with
  | NoCode => NumberCode 1
  | NumberCode n => if n =? 0 then NumberCode 1 else NumberCode n
  | TextCode s => if String.eqb s EmptyString then NumberCode 1 else TextCode s
  end.

(** The error object [exec] and [execSync] fail with. *)
Record ExecError : Type := mkExecError {
  e_stdout : option string;
  e_stderr : option string;
  e_message : string;
  e_code : JsCode;
  e_status : option Z
}.

(** [{ stdout, stderr, code }] as it is at run time: [code] is declared a
    number and can be a text. *)
Record ExecResult : Type := mkExecResult {
  x_stdout : string;
  x_stderr : string;
  x_code : JsCode
}.

(** How the awaited [execAsync] ends. *)
Inductive ExecCompletion : Type :=
| Fulfilled (stdout_ stderr_ : string)
| Failed (e : ExecError).

Inductive ExecOutcome : Type :=
| Returned (r : ExecResult)
| ThrownTimedOut (timeout : Z) (command_ : string).

(** [s?.trim() || fallback]. *)
Definition trimmedOr (s : option string) (fallback : string) : string :=
  match s with
  | Some t => if String.eqb (trim t) EmptyString then fallback else trim t
  | None => fallback
  end.

Definition failureResult (e : ExecError) (code : JsCode) : ExecResult :=
  {| x_stdout := trimmedOr (e_stdout e) EmptyString;
     x_stderr := trimmedOr (e_stderr e) (e_message e);
     x_code := code |}.

Definition executeCommand (timeout : Z) (command_ : string) (done : ExecCompletion)
  : ExecOutcome :=
  match done with
  | Fulfilled stdout_ stderr_ =>
      Returned {| x_stdout := trim stdout_; x_stderr := trim stderr_;
                  x_code := NumberCode 0 |}
  | Failed e =>
      match e_code e with
      | TextCode s =>
          if String.eqb s "ETIMEDOUT" then ThrownTimedOut timeout command_
          else Returned (failureResult e (codeOr1 (e_code e)))
      | _ => Returned (failureResult e (codeOr1 (e_code e)))
      end
  end.

(** How [execSync] ends: with the text of stdout, or with an error. *)
Inductive SyncCompletion : Type :=
| SyncDone (stdout_ : string)
| SyncFailed (e : ExecError).

Definition executeCommandSync (done : SyncCompletion) : ExecResult :=
  match done with
  | SyncDone stdout_ =>
      {| x_stdout := trim stdout_; x_stderr := EmptyString; x_code := NumberCode 0 |}
  | SyncFailed e =>
      failureResult e
        (codeOr1 (match e_status e with Some n => NumberCode n | None => NoCode end))
  end.

(* ================================================================= *)
(** ** command.ts: [buildXcodebuildCommand] and [buildSimctlCommand] *)

(** [`"${s}"`]. *)
Definition quoted (s : string) : string := String dquote (s ++ String dquote EmptyString).

(** [parts.join(sep)]. *)
Fixpoint join (sep : string) (parts : list string) : string :=
  match parts with
  | [] => EmptyString
  | p :: rest =>
      match rest with
      | [] => p
      | _ :: _ => p ++ sep ++ join sep rest
      end
  end.

(** [s.endsWith(suffix)]. *)
Fixpoint endsWith (suffix s : string) : bool :=
  String.eqb suffix s
  || match s with
     | EmptyString => false
     | String _ s' => endsWith suffix s'
     end.

Record XcodebuildOptions : Type := mkXcodebuildOptions {
  xo_scheme : option string;
  xo_configuration : option string;
  xo_destination : option string;
  xo_sdk : option string;
  xo_derivedDataPath : option string;
  xo_workspace : bool;
  xo_json : bool
}.

(** [if (o) { parts.push(...f(o)) }] for a string-or-undefined [o]. *)
Definition whenTruthy (o : option string) (f : string -> list string) : list string :=
  match o with
  | Some s => if String.eqb s EmptyString then [] else f s
  | None => []
  end.

Definition xcodebuildParts (action projectPath_ : string) (o : XcodebuildOptions)
  : list string :=
  (["xcodebuild"]
   ++ (if xo_workspace o || endsWith ".xcworkspace" projectPath_
       then ["-workspace"; quoted projectPath_]
       else ["-project"; quoted projectPath_])
   ++ whenTruthy (xo_scheme o) (fun s => ["-scheme"; quoted s])
   ++ whenTruthy (xo_configuration o) (fun s => ["-configuration"; s])
   ++ whenTruthy (xo_destination o) (fun s => ["-destination"; quoted s])
   ++ whenTruthy (xo_sdk o) (fun s => ["-sdk"; s])
   ++ whenTruthy (xo_derivedDataPath o) (fun s => ["-derivedDataPath"; quoted s])
   ++ (if xo_json o then ["-json"] else [])
   ++ (if String.eqb action EmptyString then [] else [action]))%list.

Definition buildXcodebuildCommand (action projectPath_ : string) (o : XcodebuildOptions)
  : string :=
  join " " (xcodebuildParts action projectPath_ o).

Record SimctlOptions : Type := mkSimctlOptions {
  so_deviceId : option string;
  so_deviceType : option string;
  so_runtime : option string;
  so_name : option string;
  so_json : bool
}.

Definition simctlParts (action : string) (o : SimctlOptions) : list string :=
  (["xcrun"; "simctl"; action]
   ++ (if so_json o && String.eqb action "list" then ["-j"] else [])
   ++ (if truthy (so_deviceId o)
          && existsb (String.eqb action) ["boot"; "shutdown"; "delete"]
       then [match so_deviceId o with Some d => d | None => EmptyString end]
       else [])
   ++ (if String.eqb action "create"
          && truthy (so_name o) && truthy (so_deviceType o) && truthy (so_runtime o)
       then [ quoted (match so_name o with Some n => n | None => EmptyString end);
              match so_deviceType o with Some t => t | None => EmptyString end;
              match so_runtime o with Some r => r | None => EmptyString end ]
       else []))%list.

Definition buildSimctlCommand (action : string) (o : SimctlOptions) : string :=
  join " " (simctlParts action o).

(* ================================================================= *)
(** ** build.ts: the configuration [xcodebuildBuildTool] builds with *)

(** A property of the arguments object: absent, or present with a value
    that can be [undefined]. *)
Inductive Arg : Type :=
| Absent
| Given (v : option string).

(** The destructured value. *)
Definition argValue (a : Arg) : option string :=
  match a with
  | Absent => None
  | Given v => v
  end.

(** [Object.prototype.hasOwnProperty.call(rawArgs, key)]. *)
Definition provided (a : Arg) : bool :=
  match a with
  | Absent => false
  | Given _ => true
  end.

Record BuildToolArgs : Type := mkBuildToolArgs {
  a_projectPath : string;
  a_scheme : string;
  a_configuration : Arg;
  a_destination : Arg;
  a_sdk : Arg;
  a_derivedDataPath : Arg
}.

(** [a ?? b]. *)
Definition nullish {A : Type} (a b : option A) : option A :=
  match a with
  | Some _ => a
  | None => b
  end.

(** [finalConfig], from the arguments and the cached preferred
    configuration. *)
Definition finalConfig (sc : SimulatorCache) (preferred : option BuildConfig)
  (args : BuildToolArgs) : BuildConfig :=
  let resolvedSdk :=
    nullish (argValue (a_sdk args))
      (match preferred with Some cfg => sdk cfg | None => None end) in
  let resolvedConfiguration :=
    match argValue (a_configuration args) with
    | Some c => c
    | None => match preferred with Some cfg => configuration cfg | None => "Debug" end
    end in
  let resolvedDestination :=
    resolveDestination sc
      {| explicitDestination := argValue (a_destination args);
         preferredConfig := preferred;
         projectPath := a_projectPath args;
         p_sdk := resolvedSdk |} in
  let resolvedDerivedDataPath :=
    nullish (argValue (a_derivedDataPath args))
      (match preferred with Some cfg => derivedDataPath cfg | None => None end) in
  {| scheme := a_scheme args;
     configuration := resolvedConfiguration;
     destination := resolvedDestination;
     sdk := resolvedSdk;
     derivedDataPath := resolvedDerivedDataPath |}.

(** [finalConfig as any], read as the options of
    [buildXcodebuildCommand]. *)
Definition optionsOf (cfg : BuildConfig) : XcodebuildOptions :=
  {| xo_scheme := Some (scheme cfg);
     xo_configuration := Some (configuration cfg);
     xo_destination := destination cfg;
     xo_sdk := sdk cfg;
     xo_derivedDataPath := derivedDataPath cfg;
     xo_workspace := false;
     xo_json := false |}.

(** The command line the tool executes. *)
Definition toolCommand (sc : SimulatorCache) (preferred : option BuildConfig)
  (args : BuildToolArgs) : string :=
  buildXcodebuildCommand "build" (a_projectPath args)
    (optionsOf (finalConfig sc preferred args)).

Definition usedSmartDestination (args : BuildToolArgs) (cfg : BuildConfig) : bool :=
  negb (provided (a_destination args)) && truthy (destination cfg).

Definition usedSmartConfiguration (args : BuildToolArgs) (cfg : BuildConfig) : bool :=
  negb (provided (a_configuration args)) && negb (String.eqb (configuration cfg) "Debug").

(** A call that names the project and the scheme only. *)
Definition bareArgs (path scheme_ : string) : BuildToolArgs :=
  {| a_projectPath := path; a_scheme := scheme_;
     a_configuration := Absent; a_destination := Absent;
     a_sdk := Absent; a_derivedDataPath := Absent |}.

(* ================================================================= *)
(** ** response-cache.ts: the simulator summary *)

Record SummaryDevice : Type := mkSummaryDevice {
  sd_isAvailable : bool;
  sd_state : string;
  sd_name : string;
  sd_udid : string;
  sd_lastUsed : option Z
}.

(** [devices] as [Object.entries] enumerates it; [lastUpdated] and
    [lastUsed] as the milliseconds [getTime()] gives. *)
Record CachedSimulatorList : Type := mkCachedSimulatorList {
  cl_devices : JsMap (list SummaryDevice);
  cl_lastUpdated : Z
}.

Definition extractDeviceType (deviceName : string) : string :=
  if includes "iPhone" deviceName then "iPhone"
  else if includes "iPad" deviceName then "iPad"
  else if includes "Apple Watch" deviceName then "Apple Watch"
  else if includes "Apple TV" deviceName then "Apple TV"
  else if includes "Vision" deviceName then "Apple Vision Pro"
  else "Other".

Definition isDigit (c : ascii) : bool :=
  let n := nat_of_ascii c in ((48 <=? n) && (n <=? 57))%nat.

(** What [\d*] consumes in front of [s], and what it leaves. *)
Fixpoint takeDigits (s : string) : string :=
  match s with
  | EmptyString => EmptyString
  | String c s' => if isDigit c then String c (takeDigits s') else EmptyString
  end.

Fixpoint dropDigits (s : string) : string :=
  match s with
  | EmptyString => EmptyString
  | String c s' => if isDigit c then dropDigits s' else s
  end.

(** [p] in front of [s]: what follows it. *)
Fixpoint dropPrefix (p s : string) : option string :=
  match p with
  | EmptyString => Some s
  | String a p' =>
      match s with
      | EmptyString => None
      | String b s' => if Ascii.eqb a b then dropPrefix p' s' else None
      end
  end.

(** [/iOS-(\d+)-(\d+)/] matched at the front of [s]: groups 1 and 2.  The
    first group is followed by a dash, so it is the whole run of digits. *)
Definition iosVersionAt (s : string) : option (string * string) :=
  match dropPrefix "iOS-" s with
  | Some rest =>
      match takeDigits rest with
      | EmptyString => None
      | major =>
          match dropDigits rest with
          | String c rest' =>
              if Ascii.eqb c "-" then
                match takeDigits rest' with
                | EmptyString => None
                | minor => Some (major, minor)
                end
              else None
          | EmptyString => None
          end
      end
  | None => None
  end.

(** [runtime.match(/iOS-(\d+)-(\d+)/)]: the leftmost match. *)
Fixpoint matchIosVersion (s : string) : option (string * string) :=
  match iosVersionAt s with
  | Some m => Some m
  | None =>
      match s with
      | EmptyString => None
      | String _ s' => matchIosVersion s'
      end
  end.

(** [s.replace(p, '')] for a text [p]: the first occurrence goes. *)
Fixpoint removeFirst (p s : string) : string :=
  match dropPrefix p s with
  | Some rest => rest
  | None =>
      match s with
      | EmptyString => EmptyString
      | String c s' => String c (removeFirst p s')
      end
  end.

(** [s.replace(/-/g, ' ')]. *)
Fixpoint dashesToSpaces (s : string) : string :=
  match s with
  | EmptyString => EmptyString
  | String c s' => String (if Ascii.eqb c "-" then " "%char else c) (dashesToSpaces s')
  end.

Definition formatRuntimeName (runtime : string) : string :=
  match matchIosVersion runtime with
  | Some (major, minor) => "iOS " ++ major ++ "." ++ minor
  | None =>
      if includes "iOS" runtime
      then dashesToSpaces (removeFirst "com.apple.CoreSimulator.SimRuntime." runtime)
      else runtime
  end.

Definition extractRuntimeFromDevice (udid_ : string) (cachedList : CachedSimulatorList)
  : string :=
  match find (fun rd => existsb (fun d => String.eqb (sd_udid d) udid_) (snd rd))
             (cl_devices cachedList) with
  | Some (runtimeKey, _) => formatRuntimeName runtimeKey
  | None => "Unknown"
  end.

(** A whole number as [`${n}`] prints it. *)
Definition decimal (n : Z) : string :=
  DecimalString.NilZero.string_of_int (Z.to_int n).

(** [formatTimeAgo(date)] at clock reading [now], both in milliseconds. *)
Definition formatTimeAgo (now target : Z) : string :=
  let diffMs := now - target in
  let minutes := diffMs / (1000 * 60) in
  let hours := diffMs / (1000 * 60 * 60) in
  let days := diffMs / (1000 * 60 * 60 * 24) in
  if days >? 0 then decimal days ++ " day" ++ (if days >? 1 then "s" else "") ++ " ago"
  else if hours >? 0
  then decimal hours ++ " hour" ++ (if hours >? 1 then "s" else "") ++ " ago"
  else if minutes >? 0
  then decimal minutes ++ " minute" ++ (if minutes >? 1 then "s" else "") ++ " ago"
  else "Just now".

Record BootedEntry : Type := mkBootedEntry {
  b_name : string;
  b_udid : string;
  b_state : string;
  b_runtime : string
}.

(** The summary.  The two texts [formatTimeAgo] makes for it ([cacheAge]
    and the [lastUsed] of a recently used device) depend on clock readings
    of their own and are left out; an entry of [recentlyUsed] is a name and
    a udid. *)
Record SimulatorSummary : Type := mkSimulatorSummary {
  totalDevices : Z;
  availableDevices : Z;
  bootedDevices : Z;
  deviceTypes : list string;
  commonRuntimes : list string;
  lastUpdated : Z;
  bootedList : list BootedEntry;
  recentlyUsed : list (string * string)
}.

(** One step of the [forEach] that counts device types; [n || 0] is [n]
    for a number. *)
Definition countType (counts : JsMap Z) (device : SummaryDevice) : JsMap Z :=
  let type_ := extractDeviceType (sd_name device) in
  map_set type_ ((match map_get type_ counts with Some n => n | None => 0 end) + 1) counts.

Definition hasLastUsed (d : SummaryDevice) : bool :=
  match sd_lastUsed d with
  | Some _ => true
  | None => false
  end.

(** [a.lastUsed?.getTime() ?? 0]. *)
Definition lastUsedTime (d : SummaryDevice) : Z :=
  match sd_lastUsed d with
  | Some t => t
  | None => 0
  end.

Definition byLastUsedDesc (a b : SummaryDevice) : Z := lastUsedTime b - lastUsedTime a.

Definition allDevicesOf (cachedList : CachedSimulatorList) : list SummaryDevice :=
  List.concat (map_values (cl_devices cachedList)).

Definition availableOf (cachedList : CachedSimulatorList) : list SummaryDevice :=
  filter sd_isAvailable (allDevicesOf cachedList).

(** The devices behind [recentlyUsed]. *)
Definition recentDevices (cachedList : CachedSimulatorList) : list SummaryDevice :=
  slice 0 3 (sort_by byLastUsedDesc (filter hasLastUsed (availableOf cachedList))).

Definition extractSimulatorSummary (cachedList : CachedSimulatorList) : SimulatorSummary :=
  let allDevices := allDevicesOf cachedList in
  let available := availableOf cachedList in
  let booted := filter (fun d => String.eqb (sd_state d) "Booted") available in
  let deviceTypeCounts := fold_left countType available [] in
  let activeRuntimes :=
    slice 0 5
      (map formatRuntimeName
         (filter (fun runtime =>
                    match map_get runtime (cl_devices cachedList) with
                    | Some devs => Z.of_nat (List.length devs) >? 0
                    | None => false
                    end)
                 (map_keys (cl_devices cachedList)))) in
  {| totalDevices := Z.of_nat (List.length allDevices);
     availableDevices := Z.of_nat (List.length available);
     bootedDevices := Z.of_nat (List.length booted);
     deviceTypes := slice 0 5 (map_keys deviceTypeCounts);
     commonRuntimes := activeRuntimes;
     lastUpdated := cl_lastUpdated cachedList;
     bootedList :=
       map (fun d => {| b_name := sd_name d; b_udid := sd_udid d; b_state := sd_state d;
                        b_runtime := extractRuntimeFromDevice (sd_udid d) cachedList |})
           booted;
     recentlyUsed :=
       map (fun d => (sd_name d, sd_udid d)) (recentDevices cachedList) |}.

(** Newest first. *)
Definition newer_first (a b : SummaryDevice) : Prop := lastUsedTime b <= lastUsedTime a.

(** A list of simulators for two runtimes. *)
Definition sampleSimulators : CachedSimulatorList :=
  {| cl_devices :=
       [ ("com.apple.CoreSimulator.SimRuntime.iOS-18-0",
          [ mkSummaryDevice true "Booted" "iPhone 16" "A-1" (Some 5000);
            mkSummaryDevice true "Shutdown" "iPad Air" "A-2" (Some 9000);
            mkSummaryDevice false "Shutdown" "iPhone 15" "A-3" None ]);
         ("com.apple.CoreSimulator.SimRuntime.tvOS-18-0",
          [ mkSummaryDevice true "Shutdown" "Apple TV 4K" "B-1" (Some 7000);
            mkSummaryDevice true "Shutdown" "Apple TV" "B-2" (Some 1000) ]) ];
     cl_lastUpdated := 10000 |}.

(** The character [c] does not occur in [s]. *)
Fixpoint lacks (c : ascii) (s : string) : bool :=
  match s with
  | EmptyString => true
  | String a s' => negb (Ascii.eqb a c) && lacks c s'
  end.

(* ################################################################# *)
(** * Properties *)

(* ================================================================= *)
(** ** Arrays: [slice] and [sort] *)

Lemma slice_from_0 {A : Type} (n : Z) (l : list A) :
  0 <= n -> slice 0 n l = firstn (Z.to_nat n) l.
Proof.
  intros Hn. unfold slice.
  replace (0 <? 0) with false by reflexivity.
  destruct (n <? 0) eqn:E; [apply Z.ltb_lt in E; lia|].
  rewrite (Z.min_l 0) by lia. change (skipn (Z.to_nat 0) l) with l.
  rewrite Z.sub_0_r.
  destruct (Z.le_ge_cases n (Z.of_nat (List.length l))) as [H|H].
  - now rewrite (Z.min_l n) by lia.
  - rewrite (Z.min_r n) by lia. rewrite Nat2Z.id.
    rewrite firstn_all. symmetry. apply firstn_all2. lia.
Qed.

Lemma slice_length_le {A : Type} (n : Z) (l : list A) :
  0 <= n -> Z.of_nat (List.length (slice 0 n l)) = Z.min n (Z.of_nat (List.length l)).
Proof.
  intros Hn. rewrite slice_from_0 by assumption. rewrite length_firstn. lia.
Qed.

Lemma in_firstn_in {A : Type} (n : nat) (l : list A) (x : A) :
  In x (firstn n l) -> In x l.
Proof.
  intros H. rewrite <- (firstn_skipn n l). apply in_or_app. now left.
Qed.

Lemma in_skipn_in {A : Type} (n : nat) (l : list A) (x : A) :
  In x (skipn n l) -> In x l.
Proof.
  intros H. rewrite <- (firstn_skipn n l). apply in_or_app. now right.
Qed.

Section SortFacts.

Context {A : Type}.
Variable cmp : A -> A -> Z.
Variable key : A -> Z.
Hypothesis cmp_key : forall a b, cmp a b <= 0 <-> key a <= key b.

Lemma insert_by_perm (x : A) (l : list A) : Permutation (insert_by cmp x l) (x :: l).
Proof.
  induction l as [|y l IH]; simpl.
  - apply Permutation_refl.
  - destruct (cmp x y <=? 0).
    + apply Permutation_refl.
    + eapply perm_trans; [apply perm_skip, IH | apply perm_swap].
Qed.

Lemma sort_by_perm (l : list A) : Permutation (sort_by cmp l) l.
Proof.
  induction l as [|x l IH]; simpl.
  - constructor.
  - eapply perm_trans; [apply insert_by_perm | now apply perm_skip].
Qed.

Lemma sort_by_length (l : list A) : List.length (sort_by cmp l) = List.length l.
Proof. apply Permutation_length, sort_by_perm. Qed.

Lemma insert_by_sorted (x : A) (l : list A) :
  StronglySorted (key_le key) l -> StronglySorted (key_le key) (insert_by cmp x l).
Proof.
  induction 1 as [|y l Hs IH Hy]; simpl.
  - repeat constructor.
  - destruct (cmp x y <=? 0) eqn:E.
    + apply Z.leb_le, cmp_key in E.
      constructor; [now constructor|].
      constructor; [exact E|].
      eapply Forall_impl; [|exact Hy]. unfold key_le. intros; lia.
    + apply Z.leb_gt in E.
      assert (Hyx : key y < key x).
      { destruct (Z.le_gt_cases (key x) (key y)) as [H|H]; [|lia].
        apply cmp_key in H. lia. }
      constructor; [exact IH|].
      eapply Permutation_Forall; [apply Permutation_sym, insert_by_perm|].
      constructor; [unfold key_le; lia | exact Hy].
Qed.

Lemma sort_by_sorted (l : list A) : StronglySorted (key_le key) (sort_by cmp l).
Proof.
  induction l as [|x l IH]; simpl; [constructor | now apply insert_by_sorted].
Qed.

(** Sorting a list that is already in order changes nothing. *)
Lemma sort_by_of_sorted (l : list A) : StronglySorted (key_le key) l -> sort_by cmp l = l.
Proof.
  induction 1 as [|x l Hs IH Hx]; simpl; [reflexivity|].
  rewrite IH. destruct l as [|y l']; [reflexivity|]. simpl.
  inversion Hx as [|? ? Hxy _]; subst.
  apply cmp_key, Z.leb_le in Hxy. now rewrite Hxy.
Qed.

(** Stability: elements with the same key keep their input order. *)
Lemma insert_by_stable (k : Z) (x : A) (l : list A) :
  filter (fun a => key a =? k) (insert_by cmp x l)
  = filter (fun a => key a =? k) (x :: l).
Proof.
  induction l as [|y l IH]; [reflexivity|].
  simpl insert_by. destruct (cmp x y <=? 0) eqn:E; [reflexivity|].
  apply Z.leb_gt in E.
  assert (Hyx : key y < key x).
  { destruct (Z.le_gt_cases (key x) (key y)) as [H|H]; [|lia].
    apply cmp_key in H. lia. }
  simpl filter in *. rewrite IH.
  destruct (key x =? k) eqn:Ex, (key y =? k) eqn:Ey; try reflexivity.
  apply Z.eqb_eq in Ex, Ey. lia.
Qed.

Lemma sort_by_stable (k : Z) (l : list A) :
  filter (fun a => key a =? k) (sort_by cmp l) = filter (fun a => key a =? k) l.
Proof.
  induction l as [|x l IH]; [reflexivity|].
  simpl sort_by. rewrite insert_by_stable. simpl. now rewrite IH.
Qed.

(** In a sorted list nothing in a prefix is larger than anything after
    it. *)
Lemma sorted_firstn_skipn (n : nat) (l : list A) :
  StronglySorted (key_le key) l ->
  forall a b, In a (firstn n l) -> In b (skipn n l) -> key a <= key b.
Proof.
  intros Hs. revert n. induction Hs as [|x l Hs IH Hx]; intros n a b Ha Hb.
  - rewrite firstn_nil in Ha. contradiction.
  - destruct n as [|n]; [contradiction|]. simpl in Ha, Hb.
    destruct Ha as [<-|Ha].
    + rewrite Forall_forall in Hx. apply Hx.
      eapply in_skipn_in; exact Hb.
    + eapply IH; eassumption.
Qed.

End SortFacts.

Lemma Permutation_filter {A : Type} (f : A -> bool) (l l' : list A) :
  Permutation l l' -> Permutation (filter f l) (filter f l').
Proof.
  induction 1 as [|x l l' _ IH|x y l|l l' l'' _ IH1 _ IH2]; simpl.
  - constructor.
  - destruct (f x); [now constructor | exact IH].
  - destruct (f x), (f y); try apply Permutation_refl. apply perm_swap.
  - eapply perm_trans; eassumption.
Qed.

Lemma filter_all {A : Type} (f : A -> bool) (l : list A) :
  (forall x, In x l -> f x = true) -> filter f l = l.
Proof.
  induction l as [|x l IH]; intros H; simpl; [reflexivity|].
  rewrite (H x (or_introl eq_refl)). f_equal. apply IH.
  intros y Hy. apply H. now right.
Qed.

Lemma filter_none {A : Type} (f : A -> bool) (l : list A) :
  (forall x, In x l -> f x = false) -> filter f l = [].
Proof.
  induction l as [|x l IH]; intros H; simpl; [reflexivity|].
  rewrite (H x (or_introl eq_refl)). apply IH.
  intros y Hy. apply H. now right.
Qed.

(* ================================================================= *)
(** ** [Map] *)

Section JsMapFacts.

Context {V : Type}.
Implicit Types (m : JsMap V) (k : string) (v : V).

Lemma map_get_None k m : map_get k m = None <-> ~ In k (map_keys m).
Proof.
  induction m as [|[k' v'] m IH]; simpl.
  - tauto.
  - destruct (String.eqb_spec k' k) as [->|Hne].
    + split; [discriminate | intros H; exfalso; apply H; now left].
    + rewrite IH. split; [intros H [E|E]; [congruence|tauto] | tauto].
Qed.

Lemma map_get_In k v m : map_get k m = Some v -> In (k, v) m.
Proof.
  induction m as [|[k' v'] m IH]; simpl; [discriminate|].
  destruct (String.eqb_spec k' k) as [->|Hne].
  - intros [= ->]. now left.
  - intros H. right. now apply IH.
Qed.

Lemma In_map_get k v m : uniqueKeys m -> In (k, v) m -> map_get k m = Some v.
Proof.
  unfold uniqueKeys, map_keys.
  induction m as [|[k' v'] m IH]; simpl; [contradiction|].
  intros Hnd [E|Hin].
  - injection E as -> ->. now rewrite String.eqb_refl.
  - inversion Hnd as [|? ? Hk' Hnd']; subst.
    destruct (String.eqb_spec k' k) as [->|Hne].
    + exfalso. apply Hk'. change k with (fst (k, v)). now apply in_map.
    + now apply IH.
Qed.

Lemma map_set_fresh k v m : ~ In k (map_keys m) -> map_set k v m = (m ++ [(k, v)])%list.
Proof.
  induction m as [|[k' v'] m IH]; simpl; intros H; [reflexivity|].
  destruct (String.eqb_spec k' k) as [->|Hne]; [tauto|].
  f_equal. apply IH. tauto.
Qed.

Lemma map_keys_set k v m :
  map_keys (map_set k v m)
  = if map_has k m then map_keys m else (map_keys m ++ [k])%list.
Proof.
  induction m as [|[k' v'] m IH]; simpl; [reflexivity|].
  destruct (String.eqb_spec k' k) as [->|Hne]; simpl; [reflexivity|].
  unfold map_keys in *. rewrite IH. unfold map_has.
  now destruct (existsb _ m).
Qed.

Lemma map_has_In k m : map_has k m = true <-> In k (map_keys m).
Proof.
  unfold map_has, map_keys. rewrite existsb_exists, in_map_iff. split.
  - intros [kv [Hin E]]. apply String.eqb_eq in E. eauto.
  - intros [kv [E Hin]]. exists kv. split; [exact Hin | now apply String.eqb_eq].
Qed.

Lemma uniqueKeys_set k v m : uniqueKeys m -> uniqueKeys (map_set k v m).
Proof.
  unfold uniqueKeys. intros H. rewrite map_keys_set.
  destruct (map_has k m) eqn:E; [exact H|].
  assert (Hk : ~ In k (map_keys m)).
  { rewrite <- map_has_In. congruence. }
  apply NoDup_app; [exact H | repeat constructor; simpl; tauto |].
  intros x Hx [<-|[]]. tauto.
Qed.

Lemma uniqueKeys_filter (f : string * V -> bool) m :
  uniqueKeys m -> uniqueKeys (filter f m).
Proof.
  unfold uniqueKeys, map_keys.
  induction m as [|kv m IH]; simpl; intros H; [constructor|].
  inversion H as [|? ? Hk Hnd]; subst.
  destruct (f kv); simpl; [|now apply IH].
  constructor; [|now apply IH].
  intros Hin. apply Hk. apply in_map_iff in Hin as [kv' [E Hin]].
  apply filter_In in Hin as [Hin _]. rewrite <- E. now apply in_map.
Qed.

Lemma uniqueKeys_delete k m : uniqueKeys m -> uniqueKeys (map_delete k m).
Proof. apply uniqueKeys_filter. Qed.

(** Two entries of a [Map] with the same key are the same entry. *)
Lemma uniqueKeys_inj m (kv kv' : string * V) :
  uniqueKeys m -> In kv m -> In kv' m -> fst kv = fst kv' -> kv = kv'.
Proof.
  intros Hu H H' E. destruct kv as [k v], kv' as [k' v']. simpl in E. subst k'.
  pose proof (In_map_get _ _ _ Hu H) as G.
  pose proof (In_map_get _ _ _ Hu H') as G'. congruence.
Qed.

Lemma map_get_delete_eq k m : map_get k (map_delete k m) = None.
Proof.
  apply map_get_None. unfold map_delete, map_keys. intros Hin.
  apply in_map_iff in Hin as [kv [E Hin]].
  apply filter_In in Hin as [_ Hf]. subst k.
  now rewrite String.eqb_refl in Hf.
Qed.

Lemma map_get_delete_ne k k' m : k' <> k -> map_get k' (map_delete k m) = map_get k' m.
Proof.
  intros Hne. unfold map_delete.
  induction m as [|[k0 v0] m IH]; simpl; [reflexivity|].
  destruct (String.eqb_spec k0 k) as [->|Hk]; simpl.
  - destruct (String.eqb_spec k k') as [E|_]; [congruence | exact IH].
  - now rewrite IH.
Qed.

Lemma map_has_delete k m : map_has k (map_delete k m) = false.
Proof.
  destruct (map_has k (map_delete k m)) eqn:E; [|reflexivity].
  apply map_has_In in E. apply map_get_None in E; [contradiction|].
  apply map_get_delete_eq.
Qed.

(** Deleting a list of keys one after the other. *)
Lemma fold_delete (l : list (string * V)) m :
  fold_left (fun acc kv => map_delete (fst kv) acc) l m
  = filter (fun kv => negb (existsb (String.eqb (fst kv)) (map_keys l))) m.
Proof.
  revert m. induction l as [|[k v] l IH]; intros m; simpl.
  - symmetry. now apply filter_all.
  - rewrite IH. unfold map_delete.
    induction m as [|kv m IHm]; simpl; [reflexivity|].
    rewrite (String.eqb_sym (fst kv) k).
    destruct (String.eqb k (fst kv)); simpl; [exact IHm|].
    destruct (existsb _ (map_keys l)); simpl; [exact IHm | now rewrite IHm].
Qed.

(** Deleting the keys of the entries that satisfy [P], one after the
    other. *)
Lemma fold_delete_if (P : V -> bool) (l : list (string * V)) m :
  fold_left (fun acc kv => if P (snd kv) then map_delete (fst kv) acc else acc) l m
  = fold_left (fun acc kv => map_delete (fst kv) acc) (filter (fun kv => P (snd kv)) l) m.
Proof.
  revert m. induction l as [|kv l IH]; intros m; simpl; [reflexivity|].
  destruct (P (snd kv)); simpl; apply IH.
Qed.

End JsMapFacts.

(** An element that is not smaller than any other stays last under a
    stable sort. *)
Lemma insert_by_snoc {A : Type} (cmp : A -> A -> Z) (a x : A) (l : list A) :
  cmp a x <= 0 -> insert_by cmp a (l ++ [x]) = (insert_by cmp a l ++ [x])%list.
Proof.
  intros Hax. induction l as [|y l IH]; simpl.
  - apply Z.leb_le in Hax. now rewrite Hax.
  - destruct (cmp a y <=? 0); [reflexivity | now rewrite IH].
Qed.

Lemma sort_by_snoc {A : Type} (cmp : A -> A -> Z) (x : A) (l : list A) :
  (forall y, In y l -> cmp y x <= 0) ->
  sort_by cmp (l ++ [x]) = (sort_by cmp l ++ [x])%list.
Proof.
  induction l as [|a l IH]; intros H; simpl; [reflexivity|].
  rewrite IH by (intros y Hy; apply H; now right).
  apply insert_by_snoc. apply H. now left.
Qed.

(* ================================================================= *)
(** ** [ResponseCache] *)

Lemma maxAge_nonneg : 0 <= maxAge.
Proof. unfold maxAge. lia. Qed.

Lemma maxEntries_pos : 1 <= maxEntries.
Proof. unfold maxEntries. lia. Qed.

Lemma byAgeAsc_key (a b : string * CachedResponse) :
  byAgeAsc a b <= 0 <-> timestamp (snd a) <= timestamp (snd b).
Proof. unfold byAgeAsc. lia. Qed.

Lemma byAgeDesc_key (a b : CachedResponse) :
  byAgeDesc a b <= 0 <-> - timestamp a <= - timestamp b.
Proof. unfold byAgeDesc. lia. Qed.

Lemma purgeExpired_by_key (now : Z) (c : JsMap CachedResponse) :
  purgeExpired now c
  = filter (fun kv => negb (existsb (String.eqb (fst kv)) (expiredKeys now c))) c.
Proof.
  unfold purgeExpired. rewrite fold_delete_if. apply fold_delete.
Qed.

(** With unique keys the first loop of [cleanup] keeps exactly the entries
    that are not expired, in their order. *)
Lemma purgeExpired_filter (now : Z) (c : JsMap CachedResponse) :
  uniqueKeys c ->
  purgeExpired now c = filter (fun kv => negb (expired now (snd kv))) c.
Proof.
  intros Hu. rewrite purgeExpired_by_key. apply filter_ext_in.
  intros kv Hin. f_equal. unfold expiredKeys, map_keys.
  destruct (expired now (snd kv)) eqn:E.
  - apply existsb_exists. exists (fst kv). split; [|apply String.eqb_refl].
    apply in_map. apply filter_In. now split.
  - destruct (existsb _ _) eqn:X; [|reflexivity].
    apply existsb_exists in X as [k [Hk Ek]]. apply String.eqb_eq in Ek.
    apply in_map_iff in Hk as [kv' [E' Hin']].
    apply filter_In in Hin' as [Hin' Hexp].
    assert (kv = kv') by (apply (uniqueKeys_inj c); congruence).
    congruence.
Qed.

Lemma evictOldest_by_key (c : JsMap CachedResponse) :
  evictOldest c
  = if map_size c >? maxEntries then
      filter (fun kv =>
                negb (existsb (String.eqb (fst kv))
                        (map_keys (firstn (Z.to_nat (map_size c - maxEntries))
                                     (sort_by byAgeAsc c))))) c
    else c.
Proof.
  unfold evictOldest. destruct (map_size c >? maxEntries) eqn:E; [|reflexivity].
  apply Z.gtb_lt in E. rewrite fold_delete. now rewrite slice_from_0 by lia.
Qed.

Lemma existsb_eqb_false (k : string) (ks : list string) :
  ~ In k ks -> existsb (String.eqb k) ks = false.
Proof.
  intros H. destruct (existsb _ ks) eqn:E; [|reflexivity].
  apply existsb_exists in E as [k' [Hin Ek]]. apply String.eqb_eq in Ek.
  now subst.
Qed.

Lemma existsb_eqb_true (k : string) (ks : list string) :
  In k ks -> existsb (String.eqb k) ks = true.
Proof.
  intros H. apply existsb_exists. exists k. split; [exact H | apply String.eqb_refl].
Qed.

Lemma map_get_snoc {V : Type} (k : string) (v : V) (m : JsMap V) :
  ~ In k (map_keys m) -> map_get k (m ++ [(k, v)]) = Some v.
Proof.
  induction m as [|[k' v'] m IH]; simpl; intros H.
  - now rewrite String.eqb_refl.
  - destruct (String.eqb_spec k' k) as [->|Hne]; [tauto|]. apply IH. tauto.
Qed.

Lemma keys_filter_incl {V : Type} (f : string * V -> bool) (m : JsMap V) (k : string) :
  In k (map_keys (filter f m)) -> In k (map_keys m).
Proof.
  unfold map_keys. intros H. apply in_map_iff in H as [kv [E Hin]].
  apply filter_In in Hin as [Hin _]. subst. now apply in_map.
Qed.

(** A fresh entry stamped [created], no older than the rest of the cache
    and not expired at [now], survives the [cleanup] of its own [store]. *)
Lemma cleanup_keeps_new (now : Z) (c : JsMap CachedResponse) (k : string)
  (e : CachedResponse) :
  fresh k c ->
  Forall (fun kv => timestamp (snd kv) <= timestamp e) c ->
  expired now e = false ->
  exists kept,
    cleanup now (c ++ [(k, e)]) = (kept ++ [(k, e)])%list
    /\ (forall kv, In kv kept -> In kv c).
Proof.
  intros Hfresh Hold Hlive. unfold cleanup.
  set (g := fun kv : string * CachedResponse =>
              negb (existsb (String.eqb (fst kv)) (expiredKeys now (c ++ [(k, e)])))).
  assert (Hpurge : purgeExpired now (c ++ [(k, e)]) = (filter g c ++ [(k, e)])%list).
  { rewrite purgeExpired_by_key. fold g. rewrite filter_app. f_equal.
    simpl. replace (g (k, e)) with true; [reflexivity|].
    unfold g. simpl fst. rewrite existsb_eqb_false; [reflexivity|].
    unfold expiredKeys. rewrite filter_app. simpl. rewrite Hlive.
    rewrite app_nil_r. intros Hin. apply keys_filter_incl in Hin. contradiction. }
  rewrite Hpurge. set (p0 := filter g c).
  assert (Hp0 : forall kv, In kv p0 -> In kv c).
  { intros kv Hin. apply filter_In in Hin. tauto. }
  rewrite evictOldest_by_key.
  destruct (map_size (p0 ++ [(k, e)]) >? maxEntries) eqn:Esz.
  - apply Z.gtb_lt in Esz. unfold map_size in *.
    rewrite length_app in *. simpl List.length in *.
    rewrite sort_by_snoc.
    2:{ intros y Hy. apply byAgeAsc_key. simpl.
        rewrite Forall_forall in Hold. apply Hold. now apply Hp0. }
    rewrite firstn_app.
    replace (Z.to_nat _ - List.length (sort_by byAgeAsc p0))%nat with 0%nat.
    2:{ rewrite sort_by_length. pose proof maxEntries_pos. lia. }
    simpl firstn. rewrite app_nil_r.
    set (rm := map_keys (firstn _ (sort_by byAgeAsc p0))).
    rewrite filter_app. simpl.
    assert (Hk : ~ In k rm).
    { unfold rm, map_keys. intros Hin. apply in_map_iff in Hin as [kv [E Hin]].
      apply in_firstn_in in Hin.
      apply (Permutation_in _ (sort_by_perm byAgeAsc p0)) in Hin.
      apply Hfresh. unfold map_keys. rewrite <- E. apply in_map. now apply Hp0. }
    rewrite (existsb_eqb_false _ _ Hk). simpl.
    eexists. split; [reflexivity|].
    intros kv Hin. apply filter_In in Hin as [Hin _]. now apply Hp0.
  - exists p0. split; [reflexivity | exact Hp0].
Qed.

(** ** Claim C1 *)

(** C1. For every payload: [get] with the handle [store] returned, called
    with no time elapsed since the [store] and nothing in between, returns
    an entry whose payload fields equal the stored payload, with the fresh
    handle as its [id] and the time of the [store] as its [timestamp]; the
    lookup leaves the cache as it is.  The handle is fresh and no entry of
    the cache is stamped later than the current time. *)
Theorem store_then_get (data : ResponseData) (uuid : string) (now : Z)
  (c : JsMap CachedResponse) :
  fresh uuid c ->
  noneFromFuture now c ->
  let handle := fst (store data uuid now now c) in
  let c' := snd (store data uuid now now c) in
  exists cached,
    get handle now c' = (Some cached, c')
    /\ payloadOf cached = data
    /\ tool cached = d_tool data
    /\ fullOutput cached = d_fullOutput data
    /\ stderr cached = d_stderr data
    /\ exitCode cached = d_exitCode data
    /\ command cached = d_command data
    /\ metadata cached = d_metadata data
    /\ id cached = handle
    /\ handle = uuid
    /\ timestamp cached = now.
Proof.
  intros Hfresh Hpast. simpl.
  set (e := mkCached data uuid now).
  assert (Hlive : expired now e = false).
  { unfold expired. simpl. rewrite Z.gtb_ltb. apply Z.ltb_ge.
    pose proof maxAge_nonneg. lia. }
  rewrite map_set_fresh by exact Hfresh.
  destruct (cleanup_keeps_new now c uuid e Hfresh Hpast Hlive) as [kept [Hc Hkept]].
  exists e. rewrite Hc. unfold get.
  rewrite map_get_snoc.
  2:{ intros Hin. apply Hfresh. unfold map_keys in *.
      apply in_map_iff in Hin as [kv [E Hin]]. rewrite <- E.
      apply in_map. now apply Hkept. }
  rewrite Hlive. destruct data. repeat split; reflexivity.
Qed.

(** C1 at a concrete cache: two earlier entries, a third one stored and
    read back at time 5000. *)
Lemma store_then_get_witness :
  fresh "h3" sampleCache
  /\ noneFromFuture 5000 sampleCache
  /\ exists cached,
       get "h3" 5000 (snd (store sampleData "h3" 5000 5000 sampleCache))
       = (Some cached, snd (store sampleData "h3" 5000 5000 sampleCache))
       /\ payloadOf cached = sampleData.
Proof.
  assert (Hf : fresh "h3" sampleCache).
  { unfold fresh. simpl. intros [H|[H|[]]]; discriminate H. }
  assert (Hp : noneFromFuture 5000 sampleCache).
  { unfold noneFromFuture. repeat constructor; simpl; lia. }
  split; [exact Hf|]. split; [exact Hp|].
  destruct (store_then_get sampleData "h3" 5000 sampleCache Hf Hp)
    as [cached [Hget [Hpay _]]].
  exists cached. split; [exact Hget | exact Hpay].
Defined.

(** ** Claim C2 *)

(** C2. When the entry cached under a handle is older than [maxAge]
    (30 minutes), [get] returns "not found" and the cache it leaves no
    longer holds the handle, every other handle being as before; and
    whatever [get] returns is not older than [maxAge]. *)
Theorem get_expired_removed (k : string) (now : Z) (c : JsMap CachedResponse) :
  (forall cached,
      map_get k c = Some cached ->
      maxAge < now - timestamp cached ->
      fst (get k now c) = None
      /\ snd (get k now c) = map_delete k c
      /\ map_get k (snd (get k now c)) = None
      /\ map_has k (snd (get k now c)) = false
      /\ (forall k', k' <> k -> map_get k' (snd (get k now c)) = map_get k' c))
  /\ (forall r,
         fst (get k now c) = Some r ->
         map_get k c = Some r /\ now - timestamp r <= maxAge).
Proof.
  split.
  - intros cached Hget Hold. unfold get. rewrite Hget.
    assert (E : expired now cached = true).
    { unfold expired. apply Z.gtb_lt. lia. }
    rewrite E. simpl. repeat split.
    + apply map_get_delete_eq.
    + apply map_has_delete.
    + intros k' Hne. now apply map_get_delete_ne.
  - intros r. unfold get. destruct (map_get k c) as [cached|] eqn:Hget.
    + destruct (expired now cached) eqn:E; simpl; [discriminate|].
      intros [= ->]. split; [reflexivity|].
      unfold expired in E. rewrite Z.gtb_ltb in E. apply Z.ltb_ge in E. lia.
    + simpl. discriminate.
Qed.

(** C2 at a concrete cache: "h1" was stored at 1000 and is looked up 31
    minutes later; "h2" is looked up at once. *)
Lemma get_expired_removed_witness :
  map_get "h1" sampleCache = Some (mkCachedResponse "h1" "build" 1000 "a" "" 0 "c1" [])
  /\ maxAge < (1000 + 31 * 60 * 1000) - 1000
  /\ fst (get "h1" (1000 + 31 * 60 * 1000) sampleCache) = None
  /\ map_has "h1" (snd (get "h1" (1000 + 31 * 60 * 1000) sampleCache)) = false
  /\ 2000 - timestamp (mkCachedResponse "h2" "list" 2000 "b" "" 0 "c2" []) <= maxAge.
Proof.
  assert (H1 : map_get "h1" sampleCache
               = Some (mkCachedResponse "h1" "build" 1000 "a" "" 0 "c1" []))
    by reflexivity.
  assert (H2 : maxAge < (1000 + 31 * 60 * 1000) - 1000)
    by (unfold maxAge; lia).
  split; [exact H1|]. split; [exact H2|].
  destruct (get_expired_removed "h1" (1000 + 31 * 60 * 1000) sampleCache) as [Hexp _].
  destruct (Hexp _ H1 H2) as [Hnone [_ [_ [Hhas _]]]].
  split; [exact Hnone|]. split; [exact Hhas|].
  destruct (get_expired_removed "h2" 2000 sampleCache) as [_ Hlive].
  apply (Hlive (mkCachedResponse "h2" "list" 2000 "b" "" 0 "c2" [])).
  reflexivity.
Defined.

(** ** The cleanup policy *)

Lemma NoDup_app_disjoint {A : Type} (l1 l2 : list A) (a : A) :
  NoDup (l1 ++ l2) -> In a l1 -> ~ In a l2.
Proof.
  induction l1 as [|x l1 IH]; simpl; intros Hnd Hin; [contradiction|].
  inversion Hnd as [|? ? Hx Hnd']; subst.
  destruct Hin as [->|Hin].
  - intros H2. apply Hx. apply in_or_app. now right.
  - now apply IH.
Qed.

Lemma uniqueKeys_perm {V : Type} (m m' : JsMap V) :
  Permutation m m' -> uniqueKeys m -> uniqueKeys m'.
Proof.
  unfold uniqueKeys, map_keys. intros Hp.
  apply Permutation_NoDup. now apply Permutation_map.
Qed.

Lemma uniqueKeys_NoDup {V : Type} (m : JsMap V) : uniqueKeys m -> NoDup m.
Proof. apply NoDup_map_inv. Qed.

(** Deleting the keys of the first [n] entries of a [Map] leaves the
    others. *)
Lemma filter_drop_prefix_keys {V : Type} (n : nat) (m : JsMap V) :
  uniqueKeys m ->
  filter (fun kv => negb (existsb (String.eqb (fst kv)) (map_keys (firstn n m)))) m
  = skipn n m.
Proof.
  intros Hu.
  set (f := fun kv : string * V =>
              negb (existsb (String.eqb (fst kv)) (map_keys (firstn n m)))).
  rewrite <- (firstn_skipn n m) at 1. rewrite filter_app.
  rewrite filter_none, filter_all; [reflexivity| |].
  - intros kv Hin. unfold f.
    rewrite existsb_eqb_false; [reflexivity|].
    unfold map_keys. intros Hk. apply in_map_iff in Hk as [kv' [Ek Hin']].
    assert (kv' = kv).
    { apply (uniqueKeys_inj m); [exact Hu | | | exact Ek].
      - eapply in_firstn_in; exact Hin'.
      - eapply in_skipn_in; exact Hin. }
    subst kv'.
    apply uniqueKeys_NoDup in Hu. rewrite <- (firstn_skipn n m) in Hu.
    exact (NoDup_app_disjoint _ _ _ Hu Hin' Hin).
  - intros kv Hin. unfold f.
    rewrite existsb_eqb_true; [reflexivity|].
    unfold map_keys. now apply in_map.
Qed.

(** Over the limit, what [evictOldest] keeps is what follows the first
    [size - maxEntries] entries in order of age. *)
Lemma evictOldest_perm (c : JsMap CachedResponse) :
  uniqueKeys c ->
  maxEntries < map_size c ->
  Permutation (evictOldest c)
    (skipn (Z.to_nat (map_size c - maxEntries)) (sort_by byAgeAsc c)).
Proof.
  intros Hu Hsz. rewrite evictOldest_by_key.
  assert (E : (map_size c >? maxEntries) = true) by (apply Z.gtb_lt; lia).
  rewrite E. set (n := Z.to_nat (map_size c - maxEntries)).
  assert (HpS : Permutation c (sort_by byAgeAsc c))
    by (apply Permutation_sym, sort_by_perm).
  eapply perm_trans; [apply Permutation_filter, HpS|].
  rewrite filter_drop_prefix_keys; [apply Permutation_refl|].
  eapply uniqueKeys_perm; eassumption.
Qed.

Lemma evictOldest_within (c : JsMap CachedResponse) :
  map_size c <= maxEntries -> evictOldest c = c.
Proof.
  intros H. unfold evictOldest.
  destruct (map_size c >? maxEntries) eqn:E; [|reflexivity].
  apply Z.gtb_lt in E. lia.
Qed.

Lemma evictOldest_incl (c : JsMap CachedResponse) (kv : string * CachedResponse) :
  In kv (evictOldest c) -> In kv c.
Proof.
  rewrite evictOldest_by_key. destruct (_ >? _); [|tauto].
  intros H. apply filter_In in H. tauto.
Qed.

Lemma evictOldest_size (c : JsMap CachedResponse) :
  uniqueKeys c -> map_size (evictOldest c) = Z.min (map_size c) maxEntries.
Proof.
  intros Hu. destruct (Z.le_gt_cases (map_size c) maxEntries) as [H|H].
  - rewrite evictOldest_within by exact H. lia.
  - unfold map_size at 1.
    rewrite (Permutation_length (evictOldest_perm c Hu H)).
    rewrite length_skipn, sort_by_length. unfold map_size in *.
    pose proof maxEntries_pos. lia.
Qed.

(** Eviction is oldest first: no evicted entry is younger than a kept
    one. *)
Lemma evictOldest_oldest_first (c : JsMap CachedResponse)
  (evicted kept : string * CachedResponse) :
  uniqueKeys c ->
  In evicted c -> ~ In evicted (evictOldest c) -> In kept (evictOldest c) ->
  timestamp (snd evicted) <= timestamp (snd kept).
Proof.
  intros Hu Hin Hout Hkept.
  destruct (Z.le_gt_cases (map_size c) maxEntries) as [H|H].
  - rewrite evictOldest_within in Hout by exact H. contradiction.
  - pose proof (evictOldest_perm c Hu H) as Hp.
    set (n := Z.to_nat (map_size c - maxEntries)) in *.
    apply (Permutation_in _ Hp) in Hkept.
    assert (Hfirst : In evicted (firstn n (sort_by byAgeAsc c))).
    { apply (Permutation_in _ (Permutation_sym (sort_by_perm byAgeAsc c))) in Hin.
      rewrite <- (firstn_skipn n) in Hin. apply in_app_or in Hin as [Hf|Hs].
      - exact Hf.
      - exfalso. apply Hout. eapply Permutation_in; [apply Permutation_sym, Hp|exact Hs]. }
    exact (sorted_firstn_skipn (fun kv => timestamp (snd kv)) n _
             (sort_by_sorted byAgeAsc _ byAgeAsc_key c) _ _ Hfirst Hkept).
Qed.

(** The whole of [cleanup] on a [Map]. *)
Lemma cleanup_policy (now : Z) (c : JsMap CachedResponse) :
  uniqueKeys c ->
  let live := filter (fun kv => negb (expired now (snd kv))) c in
  purgeExpired now c = live
  /\ cleanup now c = evictOldest live
  /\ map_size (cleanup now c) = Z.min (map_size live) maxEntries
  /\ (forall kv, In kv (cleanup now c) -> In kv c /\ expired now (snd kv) = false)
  /\ (forall evicted kept,
         In evicted live -> ~ In evicted (cleanup now c) -> In kept (cleanup now c) ->
         timestamp (snd evicted) <= timestamp (snd kept)).
Proof.
  intros Hu live.
  assert (Hp : purgeExpired now c = live) by now apply purgeExpired_filter.
  assert (Hul : uniqueKeys live) by now apply uniqueKeys_filter.
  unfold cleanup. rewrite Hp. repeat split.
  - now apply evictOldest_size.
  - apply evictOldest_incl in H. apply filter_In in H. tauto.
  - apply evictOldest_incl in H. apply filter_In in H as [_ H].
    now apply negb_true_iff in H.
  - intros evicted kept. now apply evictOldest_oldest_first.
Qed.

(** ** What every operation preserves *)

Lemma purgeExpired_incl (now : Z) (c : JsMap CachedResponse) (kv : string * CachedResponse) :
  In kv (purgeExpired now c) -> In kv c.
Proof.
  rewrite purgeExpired_by_key. intros H. apply filter_In in H. tauto.
Qed.

Lemma cleanup_incl (now : Z) (c : JsMap CachedResponse) (kv : string * CachedResponse) :
  In kv (cleanup now c) -> In kv c.
Proof.
  unfold cleanup. intros H. apply evictOldest_incl in H.
  now apply purgeExpired_incl in H.
Qed.

Lemma uniqueKeys_cleanup (now : Z) (c : JsMap CachedResponse) :
  uniqueKeys c -> uniqueKeys (cleanup now c).
Proof.
  intros Hu. unfold cleanup. rewrite evictOldest_by_key, purgeExpired_by_key.
  destruct (_ >? _); repeat apply uniqueKeys_filter; exact Hu.
Qed.

Lemma noneFromFuture_later (t t' : Z) (c : JsMap CachedResponse) :
  t <= t' -> noneFromFuture t c -> noneFromFuture t' c.
Proof.
  intros Hle. unfold noneFromFuture. apply Forall_impl. intros kv. lia.
Qed.

Lemma noneFromFuture_incl (t : Z) (c c' : JsMap CachedResponse) :
  (forall kv, In kv c' -> In kv c) -> noneFromFuture t c -> noneFromFuture t c'.
Proof.
  unfold noneFromFuture. rewrite !Forall_forall. auto.
Qed.

Lemma map_set_In {V : Type} (k : string) (v : V) (m : JsMap V) (kv : string * V) :
  In kv (map_set k v m) -> kv = (k, v) \/ In kv m.
Proof.
  induction m as [|[k' v'] m IH]; simpl.
  - intros [H|[]]. now left.
  - destruct (String.eqb k' k); simpl; intros [H|H]; auto.
    destruct (IH H); auto.
Qed.

(** A [store] with a clock that has not run backwards leaves a [Map] with
    unique keys, no entry from the future, and within its limit. *)
Lemma store_preserves (data : ResponseData) (uuid : string) (created now : Z)
  (c : JsMap CachedResponse) :
  uniqueKeys c -> noneFromFuture created c -> created <= now ->
  uniqueKeys (snd (store data uuid created now c))
  /\ noneFromFuture now (snd (store data uuid created now c))
  /\ map_size (snd (store data uuid created now c)) <= maxEntries.
Proof.
  intros Hu Hpast Hle. unfold store. simpl snd.
  assert (Hi : uniqueKeys (map_set uuid (mkCached data uuid created) c))
    by now apply uniqueKeys_set.
  split; [now apply uniqueKeys_cleanup|]. split.
  - apply (noneFromFuture_incl now (map_set uuid (mkCached data uuid created) c));
      [apply cleanup_incl|].
    unfold noneFromFuture. apply Forall_forall. intros kv Hin.
    apply map_set_In in Hin as [->|Hin]; [simpl; lia|].
    unfold noneFromFuture in Hpast. rewrite Forall_forall in Hpast.
    specialize (Hpast kv Hin). lia.
  - destruct (cleanup_policy now _ Hi) as [_ [_ [Hsize _]]]. lia.
Qed.

Lemma get_preserves (k : string) (t now : Z) (c : JsMap CachedResponse) :
  uniqueKeys c -> noneFromFuture t c -> t <= now ->
  uniqueKeys (snd (get k now c))
  /\ noneFromFuture now (snd (get k now c))
  /\ map_size (snd (get k now c)) <= map_size c.
Proof.
  intros Hu Hpast Hle. apply (noneFromFuture_later t now) in Hpast; [|exact Hle].
  unfold get. destruct (map_get k c) as [cached|]; [|simpl; repeat split; auto; lia].
  destruct (expired now cached); simpl; [|repeat split; auto; lia].
  split; [now apply uniqueKeys_delete|]. split.
  - apply (noneFromFuture_incl now c); [|exact Hpast].
    intros kv H. apply filter_In in H. tauto.
  - unfold map_size, map_delete. pose proof (filter_length_le
      (fun kv : string * CachedResponse => negb (String.eqb (fst kv) k)) c). lia.
Qed.

Lemma delete_preserves (k : string) (t : Z) (c : JsMap CachedResponse) :
  uniqueKeys c -> noneFromFuture t c ->
  uniqueKeys (snd (delete k c)) /\ noneFromFuture t (snd (delete k c)).
Proof.
  intros Hu Hpast. simpl. split; [now apply uniqueKeys_delete|].
  apply (noneFromFuture_incl t c); [|exact Hpast].
  intros kv H. apply filter_In in H. tauto.
Qed.

(** ** Runs of [store] *)

Lemma distinctb_NoDup (ks : list string) : distinctb ks = true -> NoDup ks.
Proof.
  induction ks as [|k ks IH]; simpl; intros H; [constructor|].
  apply andb_true_iff in H as [Hk Hks]. constructor; [|now apply IH].
  intros Hin. apply existsb_eqb_true in Hin. rewrite Hin in Hk. discriminate.
Qed.

Lemma ascendingb_sorted (ts : list Z) : ascendingb ts = true -> StronglySorted Z.le ts.
Proof.
  intros H. apply Sorted_StronglySorted; [intros x y z; apply Z.le_trans|].
  induction ts as [|a ts IH]; [constructor|].
  destruct ts as [|b ts]; [repeat constructor|].
  simpl in H. apply andb_true_iff in H as [Hab Hrest].
  constructor; [now apply IH|]. constructor. now apply Z.leb_le.
Qed.

Lemma StronglySorted_app_inv {A : Type} (R : A -> A -> Prop) (l1 l2 : list A) :
  StronglySorted R (l1 ++ l2) ->
  StronglySorted R l1 /\ StronglySorted R l2
  /\ (forall a b, In a l1 -> In b l2 -> R a b).
Proof.
  induction l1 as [|x l1 IH]; simpl; intros H.
  - repeat split; [constructor | exact H | contradiction].
  - apply StronglySorted_inv in H as [Hs Hx].
    destruct (IH Hs) as [H1 [H2 H12]].
    apply Forall_app in Hx as [Hx1 Hx2]. repeat split.
    + now constructor.
    + exact H2.
    + intros a b [<-|Ha] Hb.
      * rewrite Forall_forall in Hx2. now apply Hx2.
      * now apply H12.
Qed.

Lemma StronglySorted_snoc {A : Type} (R : A -> A -> Prop) (l : list A) (x : A) :
  StronglySorted R l -> Forall (fun a => R a x) l -> StronglySorted R (l ++ [x]).
Proof.
  induction 1 as [|a l Hs IH Ha]; simpl; intros Hx.
  - repeat constructor.
  - inversion Hx; subst. constructor; [now apply IH|].
    apply Forall_app. split; [exact Ha | now repeat constructor].
Qed.

Lemma StronglySorted_skipn {A : Type} (R : A -> A -> Prop) (n : nat) (l : list A) :
  StronglySorted R l -> StronglySorted R (skipn n l).
Proof.
  intros H. rewrite <- (firstn_skipn n l) in H.
  now apply StronglySorted_app_inv in H.
Qed.

Lemma StronglySorted_map_inv {A B : Type} (f : A -> B) (R : B -> B -> Prop) (l : list A) :
  StronglySorted R (map f l) -> StronglySorted (fun a b => R (f a) (f b)) l.
Proof.
  induction l as [|a l IH]; simpl; intros H; [constructor|].
  apply StronglySorted_inv in H as [Hs Ha]. constructor; [now apply IH|].
  rewrite Forall_map in Ha. exact Ha.
Qed.

Lemma lastN_all {A : Type} (n : nat) (l : list A) :
  (List.length l <= n)%nat -> lastN n l = l.
Proof.
  intros H. unfold lastN. replace (List.length l - n)%nat with 0%nat by lia.
  reflexivity.
Qed.

Lemma lastN_length {A : Type} (n : nat) (l : list A) :
  List.length (lastN n l) = Nat.min n (List.length l).
Proof. unfold lastN. rewrite length_skipn. lia. Qed.

Lemma lastN_snoc {A : Type} (n : nat) (l : list A) (x : A) :
  lastN n (lastN n l ++ [x]) = lastN n (l ++ [x]).
Proof.
  unfold lastN. rewrite !length_app, length_skipn. simpl List.length.
  destruct (Nat.le_gt_cases (List.length l) n) as [H|H].
  - replace (List.length l - n)%nat with 0%nat by lia. simpl skipn.
    f_equal. lia.
  - rewrite !skipn_app, skipn_skipn, !length_skipn.
    f_equal; f_equal; lia.
Qed.

Lemma lastN_map {A B : Type} (f : A -> B) (n : nat) (l : list A) :
  lastN n (map f l) = map f (lastN n l).
Proof. unfold lastN. now rewrite length_map, skipn_map. Qed.

(** On a [Map] whose entries are in order of age and none of which is
    expired, [cleanup] keeps the last [maxEntries] entries. *)
Lemma cleanup_in_order (now : Z) (c : JsMap CachedResponse) :
  uniqueKeys c ->
  StronglySorted (fun a b => timestamp (snd a) <= timestamp (snd b)) c ->
  (forall kv, In kv c -> expired now (snd kv) = false) ->
  cleanup now c = lastN (Z.to_nat maxEntries) c.
Proof.
  intros Hu Hs Hlive. unfold cleanup.
  rewrite purgeExpired_filter by exact Hu.
  rewrite filter_all by (intros kv Hin; rewrite (Hlive kv Hin); reflexivity).
  rewrite evictOldest_by_key.
  destruct (map_size c >? maxEntries) eqn:E.
  - apply Z.gtb_lt in E.
    rewrite (sort_by_of_sorted byAgeAsc (fun kv => timestamp (snd kv)) byAgeAsc_key)
      by exact Hs.
    rewrite filter_drop_prefix_keys by exact Hu.
    unfold lastN, map_size in *. f_equal. pose proof maxEntries_pos. lia.
  - rewrite lastN_all; [reflexivity|].
    unfold map_size in E. rewrite Z.gtb_ltb in E. apply Z.ltb_ge in E. lia.
Qed.

Lemma storeAll_snoc (calls : list StoreCall) (r : StoreCall) (c : JsMap CachedResponse) :
  storeAll (calls ++ [r]) c = storeCall (storeAll calls c) r.
Proof. unfold storeAll. now rewrite fold_left_app. Qed.

Lemma clockReadings_snoc (calls : list StoreCall) (r : StoreCall) :
  clockReadings (calls ++ [r])
  = (clockReadings calls ++ [call_created r; call_now r])%list.
Proof. unfold clockReadings. rewrite flat_map_app. reflexivity. Qed.

Lemma orderlyRun_Orderly (c0 : JsMap CachedResponse) (calls : list StoreCall) :
  orderlyRun c0 calls = true -> Orderly c0 calls.
Proof.
  unfold orderlyRun, Orderly. intros H.
  apply andb_true_iff in H as [H H4]. apply andb_true_iff in H as [H H3].
  apply andb_true_iff in H as [H1 H2]. repeat split.
  - now apply distinctb_NoDup.
  - now apply ascendingb_sorted.
  - intros t t' Ht Ht'. rewrite forallb_forall in H3.
    specialize (H3 t Ht). rewrite forallb_forall in H3.
    now apply Z.leb_le, H3.
  - now apply Z.leb_le.
Qed.

Lemma timeline_snoc (c0 : JsMap CachedResponse) (calls : list StoreCall) (r : StoreCall) :
  timeline c0 (calls ++ [r])
  = (timeline c0 calls ++ [call_created r; call_now r])%list.
Proof. unfold timeline. now rewrite clockReadings_snoc, app_assoc. Qed.

Lemma Orderly_prefix (c0 : JsMap CachedResponse) (calls : list StoreCall) (r : StoreCall) :
  Orderly c0 (calls ++ [r]) -> Orderly c0 calls.
Proof.
  unfold Orderly. rewrite timeline_snoc, map_app, app_assoc.
  intros [H1 [H2 [H3 H4]]]. repeat split.
  - now apply NoDup_app_remove_r in H1.
  - now apply StronglySorted_app_inv in H2.
  - intros t t' Ht Ht'. apply H3; apply in_or_app; now left.
  - exact H4.
Qed.

(** The creation time of every entry of the cache and of every call is on
    the time line. *)
Lemma entry_on_timeline (c0 : JsMap CachedResponse) (calls : list StoreCall)
  (kv : string * CachedResponse) :
  In kv (c0 ++ map entryOf calls) -> In (timestamp (snd kv)) (timeline c0 calls).
Proof.
  intros Hin. unfold timeline. apply in_or_app.
  apply in_app_or in Hin as [Hin|Hin].
  - left. now apply (in_map (fun kv => timestamp (snd kv))).
  - right. apply in_map_iff in Hin as [r [<- Hr]].
    unfold clockReadings. apply in_flat_map. exists r. split; [exact Hr|].
    simpl. now left.
Qed.

Lemma keys_entries (c0 : JsMap CachedResponse) (calls : list StoreCall) :
  map_keys (c0 ++ map entryOf calls) = (map_keys c0 ++ map call_uuid calls)%list.
Proof.
  unfold map_keys. rewrite map_app, map_map. reflexivity.
Qed.

(** An orderly run leaves the last [maxEntries] of the entries the cache
    held and the calls stored, in the order they were stored. *)
Lemma storeAll_in_order (c0 : JsMap CachedResponse) (calls : list StoreCall) :
  Orderly c0 calls ->
  storeAll calls c0 = lastN (Z.to_nat maxEntries) (c0 ++ map entryOf calls)
  /\ StronglySorted (fun a b => timestamp (snd a) <= timestamp (snd b))
       (c0 ++ map entryOf calls).
Proof.
  induction calls as [|r calls IH] using rev_ind; intros Hord.
  - destruct Hord as [_ [H2 [_ H4]]]. simpl. rewrite app_nil_r. split.
    + rewrite lastN_all; [reflexivity|]. unfold map_size in H4. lia.
    + unfold timeline in H2. simpl in H2. rewrite app_nil_r in H2.
      now apply StronglySorted_map_inv in H2.
  - destruct (IH (Orderly_prefix _ _ _ Hord)) as [IHs IHo].
    destruct Hord as [H1 [H2 [H3 H4]]].
    set (E := (c0 ++ map entryOf calls)%list) in *.
    rewrite timeline_snoc in H2, H3.
    apply StronglySorted_app_inv in H2 as [_ [Hcn Hbefore]].
    assert (Hle : Forall (fun kv => timestamp (snd kv) <= call_created r) E).
    { apply Forall_forall. intros kv Hin. apply Hbefore.
      - now apply entry_on_timeline.
      - now left. }
    assert (Hso : StronglySorted (fun a b => timestamp (snd a) <= timestamp (snd b))
                    (E ++ [entryOf r])).
    { apply StronglySorted_snoc; [exact IHo | exact Hle]. }
    assert (HE : (c0 ++ map entryOf (calls ++ [r]))%list = (E ++ [entryOf r])%list).
    { unfold E. rewrite map_app, app_assoc. reflexivity. }
    rewrite HE. split; [|exact Hso].
    assert (Hnd : NoDup (map_keys E ++ [call_uuid r])).
    { unfold E. rewrite keys_entries. rewrite map_app, app_assoc in H1. exact H1. }
    rewrite storeAll_snoc, IHs. unfold storeCall, store. simpl snd.
    set (L := lastN (Z.to_nat maxEntries) E).
    assert (HL : forall kv, In kv L -> In kv E).
    { intros kv. unfold L, lastN. apply in_skipn_in. }
    assert (Hfresh : ~ In (call_uuid r) (map_keys L)).
    { intros Hin. apply (NoDup_app_disjoint _ _ (call_uuid r)) in Hnd.
      - apply Hnd. now left.
      - unfold map_keys in *. apply in_map_iff in Hin as [kv [Ek Hin]].
        rewrite <- Ek. apply in_map. now apply HL. }
    rewrite map_set_fresh by exact Hfresh.
    change (call_uuid r, mkCached (call_data r) (call_uuid r) (call_created r))
      with (entryOf r).
    rewrite cleanup_in_order.
    + unfold L. apply lastN_snoc.
    + unfold uniqueKeys, L, lastN, map_keys. rewrite map_app, <- skipn_map. simpl.
      unfold map_keys in Hnd.
      rewrite <- (firstn_skipn (List.length E - Z.to_nat maxEntries) (map fst E)) in Hnd.
      rewrite <- app_assoc in Hnd. now apply NoDup_app_remove_l in Hnd.
    + assert (Hsk : (L ++ [entryOf r])%list
                    = skipn (List.length E - Z.to_nat maxEntries) (E ++ [entryOf r])).
      { unfold L, lastN. rewrite skipn_app.
        replace (List.length E - Z.to_nat maxEntries - List.length E)%nat
          with 0%nat by lia. reflexivity. }
      rewrite Hsk. now apply StronglySorted_skipn.
    + intros kv Hin. unfold expired. rewrite Z.gtb_ltb. apply Z.ltb_ge.
      apply H3.
      * apply in_or_app. apply in_app_or in Hin as [Hin|[<-|[]]].
        -- left. apply entry_on_timeline. now apply HL.
        -- right. now left.
      * apply in_or_app. right. right. now left.
Qed.

Lemma lastN_app_long {A : Type} (n : nat) (l1 l2 : list A) :
  (n <= List.length l2)%nat -> lastN n (l1 ++ l2) = lastN n l2.
Proof.
  intros H. unfold lastN. rewrite skipn_app, length_app.
  rewrite skipn_all2 by lia. simpl. f_equal. lia.
Qed.

(** ** Claim C3 *)

(** C3. Every [store] runs [cleanup] on the cache it has inserted into.
    [cleanup] first drops every expired entry; if more than [maxEntries]
    (100) are left it then evicts down to exactly [maxEntries], and no
    evicted entry is younger than a kept one.  Hence a run of more than
    [maxEntries] stores within [maxAge], with new handles and a clock that
    does not go backwards, leaves exactly [maxEntries] entries: those of
    the last [maxEntries] calls, in the order they were stored. *)
Theorem store_cleanup_policy :
  (forall (data : ResponseData) (uuid : string) (created now : Z)
          (c : JsMap CachedResponse),
      uniqueKeys c ->
      let inserted := map_set uuid (mkCached data uuid created) c in
      let live := filter (fun kv => negb (expired now (snd kv))) inserted in
      let c' := snd (store data uuid created now c) in
      c' = cleanup now inserted
      /\ purgeExpired now inserted = live
      /\ c' = evictOldest live
      /\ map_size c' = Z.min (map_size live) maxEntries
      /\ (forall kv, In kv c' -> In kv inserted /\ expired now (snd kv) = false)
      /\ (forall evicted kept,
             In evicted live -> ~ In evicted c' -> In kept c' ->
             timestamp (snd evicted) <= timestamp (snd kept)))
  /\ (forall (c0 : JsMap CachedResponse) (calls : list StoreCall),
         orderlyRun c0 calls = true ->
         maxEntries < Z.of_nat (List.length calls) ->
         storeAll calls c0 = map entryOf (lastN (Z.to_nat maxEntries) calls)
         /\ map_size (storeAll calls c0) = maxEntries).
Proof.
  split.
  - intros data uuid created now c Hu inserted live c'.
    assert (Hi : uniqueKeys inserted) by now apply uniqueKeys_set.
    destruct (cleanup_policy now inserted Hi) as [H1 [H2 [H3 [H4 H5]]]].
    unfold c', store. simpl snd. fold inserted.
    repeat split; try assumption.
    + apply (H4 kv H).
    + apply (H4 kv H).
  - intros c0 calls Hrun Hmany.
    destruct (storeAll_in_order c0 calls (orderlyRun_Orderly _ _ Hrun)) as [Hs _].
    assert (E : storeAll calls c0 = map entryOf (lastN (Z.to_nat maxEntries) calls)).
    { rewrite Hs, lastN_app_long by (rewrite length_map; lia). apply lastN_map. }
    split; [exact E|].
    rewrite E. unfold map_size. rewrite length_map, lastN_length.
    pose proof maxEntries_pos. lia.
Qed.

(** C3 at concrete inputs: a [store] into the sample cache, and 101 stores
    into an empty cache. *)
Lemma store_cleanup_policy_witness :
  uniqueKeys sampleCache
  /\ map_size (snd (store sampleData "h3" 5000 5000 sampleCache)) = 3
  /\ orderlyRun [] sampleCalls = true
  /\ maxEntries < Z.of_nat (List.length sampleCalls)
  /\ storeAll sampleCalls [] = map entryOf (lastN (Z.to_nat maxEntries) sampleCalls)
  /\ map_size (storeAll sampleCalls []) = maxEntries.
Proof.
  assert (Hu : uniqueKeys sampleCache).
  { apply distinctb_NoDup. reflexivity. }
  assert (Hrun : orderlyRun [] sampleCalls = true) by (vm_compute; reflexivity).
  assert (Hmany : maxEntries < Z.of_nat (List.length sampleCalls))
    by (vm_compute; reflexivity).
  destruct store_cleanup_policy as [Hstore Hruns].
  destruct (Hstore sampleData "h3" 5000 5000 sampleCache Hu) as [_ [_ [_ [Hsize _]]]].
  destruct (Hruns [] sampleCalls Hrun Hmany) as [Hkept Hfull].
  split; [exact Hu|]. split; [rewrite Hsize; reflexivity|].
  split; [exact Hrun|]. split; [exact Hmany|].
  split; [exact Hkept | exact Hfull].
Defined.

(** ** Claim C8 *)

Lemma StronglySorted_weaken {A : Type} (R R' : A -> A -> Prop) (l : list A) :
  (forall a b, R a b -> R' a b) -> StronglySorted R l -> StronglySorted R' l.
Proof.
  intros HR. induction 1 as [|a l Hs IH Ha]; constructor; [exact IH|].
  eapply Forall_impl; [|exact Ha]. intros b. apply HR.
Qed.

Lemma StronglySorted_firstn {A : Type} (R : A -> A -> Prop) (n : nat) (l : list A) :
  StronglySorted R l -> StronglySorted R (firstn n l).
Proof.
  intros H. rewrite <- (firstn_skipn n l) in H.
  now apply StronglySorted_app_inv in H.
Qed.

(** C8 as stated fails in two ways.  [getRecentByTool] does not look at
    the clock: an entry stored 31 minutes ago and not yet purged is
    returned.  And entries stored within the same millisecond keep their
    insertion order under the sort: of three such stores the first two
    come back, oldest first, not the last two, newest first. *)
Lemma getRecentByTool_counterexample :
  (getRecentByTool "build" defaultLimit sampleCache
   = [mkCachedResponse "h1" "build" 1000 "a" "" 0 "c1" []]
   /\ expired (1000 + 31 * 60 * 1000) (mkCachedResponse "h1" "build" 1000 "a" "" 0 "c1" [])
      = true
   /\ liveFor (1000 + 31 * 60 * 1000) "build" sampleCache = [])
  /\ (map fullOutput (getRecentByTool "build" 2 (storeAll sameMsCalls []))
      = ["first"; "second"]
      /\ map fullOutput (getRecentByTool "build" 2 (storeAll sameMsCalls []))
         <> ["third"; "second"]).
Proof.
  split; [repeat split|split; [reflexivity|discriminate]].
Qed.

(** C8, amended.  When no cached entry is expired at the time of the call
    and [limit] is not negative, [getRecentByTool(tool, limit)] returns
    exactly the cached entries for the tool, sorted by creation time,
    latest first, entries of equal creation time in the order they were
    stored, cut to [limit].  After three stores for "build" at increasing
    times, [getRecentByTool("build", 2)] returns the last two, latest
    first. *)
Theorem getRecentByTool_recent :
  (forall (now : Z) (t : string) (limit : Z) (c : JsMap CachedResponse),
      0 <= limit ->
      (forall kv, In kv c -> expired now (snd kv) = false) ->
      let r := getRecentByTool t limit c in
      r = firstn (Z.to_nat limit) (sort_by byAgeDesc (liveFor now t c))
      /\ Permutation (sort_by byAgeDesc (liveFor now t c)) (liveFor now t c)
      /\ StronglySorted (fun a b => timestamp b <= timestamp a) r
      /\ (forall ts,
             filter (fun e => timestamp e =? ts) (sort_by byAgeDesc (liveFor now t c))
             = filter (fun e => timestamp e =? ts) (liveFor now t c))
      /\ Z.of_nat (List.length r) = Z.min limit (Z.of_nat (List.length (liveFor now t c))))
  /\ (forall r1 r2 r3 : StoreCall,
         d_tool (call_data r1) = "build" ->
         d_tool (call_data r2) = "build" ->
         d_tool (call_data r3) = "build" ->
         orderlyRun [] [r1; r2; r3] = true ->
         call_created r1 < call_created r2 ->
         call_created r2 < call_created r3 ->
         getRecentByTool "build" 2 (storeAll [r1; r2; r3] [])
         = [snd (entryOf r3); snd (entryOf r2)]).
Proof.
  split.
  - intros now t limit c Hlimit Hlive r.
    assert (Hf : filter (fun e => String.eqb (tool e) t) (map_values c) = liveFor now t c).
    { unfold liveFor. apply filter_ext_in. intros e Hin.
      unfold map_values in Hin. apply in_map_iff in Hin as [kv [<- Hin]].
      now rewrite (Hlive kv Hin). }
    assert (Hr : r = firstn (Z.to_nat limit) (sort_by byAgeDesc (liveFor now t c))).
    { unfold r, getRecentByTool. rewrite Hf. now apply slice_from_0. }
    split; [exact Hr|]. split; [apply sort_by_perm|]. split; [|split].
    + rewrite Hr. apply StronglySorted_firstn.
      eapply StronglySorted_weaken;
        [|apply (sort_by_sorted byAgeDesc (fun e => - timestamp e) byAgeDesc_key)].
      unfold key_le. intros a b. lia.
    + intros ts.
      assert (Hext : forall l : list CachedResponse,
                 filter (fun e => timestamp e =? ts) l
                 = filter (fun e => - timestamp e =? - ts) l).
      { intros l. apply filter_ext. intros e.
        destruct (Z.eqb_spec (timestamp e) ts), (Z.eqb_spec (- timestamp e) (- ts));
          try reflexivity; lia. }
      rewrite !Hext.
      apply (sort_by_stable byAgeDesc (fun e => - timestamp e) byAgeDesc_key).
    + rewrite Hr, length_firstn, sort_by_length. lia.
  - intros r1 r2 r3 T1 T2 T3 Hrun H12 H23.
    destruct (storeAll_in_order [] [r1; r2; r3] (orderlyRun_Orderly _ _ Hrun)) as [Hs _].
    rewrite Hs. rewrite lastN_all by (simpl; unfold maxEntries; lia).
    unfold getRecentByTool. simpl. rewrite T1, T2, T3. simpl.
    unfold byAgeDesc. simpl.
    assert (E23 : (call_created r3 - call_created r2 <=? 0) = false)
      by (apply Z.leb_gt; lia).
    assert (E13 : (call_created r3 - call_created r1 <=? 0) = false)
      by (apply Z.leb_gt; lia).
    assert (E12 : (call_created r2 - call_created r1 <=? 0) = false)
      by (apply Z.leb_gt; lia).
    rewrite E23. simpl. rewrite E13, E12. reflexivity.
Qed.

(** C8, amended, at concrete inputs: the sample cache read at once, and
    three stores one second apart. *)
Lemma getRecentByTool_recent_witness :
  0 <= defaultLimit
  /\ (forall kv, In kv sampleCache -> expired 2000 (snd kv) = false)
  /\ getRecentByTool "build" defaultLimit sampleCache
     = firstn (Z.to_nat defaultLimit) (sort_by byAgeDesc (liveFor 2000 "build" sampleCache))
  /\ orderlyRun [] spacedCalls = true
  /\ map fullOutput (getRecentByTool "build" 2 (storeAll spacedCalls []))
     = ["third"; "second"].
Proof.
  assert (H0 : 0 <= defaultLimit) by (unfold defaultLimit; lia).
  assert (Hlive : forall kv, In kv sampleCache -> expired 2000 (snd kv) = false).
  { intros kv [<-|[<-|[]]]; reflexivity. }
  assert (Hrun : orderlyRun [] spacedCalls = true) by reflexivity.
  destruct getRecentByTool_recent as [Hgen Hthree].
  destruct (Hgen 2000 "build" defaultLimit sampleCache H0 Hlive) as [Hr _].
  split; [exact H0|]. split; [exact Hlive|]. split; [exact Hr|].
  split; [exact Hrun|].
  pose proof (Hthree (mkStoreCall (buildData "first") "u1" 5000 5000)
                (mkStoreCall (buildData "second") "u2" 6000 6000)
                (mkStoreCall (buildData "third") "u3" 7000 7000)
                eq_refl eq_refl eq_refl Hrun) as H3.
  unfold spacedCalls. rewrite H3; [reflexivity | simpl; lia | simpl; lia].
Defined.

(* ================================================================= *)
(** ** Strings: [includes] and [split] *)

Lemma split_nonempty (sep : ascii) (s : string) : split sep s <> [].
Proof.
  destruct s as [|c s]; simpl; [discriminate|].
  destruct (Ascii.eqb c sep); [discriminate|].
  destruct (split sep s); discriminate.
Qed.

Lemma split_cons (c : ascii) (s : string) :
  Ascii.eqb c newline = false ->
  split newline (String c s)
  = String c (hd EmptyString (split newline s)) :: tl (split newline s).
Proof.
  intros H. simpl. rewrite H.
  destruct (split newline s) eqn:E; [|reflexivity].
  now apply split_nonempty in E.
Qed.

(** A text without line feed starts [s] exactly when it starts the first
    line of [s]. *)
Lemma startsWith_first_line (p s : string) :
  noNewline p = true ->
  startsWith p s = startsWith p (hd EmptyString (split newline s)).
Proof.
  revert s. induction p as [|a p IH]; intros s Hp; [reflexivity|].
  simpl in Hp. apply andb_true_iff in Hp as [Ha Hp].
  apply negb_true_iff in Ha.
  destruct s as [|b s]; [reflexivity|].
  destruct (Ascii.eqb b newline) eqn:Eb.
  - simpl split. rewrite Eb. simpl.
    apply Ascii.eqb_eq in Eb. subst b. now rewrite Ha.
  - rewrite split_cons by exact Eb. simpl. now rewrite <- IH.
Qed.

(** A text without line feed occurs in [s] exactly when it occurs in one of
    the lines of [s]. *)
Lemma includes_split (p s : string) :
  noNewline p = true ->
  includes p s = existsb (includes p) (split newline s).
Proof.
  intros Hp. induction s as [|c s IH].
  - simpl. now rewrite !orb_false_r.
  - destruct (Ascii.eqb c newline) eqn:Ec.
    + simpl split. rewrite Ec. simpl existsb. rewrite <- IH.
      simpl includes at 1. f_equal.
      destruct p as [|a p]; [reflexivity|]. simpl.
      simpl in Hp. apply andb_true_iff in Hp as [Ha _].
      apply negb_true_iff in Ha. apply Ascii.eqb_eq in Ec. subst c.
      now rewrite Ha.
    + rewrite split_cons by exact Ec. simpl existsb.
      simpl includes at 1.
      rewrite (startsWith_first_line p (String c s) Hp).
      rewrite split_cons by exact Ec. simpl hd.
      simpl includes at 2. rewrite IH.
      destruct (split newline s) as [|l ls] eqn:E;
        [now apply split_nonempty in E|].
      simpl. now rewrite !orb_assoc.
Qed.

Lemma existsb_filter_length {A : Type} (f : A -> bool) (l : list A) :
  (Z.of_nat (List.length (filter f l)) >? 0) = existsb f l.
Proof.
  induction l as [|x l IH]; [reflexivity|]. simpl.
  destruct (f x); simpl; [|exact IH].
  apply Z.gtb_lt. lia.
Qed.

Lemma existsb_orb {A : Type} (f g : A -> bool) (l : list A) :
  existsb (fun x => f x || g x) l = existsb f l || existsb g l.
Proof.
  induction l as [|x l IH]; [reflexivity|]. simpl. rewrite IH.
  destruct (f x), (g x), (existsb f l); reflexivity.
Qed.

(* ================================================================= *)
(** ** [extractBuildSummary] *)

(** [success] is: exit code 0 and a success-marker line. *)
Lemma success_marker_line (output stderr_ : string) (code : Z) :
  success (extractBuildSummary output stderr_ code) = true
  <-> code = 0
      /\ exists line,
           In line (combinedLines output stderr_) /\ isSuccessLine line = true.
Proof.
  unfold extractBuildSummary. simpl.
  rewrite existsb_filter_length, andb_true_iff, Z.eqb_eq, existsb_exists.
  reflexivity.
Qed.

(** ** Claim C7 *)

(** C7. [extractBuildSummary] reports success exactly when the exit code is
    0 and some line of the combined stdout/stderr text holds a success
    marker, which is to say when the combined text holds one; with exit
    code 0, exactly one success-marker line and no error-marker line the
    summary has [success = true] and [errorCount = 0]; [errors] and
    [warnings] are the first 10 matching lines, trimmed, while [errorCount]
    and [warningCount] count all of them. *)
Theorem extractBuildSummary_spec (output stderr_ : string) (code : Z) :
  let s := extractBuildSummary output stderr_ code in
  let lines := combinedLines output stderr_ in
  (success s = true
   <-> code = 0 /\ exists line, In line lines /\ isSuccessLine line = true)
  /\ (success s = true
      <-> code = 0
          /\ (includes "** BUILD SUCCEEDED **" (combinedText output stderr_) = true
              \/ includes "Build completed" (combinedText output stderr_) = true))
  /\ (code = 0 ->
      List.length (filter isSuccessLine lines) = 1%nat ->
      filter isErrorLine lines = [] ->
      success s = true /\ errorCount s = 0)
  /\ errorCount s = Z.of_nat (List.length (filter isErrorLine lines))
  /\ warningCount s = Z.of_nat (List.length (filter isWarningLine lines))
  /\ errors s = map trim (firstn 10 (filter isErrorLine lines))
  /\ warnings s = map trim (firstn 10 (filter isWarningLine lines))
  /\ Z.of_nat (List.length (errors s)) = Z.min 10 (errorCount s)
  /\ Z.of_nat (List.length (warnings s)) = Z.min 10 (warningCount s).
Proof.
  intros s lines.
  assert (Hsucc : success s = (code =? 0) && existsb isSuccessLine lines).
  { unfold s, extractBuildSummary. simpl. fold lines.
    now rewrite existsb_filter_length. }
  assert (Hline : success s = true
                  <-> code = 0 /\ exists line, In line lines /\ isSuccessLine line = true).
  { apply success_marker_line. }
  split; [exact Hline|]. split.
  - rewrite Hsucc, andb_true_iff, Z.eqb_eq.
    unfold combinedText. rewrite !includes_split by reflexivity.
    fold (combinedLines output stderr_). fold lines.
    rewrite <- orb_true_iff.
    assert (E : existsb isSuccessLine lines
                = existsb (includes "** BUILD SUCCEEDED **") lines
                  || existsb (includes "Build completed") lines).
    { apply existsb_orb. }
    rewrite E. reflexivity.
  - split.
    + intros Hcode Hone Hnone. split.
      * apply Hline. split; [exact Hcode|].
        destruct (filter isSuccessLine lines) as [|l ls] eqn:E; [discriminate|].
        exists l. apply filter_In. rewrite E. now left.
      * unfold s, extractBuildSummary. simpl. fold lines. now rewrite Hnone.
    + unfold s, extractBuildSummary. simpl. fold lines.
      rewrite !slice_from_0 by lia.
      repeat split; rewrite length_map, length_firstn; lia.
Qed.

(** C7 on a successful build log on stdout, nothing on stderr and exit
    code 0. *)
Lemma extractBuildSummary_spec_witness :
  0 = 0
  /\ List.length (filter isSuccessLine (combinedLines sampleBuildLog "")) = 1%nat
  /\ filter isErrorLine (combinedLines sampleBuildLog "") = []
  /\ success (extractBuildSummary sampleBuildLog "" 0) = true
  /\ errorCount (extractBuildSummary sampleBuildLog "" 0) = 0.
Proof.
  assert (H1 : List.length (filter isSuccessLine (combinedLines sampleBuildLog "")) = 1%nat)
    by reflexivity.
  assert (H2 : filter isErrorLine (combinedLines sampleBuildLog "") = [])
    by reflexivity.
  destruct (extractBuildSummary_spec sampleBuildLog "" 0) as [_ [_ [H _]]].
  destruct (H eq_refl H1 H2) as [Hs He].
  repeat split; assumption.
Defined.

(* ================================================================= *)
(** ** [xcodebuildBuildTool] *)

(** ** Claim C9 *)

(** C9. The tool's [isError] flag is the negation of the extractor's
    [success], not of the [success] of the response body, which also
    requires that the run did not time out.  So when a run times out with
    exit code 0 and a success marker in its output, the response body says
    [success = false] and the tool result says [isError = false]. *)
Theorem isError_ignores_timeout (result : StreamingCommandResult) :
  let summary := extractBuildSummary (r_stdout result) (r_stderr result) (r_code result) in
  let out := buildToolResult result in
  isError out = negb (success summary)
  /\ response_success out = success summary && negb (timedOut result)
  /\ response_summary_success out = response_success out
  /\ o_success (recordedOutcome out) = response_success out
  /\ (timedOut result = true ->
      r_code result = 0 ->
      (exists line,
          In line (combinedLines (r_stdout result) (r_stderr result))
          /\ isSuccessLine line = true) ->
      response_success out = false /\ isError out = false).
Proof.
  intros summary out. unfold out, buildToolResult. simpl. fold summary.
  repeat split.
  - rewrite H. apply andb_false_r.
  - apply negb_false_iff.
    apply success_marker_line. split; assumption.
Qed.

(** C9 on the result the executor gives for a build that prints its
    success marker and is then cut off by the timer. *)
Lemma isError_ignores_timeout_witness :
  executeCommandStreaming buildOptions successThenTimeout
  = Resolved (mkStreamingResult "** BUILD SUCCEEDED **" "" 0 true None)
  /\ timedOut (mkStreamingResult "** BUILD SUCCEEDED **" "" 0 true None) = true
  /\ r_code (mkStreamingResult "** BUILD SUCCEEDED **" "" 0 true None) = 0
  /\ response_success
       (buildToolResult (mkStreamingResult "** BUILD SUCCEEDED **" "" 0 true None)) = false
  /\ isError
       (buildToolResult (mkStreamingResult "** BUILD SUCCEEDED **" "" 0 true None)) = false.
Proof.
  split; [reflexivity|]. split; [reflexivity|]. split; [reflexivity|].
  destruct (isError_ignores_timeout
              (mkStreamingResult "** BUILD SUCCEEDED **" "" 0 true None))
    as [_ [_ [_ [_ H]]]].
  apply H; [reflexivity | reflexivity |].
  exists "** BUILD SUCCEEDED **". split; [now left | reflexivity].
Defined.

(* ================================================================= *)
(** ** [executeCommandStreaming] *)

Lemma checkPatterns_frame (opts : StreamingOptions) (chunk : string) (s : ExecState) :
  st_stdout (checkPatterns opts chunk s) = st_stdout s
  /\ st_stderr (checkPatterns opts chunk s) = st_stderr s
  /\ st_timedOut (checkPatterns opts chunk s) = st_timedOut s
  /\ timerArmed (checkPatterns opts chunk s) = timerArmed s
  /\ promise (checkPatterns opts chunk s) = promise s.
Proof.
  unfold checkPatterns. destruct (truthy (st_fatalMatch s)); [tauto|].
  destruct (firstMatch (fatalPatterns opts) chunk); simpl; tauto.
Qed.

(** What [checkPatterns] leaves in [fatalMatch] depends on the chunk and on
    the [fatalMatch] it finds, nothing else. *)
Lemma checkPatterns_fatalMatch (opts : StreamingOptions) (chunk : string) (s s' : ExecState) :
  st_fatalMatch s = st_fatalMatch s' ->
  st_fatalMatch (checkPatterns opts chunk s) = st_fatalMatch (checkPatterns opts chunk s').
Proof.
  intros E. unfold checkPatterns. rewrite <- E.
  destruct (truthy (st_fatalMatch s)); [exact E|].
  destruct (firstMatch (fatalPatterns opts) chunk); [reflexivity | exact E].
Qed.

Lemma settle_pending (p outcome : Promise) : settle p outcome = Pending -> p = Pending.
Proof. destruct p; simpl; congruence. Qed.

(** A settled promise stays as it is. *)
Lemma handle_pending (opts : StreamingOptions) (s : ExecState) (ev : ChildEvent) :
  promise (handle opts s ev) = Pending -> promise s = Pending.
Proof.
  destruct ev as [text|text| |code|message]; simpl.
  - unfold onStdout.
    set (s1 := checkPatterns opts text _).
    destruct (checkPatterns_frame opts text
                {| st_stdout := st_stdout s ++ text; st_stderr := st_stderr s;
                   st_timedOut := st_timedOut s; st_fatalMatch := st_fatalMatch s;
                   timerArmed := timerArmed s; kills := kills s;
                   notified := notified s; promise := promise s |})
      as [_ [_ [_ [_ Hp]]]].
    fold s1 in Hp. simpl in Hp.
    destruct (strlen (st_stdout s1) >? maxBuffer opts); simpl.
    + intros H. apply settle_pending in H. congruence.
    + congruence.
  - unfold onStderr. intros H.
    now rewrite (proj2 (proj2 (proj2 (proj2 (checkPatterns_frame _ _ _))))) in H.
  - unfold onTimer. now destruct (timerArmed s).
  - apply settle_pending.
  - apply settle_pending.
Qed.

Lemma runFrom_pending (opts : StreamingOptions) (evs : list ChildEvent) (s : ExecState) :
  promise (runFrom opts s evs) = Pending -> promise s = Pending.
Proof.
  revert s. induction evs as [|ev evs IH]; intros s; simpl; [tauto|].
  intros H. apply IH in H. now apply handle_pending in H.
Qed.

Lemma runFrom_app (opts : StreamingOptions) (evs evs' : list ChildEvent) (s : ExecState) :
  runFrom opts s (evs ++ evs') = runFrom opts (runFrom opts s evs) evs'.
Proof. unfold runFrom. apply fold_left_app. Qed.

(** While the promise is pending, [timedOut] tells whether the timer has
    fired, and the timer is armed exactly when it has not. *)
Lemma timer_state (opts : StreamingOptions) (evs : list ChildEvent) (s : ExecState)
  (fired : bool) :
  timerArmed s = negb fired ->
  st_timedOut s = fired ->
  promise (runFrom opts s evs) = Pending ->
  timerArmed (runFrom opts s evs) = negb (fired || existsb isTimerFired evs)
  /\ st_timedOut (runFrom opts s evs) = fired || existsb isTimerFired evs.
Proof.
  revert s fired. induction evs as [|ev evs IH]; intros s fired Ha Ht Hp.
  - simpl. now rewrite orb_false_r.
  - simpl in *. pose proof (runFrom_pending _ _ _ Hp) as Hp1.
    pose proof (handle_pending _ _ _ Hp1) as Hp0.
    rewrite orb_assoc. apply IH; [| |exact Hp].
    + destruct ev as [text|text| |code|message]; simpl in *.
      * unfold onStdout in *.
        destruct (checkPatterns_frame opts text
                    {| st_stdout := st_stdout s ++ text; st_stderr := st_stderr s;
                       st_timedOut := st_timedOut s; st_fatalMatch := st_fatalMatch s;
                       timerArmed := timerArmed s; kills := kills s;
                       notified := notified s; promise := promise s |})
          as [_ [_ [_ [Harm Hpr]]]].
        destruct (strlen _ >? maxBuffer opts); simpl in *.
        -- rewrite Hpr in Hp1. simpl in Hp1. rewrite Hp0 in Hp1. discriminate.
        -- rewrite Harm. simpl. now rewrite orb_false_r.
      * unfold onStderr.
        rewrite (proj1 (proj2 (proj2 (proj2 (checkPatterns_frame _ _ _))))).
        simpl. now rewrite orb_false_r.
      * unfold onTimer. rewrite Ha. destruct fired; simpl; [exact Ha | reflexivity].
      * rewrite Hp0 in Hp1. discriminate.
      * rewrite Hp0 in Hp1. discriminate.
    + destruct ev as [text|text| |code|message]; simpl in *.
      * unfold onStdout in *.
        destruct (checkPatterns_frame opts text
                    {| st_stdout := st_stdout s ++ text; st_stderr := st_stderr s;
                       st_timedOut := st_timedOut s; st_fatalMatch := st_fatalMatch s;
                       timerArmed := timerArmed s; kills := kills s;
                       notified := notified s; promise := promise s |})
          as [_ [_ [Hto [_ Hpr]]]].
        destruct (strlen _ >? maxBuffer opts); simpl in *.
        -- rewrite Hpr in Hp1. simpl in Hp1. rewrite Hp0 in Hp1. discriminate.
        -- rewrite Hto. simpl. now rewrite orb_false_r.
      * unfold onStderr.
        rewrite (proj1 (proj2 (proj2 (checkPatterns_frame _ _ _)))).
        simpl. now rewrite orb_false_r.
      * unfold onTimer. rewrite Ha. destruct fired; simpl; [exact Ht | reflexivity].
      * rewrite Hp0 in Hp1. discriminate.
      * rewrite Hp0 in Hp1. discriminate.
Qed.

(** The timer has no part in what ends up in [fatalMatch]. *)
Lemma fatalMatch_without_timer (opts : StreamingOptions) (evs : list ChildEvent)
  (s s' : ExecState) :
  st_fatalMatch s = st_fatalMatch s' ->
  st_fatalMatch (runFrom opts s evs)
  = st_fatalMatch (runFrom opts s' (filter (fun ev => negb (isTimerFired ev)) evs)).
Proof.
  revert s s'. induction evs as [|ev evs IH]; intros s s' E; [exact E|].
  destruct ev as [text|text| |code|message]; simpl; apply IH.
  - unfold onStdout.
    set (a := checkPatterns opts text _).
    set (b := checkPatterns opts text _).
    assert (Hab : st_fatalMatch a = st_fatalMatch b)
      by (apply checkPatterns_fatalMatch; exact E).
    destruct (strlen (st_stdout a) >? _), (strlen (st_stdout b) >? _); exact Hab.
  - unfold onStderr. apply checkPatterns_fatalMatch. exact E.
  - unfold onTimer. destruct (timerArmed s); exact E.
  - exact E.
  - exact E.
Qed.

(** ** Claim C6 *)

(** C6 as stated fails: the build tool's run in which a fatal line arrives,
    the killed process lingers until the timer fires and then closes,
    resolves with both [fatalMatch] and [timedOut] set.  Two of the three
    apply to the result, and the executor ranks neither above the other. *)
Lemma executor_not_exactly_one :
  executeCommandStreaming buildOptions fatalThenTimeout
  = Resolved (mkStreamingResult ""
                "xcodebuild: error: The device is passcode protected" 0 true
                (Some "The device is passcode protected"))
  /\ exactlyOne
       (normalExit (mkStreamingResult ""
                      "xcodebuild: error: The device is passcode protected" 0 true
                      (Some "The device is passcode protected")))
       (fatalExit (mkStreamingResult ""
                     "xcodebuild: error: The device is passcode protected" 0 true
                     (Some "The device is passcode protected")))
       (timeoutExit (mkStreamingResult ""
                       "xcodebuild: error: The device is passcode protected" 0 true
                       (Some "The device is passcode protected")))
     = false.
Proof. split; reflexivity. Qed.

(** C6, amended.  When the process closes while the promise is pending,
    the promise resolves; the result's [timedOut] tells whether the timer
    fired before the close and its [fatalMatch] is what the output chunks
    alone determine, the timer having no part in it; at least one of
    normal exit, fatal match and timeout applies, and fatal match and
    timeout can both apply.  The timer never settles the promise: when it
    has fired and the process then closes with the promise still pending,
    the promise resolves with [timedOut = true]. *)
Theorem executor_outcomes :
  (forall (opts : StreamingOptions) (evs : list ChildEvent) (code : option Z),
      promise (runFrom opts initialState evs) = Pending ->
      exists r,
        executeCommandStreaming opts (evs ++ [Close code]) = Resolved r
        /\ timedOut r = existsb isTimerFired evs
        /\ fatalMatch r
           = st_fatalMatch
               (runFrom opts initialState (filter (fun ev => negb (isTimerFired ev)) evs))
        /\ normalExit r || fatalExit r || timeoutExit r = true
        /\ (In TimerFired evs -> timeoutExit r = true))
  /\ (forall s : ExecState, promise (onTimer s) = promise s)
  /\ (exists (evs : list ChildEvent) (r : StreamingCommandResult),
         executeCommandStreaming buildOptions evs = Resolved r
         /\ fatalExit r = true /\ timeoutExit r = true).
Proof.
  split; [|split].
  - intros opts evs code Hp.
    destruct (timer_state opts evs initialState false eq_refl eq_refl Hp) as [_ Ht].
    simpl in Ht.
    eexists. unfold executeCommandStreaming. rewrite runFrom_app. simpl.
    rewrite Hp. simpl. split; [reflexivity|]. simpl.
    split; [exact Ht|]. split; [now apply fatalMatch_without_timer|]. split.
    + unfold normalExit, fatalExit, timeoutExit. simpl.
      destruct (st_fatalMatch _), (st_timedOut _); reflexivity.
    + intros Hin. unfold timeoutExit. simpl. rewrite Ht.
      apply existsb_exists. exists TimerFired. split; [exact Hin | reflexivity].
  - intros s. unfold onTimer. now destruct (timerArmed s).
  - exists fatalThenTimeout. eexists. split; [reflexivity|]. split; reflexivity.
Qed.

(** C6, amended, on a build whose output ends and whose timer then
    fires. *)
Lemma executor_outcomes_witness :
  promise (runFrom buildOptions initialState [StdoutData "Compiling"; TimerFired]) = Pending
  /\ In TimerFired [StdoutData "Compiling"; TimerFired]
  /\ exists r,
       executeCommandStreaming buildOptions
         ([StdoutData "Compiling"; TimerFired] ++ [Close None]) = Resolved r
       /\ timeoutExit r = true.
Proof.
  assert (Hp : promise (runFrom buildOptions initialState
                          [StdoutData "Compiling"; TimerFired]) = Pending)
    by reflexivity.
  assert (Hin : In TimerFired [StdoutData "Compiling"; TimerFired])
    by (right; now left).
  split; [exact Hp|]. split; [exact Hin|].
  destruct executor_outcomes as [H _].
  destruct (H buildOptions [StdoutData "Compiling"; TimerFired] None Hp)
    as [r [Hr [_ [_ [_ Ht]]]]].
  exists r. split; [exact Hr | exact (Ht Hin)].
Defined.

(** ** Claim C10 *)

Lemma string_app_assoc (a b c : string) : (a ++ b) ++ c = a ++ (b ++ c).
Proof.
  induction a as [|x a IH]; [reflexivity|].
  change (String x ((a ++ b) ++ c) = String x (a ++ (b ++ c))). now f_equal.
Qed.

Lemma string_app_nil_r (a : string) : a ++ "" = a.
Proof.
  induction a as [|x a IH]; [reflexivity|].
  change (String x (a ++ "") = String x a). now f_equal.
Qed.

Lemma onStdout_stdout (opts : StreamingOptions) (text : string) (s : ExecState) :
  st_stdout (onStdout opts text s) = st_stdout s ++ text.
Proof.
  unfold onStdout.
  destruct (checkPatterns_frame opts text
              {| st_stdout := st_stdout s ++ text; st_stderr := st_stderr s;
                 st_timedOut := st_timedOut s; st_fatalMatch := st_fatalMatch s;
                 timerArmed := timerArmed s; kills := kills s;
                 notified := notified s; promise := promise s |})
    as [Hout _].
  destruct (strlen _ >? maxBuffer opts); simpl; exact Hout.
Qed.

(** The stdout handler rejects exactly when stdout has outgrown the
    buffer. *)
Lemma onStdout_promise (opts : StreamingOptions) (text : string) (s : ExecState) :
  promise (onStdout opts text s)
  = if strlen (st_stdout s ++ text) >? maxBuffer opts
    then settle (promise s) (Rejected (BufferExceeded (maxBuffer opts)))
    else promise s.
Proof.
  unfold onStdout.
  destruct (checkPatterns_frame opts text
              {| st_stdout := st_stdout s ++ text; st_stderr := st_stderr s;
                 st_timedOut := st_timedOut s; st_fatalMatch := st_fatalMatch s;
                 timerArmed := timerArmed s; kills := kills s;
                 notified := notified s; promise := promise s |})
    as [Hout [_ [_ [_ Hp]]]].
  simpl in Hout, Hp. rewrite Hout.
  destruct (strlen (st_stdout s ++ text) >? maxBuffer opts); simpl;
    now rewrite Hp.
Qed.

Lemma onStderr_frame (opts : StreamingOptions) (text : string) (s : ExecState) :
  promise (onStderr opts text s) = promise s
  /\ timerArmed (onStderr opts text s) = timerArmed s
  /\ st_timedOut (onStderr opts text s) = st_timedOut s
  /\ st_stdout (onStderr opts text s) = st_stdout s
  /\ st_stderr (onStderr opts text s) = st_stderr s ++ text.
Proof.
  unfold onStderr.
  destruct (checkPatterns_frame opts text
              {| st_stdout := st_stdout s; st_stderr := st_stderr s ++ text;
                 st_timedOut := st_timedOut s; st_fatalMatch := st_fatalMatch s;
                 timerArmed := timerArmed s; kills := kills s;
                 notified := notified s; promise := promise s |})
    as [H1 [H2 [H3 [H4 H5]]]].
  simpl in *. tauto.
Qed.

Lemma runFrom_stdout (opts : StreamingOptions) (evs : list ChildEvent) (s : ExecState) :
  st_stdout (runFrom opts s evs) = st_stdout s ++ stdoutText evs.
Proof.
  revert s. induction evs as [|ev evs IH]; intros s; simpl.
  - now rewrite string_app_nil_r.
  - rewrite IH. destruct ev as [text|text| |code|message]; simpl.
    + now rewrite onStdout_stdout, string_app_assoc.
    + now rewrite (proj1 (proj2 (proj2 (proj2 (onStderr_frame opts text s))))).
    + unfold onTimer. now destruct (timerArmed s).
    + reflexivity.
    + reflexivity.
Qed.

Lemma handle_settled (opts : StreamingOptions) (s : ExecState) (ev : ChildEvent) :
  promise s <> Pending -> promise (handle opts s ev) = promise s.
Proof.
  intros H. destruct ev as [text|text| |code|message]; simpl.
  - rewrite onStdout_promise. destruct (_ >? _); [|reflexivity].
    now destruct (promise s).
  - apply onStderr_frame.
  - unfold onTimer. now destruct (timerArmed s).
  - now destruct (promise s).
  - now destruct (promise s).
Qed.

Lemma runFrom_settled (opts : StreamingOptions) (evs : list ChildEvent) (s : ExecState) :
  promise s <> Pending -> promise (runFrom opts s evs) = promise s.
Proof.
  revert s. induction evs as [|ev evs IH]; intros s H; simpl; [reflexivity|].
  rewrite IH; rewrite handle_settled by exact H; [reflexivity | exact H].
Qed.

(** A promise rejected for the buffer was rejected by a stdout chunk that
    took stdout over the limit. *)
Lemma buffer_rejection_origin (opts : StreamingOptions) (evs : list ChildEvent)
  (s : ExecState) (limit : Z) :
  promise s = Pending ->
  promise (runFrom opts s evs) = Rejected (BufferExceeded limit) ->
  exists pre text post,
    evs = (pre ++ StdoutData text :: post)%list
    /\ promise (runFrom opts s pre) = Pending
    /\ limit = maxBuffer opts
    /\ maxBuffer opts < strlen (st_stdout (runFrom opts s pre) ++ text).
Proof.
  revert s. induction evs as [|ev evs IH]; intros s Hp Hr; simpl in Hr.
  - congruence.
  - destruct (promise (handle opts s ev)) eqn:Eh.
    + destruct (IH _ Eh Hr) as [pre [text [post [E [Hpre [Hl Hover]]]]]].
      exists (ev :: pre), text, post. subst evs. simpl. tauto.
    + rewrite runFrom_settled in Hr by congruence. congruence.
    + rewrite runFrom_settled in Hr by congruence.
      rewrite Eh in Hr. injection Hr as ->.
      destruct ev as [text|text| |code|message]; simpl in Eh.
      * rewrite onStdout_promise, Hp in Eh.
        destruct (strlen (st_stdout s ++ text) >? maxBuffer opts) eqn:Eo;
          [|discriminate].
        simpl in Eh. injection Eh as <-.
        exists [], text, evs. simpl. apply Z.gtb_lt in Eo. tauto.
      * rewrite (proj1 (onStderr_frame _ _ _)) in Eh. congruence.
      * unfold onTimer in Eh. destruct (timerArmed s); simpl in Eh; congruence.
      * rewrite Hp in Eh. discriminate.
      * rewrite Hp in Eh. discriminate.
Qed.

Lemma sameSettlement_settle (p p' o o' : Promise) :
  sameSettlement p p' -> sameSettlement o o' ->
  sameSettlement (settle p o) (settle p' o').
Proof. destruct p, p'; simpl; tauto. Qed.

(** Dropping all stderr events from a run changes neither whether nor how
    the promise is settled, and not the error it is rejected with. *)
Lemma stderr_irrelevant (opts : StreamingOptions) (evs : list ChildEvent)
  (s s' : ExecState) :
  st_stdout s = st_stdout s' ->
  sameSettlement (promise s) (promise s') ->
  sameSettlement (promise (runFrom opts s evs))
    (promise (runFrom opts s' (filter (fun ev => negb (isStderrData ev)) evs))).
Proof.
  revert s s'. induction evs as [|ev evs IH]; intros s s' Hout Hp; [exact Hp|].
  destruct ev as [text|text| |code|message]; simpl; apply IH.
  - now rewrite !onStdout_stdout, Hout.
  - rewrite !onStdout_promise, Hout.
    destruct (_ >? _); [|exact Hp].
    apply sameSettlement_settle; [exact Hp | reflexivity].
  - now rewrite (proj1 (proj2 (proj2 (proj2 (onStderr_frame opts text s))))).
  - now rewrite (proj1 (onStderr_frame opts text s)).
  - unfold onTimer. destruct (timerArmed s), (timerArmed s'); exact Hout.
  - unfold onTimer. destruct (timerArmed s), (timerArmed s'); exact Hp.
  - exact Hout.
  - apply sameSettlement_settle; [exact Hp | exact I].
  - exact Hout.
  - apply sameSettlement_settle; [exact Hp | reflexivity].
Qed.

Lemma sameSettlement_rejected (p p' : Promise) (e : McpError) :
  sameSettlement p p' -> (p = Rejected e <-> p' = Rejected e).
Proof. destruct p, p'; simpl; intros H; split; congruence || tauto. Qed.

(** C10. Only stdout is measured against [maxBuffer]: with the promise
    pending, a stdout chunk rejects it with "buffer exceeded" exactly when
    the accumulated stdout is longer than [maxBuffer], and a run is
    rejected with that error exactly when one of its stdout chunks does so.
    The stderr handler appends its chunk and never settles the promise nor
    clears the timer; it does not kill the process unless a fatal pattern
    matches the chunk, and whether it does is independent of what has
    accumulated on stderr; and dropping every stderr event from a run
    does not change whether, or with which error, the promise is
    rejected. *)
Theorem buffer_limit_stdout_only :
  (forall (opts : StreamingOptions) (text : string) (s : ExecState),
      promise s = Pending ->
      (promise (onStdout opts text s) = Rejected (BufferExceeded (maxBuffer opts))
       <-> maxBuffer opts < strlen (st_stdout s ++ text))
      /\ (promise (onStdout opts text s) = Pending
          <-> strlen (st_stdout s ++ text) <= maxBuffer opts))
  /\ (forall (opts : StreamingOptions) (text : string) (s : ExecState),
         promise (onStderr opts text s) = promise s
         /\ timerArmed (onStderr opts text s) = timerArmed s
         /\ st_stderr (onStderr opts text s) = st_stderr s ++ text)
  /\ (forall (opts : StreamingOptions) (text : string) (s : ExecState),
         firstMatch (fatalPatterns opts) text = None ->
         kills (onStderr opts text s) = kills s)
  /\ (forall (opts : StreamingOptions) (text accumulated : string) (s : ExecState),
         kills (onStderr opts text (withStderr accumulated s)) = kills (onStderr opts text s)
         /\ promise (onStderr opts text (withStderr accumulated s))
            = promise (onStderr opts text s)
         /\ st_fatalMatch (onStderr opts text (withStderr accumulated s))
            = st_fatalMatch (onStderr opts text s))
  /\ (forall (opts : StreamingOptions) (evs : list ChildEvent) (e : McpError),
         executeCommandStreaming opts evs = Rejected e
         <-> executeCommandStreaming opts (filter (fun ev => negb (isStderrData ev)) evs)
             = Rejected e)
  /\ (forall (opts : StreamingOptions) (evs : list ChildEvent),
         executeCommandStreaming opts evs = Rejected (BufferExceeded (maxBuffer opts))
         <-> exists pre text post,
               evs = (pre ++ StdoutData text :: post)%list
               /\ promise (runFrom opts initialState pre) = Pending
               /\ maxBuffer opts < strlen (stdoutText pre ++ text)).
Proof.
  split; [|split; [|split; [|split; [|split]]]].
  - intros opts text s Hp. rewrite onStdout_promise, Hp.
    destruct (strlen (st_stdout s ++ text) >? maxBuffer opts) eqn:E; simpl.
    + apply Z.gtb_lt in E. split; split; intros; try reflexivity; try lia; discriminate.
    + rewrite Z.gtb_ltb in E. apply Z.ltb_ge in E.
      split; split; intros; try reflexivity; try lia; discriminate.
  - intros opts text s. pose proof (onStderr_frame opts text s). tauto.
  - intros opts text s Hnone. unfold onStderr, checkPatterns. simpl.
    rewrite Hnone. now destruct (truthy (st_fatalMatch s)).
  - intros opts text accumulated s. unfold onStderr, withStderr, checkPatterns. simpl.
    destruct (truthy (st_fatalMatch s)); simpl; [tauto|].
    destruct (firstMatch (fatalPatterns opts) text); simpl; tauto.
  - intros opts evs e. unfold executeCommandStreaming.
    apply sameSettlement_rejected. apply stderr_irrelevant; reflexivity.
  - intros opts evs. unfold executeCommandStreaming. split.
    + intros H.
      destruct (buffer_rejection_origin opts evs initialState _ eq_refl H)
        as [pre [text [post [E [Hp [_ Hover]]]]]].
      exists pre, text, post. rewrite runFrom_stdout in Hover. simpl in Hover. tauto.
    + intros [pre [text [post [E [Hp Hover]]]]]. subst evs.
      rewrite runFrom_app. simpl.
      assert (Hrej : promise (onStdout opts text (runFrom opts initialState pre))
                     = Rejected (BufferExceeded (maxBuffer opts))).
      { rewrite onStdout_promise, Hp, runFrom_stdout.
        change (st_stdout initialState ++ stdoutText pre) with (stdoutText pre).
        replace (strlen (stdoutText pre ++ text) >? maxBuffer opts) with true
          by (symmetry; apply Z.gtb_lt; lia).
        reflexivity. }
      rewrite runFrom_settled; rewrite Hrej; [reflexivity | discriminate].
Qed.

(** C10 on a run that delivers 30 code units on stderr and then 5 on
    stdout, with a buffer of 4. *)
Lemma buffer_limit_stdout_only_witness :
  promise (onStderr tinyOptions "warning: a long line on stderr" initialState) = Pending
  /\ maxBuffer tinyOptions
     < strlen (st_stdout (onStderr tinyOptions "warning: a long line on stderr" initialState)
               ++ "hello")
  /\ promise (onStdout tinyOptions "hello"
                (onStderr tinyOptions "warning: a long line on stderr" initialState))
     = Rejected (BufferExceeded (maxBuffer tinyOptions))
  /\ executeCommandStreaming tinyOptions stderrThenStdout
     = Rejected (BufferExceeded (maxBuffer tinyOptions)).
Proof.
  assert (Hp : promise (onStderr tinyOptions "warning: a long line on stderr" initialState)
               = Pending) by reflexivity.
  assert (Hover : maxBuffer tinyOptions
                  < strlen (st_stdout (onStderr tinyOptions
                                         "warning: a long line on stderr" initialState)
                            ++ "hello")) by (vm_compute; reflexivity).
  destruct buffer_limit_stdout_only as [Hchunk [_ [_ [_ [_ Hrun]]]]].
  split; [exact Hp|]. split; [exact Hover|]. split.
  - apply (Hchunk tinyOptions "hello" _ Hp). exact Hover.
  - apply Hrun.
    exists [StderrData "warning: a long line on stderr"], "hello", [Close (Some 0)].
    split; [reflexivity|]. split; [reflexivity | vm_compute; reflexivity].
Defined.

(* ================================================================= *)
(** ** Destination resolution *)

Lemma orUndefined_truthy (s : string) :
  truthy (orUndefined s) = match orUndefined s with Some _ => true | None => false end.
Proof.
  unfold orUndefined. destruct (String.eqb s "") eqn:E; [reflexivity|].
  simpl. now rewrite E.
Qed.

(** A derived platform is never the empty string. *)
Lemma derivePlatformFromToken_truthy (token : option string) :
  truthy (derivePlatformFromToken token)
  = match derivePlatformFromToken token with Some _ => true | None => false end.
Proof.
  unfold derivePlatformFromToken. destruct token as [t|]; [|reflexivity].
  destruct (String.eqb t ""); [reflexivity|].
  destruct (includes "mac" _); [reflexivity|].
  destruct (_ || _); [reflexivity|].
  destruct (_ || _); [reflexivity|].
  destruct (includes "watch" _); [reflexivity|].
  destruct (includes "vision" _); [reflexivity|].
  apply orUndefined_truthy.
Qed.

Lemma deriveSdkInfo_truthy (sdk_ : option string) :
  truthy (platform (deriveSdkInfo sdk_))
  = match platform (deriveSdkInfo sdk_) with Some _ => true | None => false end.
Proof.
  unfold deriveSdkInfo. destruct (truthy sdk_); [|reflexivity].
  destruct sdk_ as [s|]; [|reflexivity].
  exact (derivePlatformFromToken_truthy (Some (toLowerCase s))).
Qed.

Lemma derivePlatformFromDestination_truthy (dest : option string) :
  truthy (derivePlatformFromDestination dest)
  = match derivePlatformFromDestination dest with Some _ => true | None => false end.
Proof.
  unfold derivePlatformFromDestination. destruct (truthy dest); [|reflexivity].
  destruct dest as [d|]; [|reflexivity].
  destruct (matchPlatform d); [|reflexivity].
  apply derivePlatformFromToken_truthy.
Qed.

(** Compatible: either side unknown, or both equal. *)
Lemma platformsCompatible_spec (sdk_ dest : option string) :
  platformsCompatible (platform (deriveSdkInfo sdk_)) (derivePlatformFromDestination dest)
  = true
  <-> platform (deriveSdkInfo sdk_) = None
      \/ derivePlatformFromDestination dest = None
      \/ platform (deriveSdkInfo sdk_) = derivePlatformFromDestination dest.
Proof.
  unfold platformsCompatible.
  rewrite deriveSdkInfo_truthy, derivePlatformFromDestination_truthy.
  destruct (platform (deriveSdkInfo sdk_)) as [a|],
           (derivePlatformFromDestination dest) as [b|]; simpl;
    try (split; [auto | reflexivity]).
  rewrite String.eqb_eq. split.
  - intros ->. auto.
  - intros [H|[H|H]]; congruence.
Qed.

Lemma includes_cons (p : string) (c : ascii) (s : string) :
  includes p s = true -> includes p (String c s) = true.
Proof. intros H. simpl. rewrite H. apply orb_true_r. Qed.

(** Deleting everything but lower-case letters keeps an occurrence of a
    word made of lower-case letters. *)
Lemma startsWith_keepLowerLetters (p s : string) :
  allLowerLetters p = true ->
  startsWith p s = true -> startsWith p (keepLowerLetters s) = true.
Proof.
  revert s. induction p as [|a p IH]; intros s Hp H; [reflexivity|].
  destruct s as [|b s]; [discriminate|].
  simpl in Hp, H. apply andb_true_iff in Hp as [Ha Hp].
  apply andb_true_iff in H as [Hab H].
  apply Ascii.eqb_eq in Hab. subst b. simpl. rewrite Ha. simpl.
  rewrite Ascii.eqb_refl. simpl. now apply IH.
Qed.

Lemma includes_keepLowerLetters (p s : string) :
  allLowerLetters p = true ->
  includes p s = true -> includes p (keepLowerLetters s) = true.
Proof.
  intros Hp. induction s as [|c s IH]; intros H.
  - exact H.
  - simpl in H. apply orb_true_iff in H as [H|H].
    + apply (startsWith_keepLowerLetters p (String c s) Hp) in H.
      destruct (keepLowerLetters (String c s)); simpl; now rewrite H.
    + specialize (IH H). simpl. destruct (isLowerLetter c); [|exact IH].
      now apply includes_cons.
Qed.

(** The platform of a token that names a simulator and no Mac platform is
    known and is not macOS. *)
Lemma simulator_token_platform (token : string) :
  includes "simulator" (toLowerCase token) = true ->
  includes "mac" (toLowerCase token) = false ->
  exists p, derivePlatformFromToken (Some token) = Some p /\ p <> "macos".
Proof.
  intros Hsim Hmac. unfold derivePlatformFromToken.
  destruct (String.eqb_spec token "") as [->|_]; [discriminate|].
  rewrite Hmac.
  destruct (_ || _); [exists "ios"; split; [reflexivity | discriminate]|].
  destruct (_ || _); [exists "tvos"; split; [reflexivity | discriminate]|].
  destruct (includes "watch" _); [exists "watchos"; split; [reflexivity | discriminate]|].
  destruct (includes "vision" _); [exists "visionos"; split; [reflexivity | discriminate]|].
  pose proof (includes_keepLowerLetters "simulator" _ eq_refl Hsim) as Hk.
  unfold orUndefined.
  destruct (String.eqb_spec (keepLowerLetters (toLowerCase token)) "") as [E|_].
  - rewrite E in Hk. discriminate.
  - eexists. split; [reflexivity|]. intros E. rewrite E in Hk. discriminate.
Qed.

Lemma simulatorDestination_platform (d : string) :
  simulatorDestination d = true ->
  exists p, derivePlatformFromDestination (Some d) = Some p /\ p <> "macos".
Proof.
  unfold simulatorDestination, derivePlatformFromDestination.
  destruct (matchPlatform d) as [token|] eqn:Em; [|discriminate].
  intros H. apply andb_true_iff in H as [Hsim Hmac].
  apply negb_true_iff in Hmac.
  assert (Hd : truthy (Some d) = true).
  { destruct d; [discriminate Em | reflexivity]. }
  rewrite Hd. now apply simulator_token_platform.
Qed.

Lemma toLowerCase_app (a b : string) :
  toLowerCase (a ++ b) = toLowerCase a ++ toLowerCase b.
Proof.
  induction a as [|c a IH]; [reflexivity|].
  change (String (toLowerChar c) (toLowerCase (a ++ b))
          = String (toLowerChar c) (toLowerCase a ++ toLowerCase b)).
  now f_equal.
Qed.

Lemma includes_app_r (p a b : string) :
  includes p b = true -> includes p (a ++ b) = true.
Proof.
  intros H. induction a as [|c a IH]; [exact H|].
  change (includes p (String c (a ++ b)) = true). now apply includes_cons.
Qed.

Lemma takeNonComma_app (x rest : string) :
  noComma x = true ->
  takeNonComma (x ++ String "," rest) = x.
Proof.
  induction x as [|c x IH]; intros H; [reflexivity|].
  simpl in H. apply andb_true_iff in H as [Hc Hx]. apply negb_true_iff in Hc.
  change (takeNonComma (String c (x ++ String "," rest)) = String c x).
  simpl. rewrite Hc. f_equal. now apply IH.
Qed.

(** "mac" cannot begin in [s] and end in a following " simulator". *)
Lemma includes_mac_app (s : string) :
  includes "mac" (s ++ " simulator") = includes "mac" s.
Proof.
  induction s as [|c s IH]; [reflexivity|].
  change (includes "mac" (String c (s ++ " simulator")) = includes "mac" (String c s)).
  simpl includes. rewrite IH. f_equal.
  destruct s as [|c1 [|c2 s]]; simpl.
  - now rewrite !andb_false_r.
  - destruct (Ascii.eqb "m" c), (Ascii.eqb "a" c1); reflexivity.
  - reflexivity.
Qed.

(** The destinations [buildDestinationFromUdid] makes from a runtime name
    that is not a Mac one are simulator destinations. *)
Lemma built_destination_is_simulator (baseName udid_ : string) :
  noComma baseName = true ->
  includes "mac" (toLowerCase baseName) = false ->
  simulatorDestination ("platform=" ++ (baseName ++ " Simulator") ++ ",id=" ++ udid_) = true.
Proof.
  intros Hc Hm. unfold simulatorDestination.
  assert (Hn : noComma (baseName ++ " Simulator") = true).
  { clear Hm. induction baseName as [|c b IH]; [reflexivity|].
    simpl in Hc. apply andb_true_iff in Hc as [H1 H2].
    change (noComma (String c (b ++ " Simulator")) = true).
    simpl. rewrite H1. now apply IH. }
  assert (Em : matchPlatform ("platform=" ++ (baseName ++ " Simulator") ++ ",id=" ++ udid_)
               = Some (baseName ++ " Simulator")).
  { change (match takeNonComma ((baseName ++ " Simulator") ++ String "," ("id=" ++ udid_)) with
            | EmptyString =>
                matchPlatform ("latform=" ++ (baseName ++ " Simulator") ++ ",id=" ++ udid_)
            | captured => Some captured
            end = Some (baseName ++ " Simulator")).
    rewrite takeNonComma_app by exact Hn.
    destruct baseName; reflexivity. }
  rewrite Em, toLowerCase_app.
  change (toLowerCase " Simulator") with " simulator".
  rewrite includes_mac_app, Hm.
  rewrite includes_app_r by reflexivity. reflexivity.
Qed.

(** ** Claim C5 *)

(** C5. With no explicit destination and a cached preferred destination
    [d]: when the platform derived from [d] is compatible with the SDK's
    platform hint (either one unknown, or both equal) the resolver returns
    [d] itself; when it is not, [d] is not reused: the resolver returns
    what it returns for the same request without a cached destination; and
    for SDK "macosx" and a cached simulator destination it returns no
    destination. *)
Theorem resolveDestination_cached (sc : SimulatorCache) (params : ResolveParams)
  (d : string) :
  explicitDestination params = None ->
  preferredDestination (preferredConfig params) = Some d ->
  d <> "" ->
  let sdkPlatform := platform (deriveSdkInfo (p_sdk params)) in
  let destPlatform := derivePlatformFromDestination (Some d) in
  (platformsCompatible sdkPlatform destPlatform = true
   <-> sdkPlatform = None \/ destPlatform = None \/ sdkPlatform = destPlatform)
  /\ (platformsCompatible sdkPlatform destPlatform = true ->
      resolveDestination sc params = Some d)
  /\ (platformsCompatible sdkPlatform destPlatform = false ->
      resolveDestination sc params
      = resolveDestination sc (withoutCachedDestination params))
  /\ (p_sdk params = Some "macosx" ->
      simulatorDestination d = true ->
      resolveDestination sc params = None).
Proof.
  intros Hexp Hpref Hd sdkPlatform destPlatform.
  assert (Htr : truthy (Some d) = true).
  { simpl. apply negb_true_iff. now apply String.eqb_neq. }
  assert (Hwo : preferredDestination (preferredConfig (withoutCachedDestination params))
                = None).
  { unfold withoutCachedDestination. simpl.
    destruct (preferredConfig params); reflexivity. }
  split; [apply platformsCompatible_spec|]. split; [|split].
  - intros Hc. unfold resolveDestination. rewrite Hexp, Hpref, Htr.
    fold sdkPlatform destPlatform. rewrite Hc. reflexivity.
  - intros Hc. unfold resolveDestination at 1. rewrite Hexp, Hpref, Htr.
    fold sdkPlatform destPlatform. rewrite Hc.
    unfold resolveDestination. rewrite Hwo.
    unfold withoutCachedDestination at 1 2. simpl explicitDestination.
    rewrite Hexp. reflexivity.
  - intros Hsdk Hsim.
    destruct (simulatorDestination_platform d Hsim) as [p [Hp Hne]].
    unfold resolveDestination. rewrite Hexp, Hpref, Htr, Hsdk, Hp.
    replace (deriveSdkInfo (Some "macosx"))
      with {| platform := Some "macos"; isSimulator := false |} by reflexivity.
    simpl platform. unfold platformsCompatible.
    replace (truthy (Some "macos")) with true by reflexivity.
    assert (Hpt : truthy (Some p) = true).
    { pose proof (derivePlatformFromDestination_truthy (Some d)) as T.
      rewrite Hp in T. exact T. }
    rewrite Hpt. simpl negb. simpl orb.
    replace (String.eqb "macos" p) with false
      by (symmetry; apply String.eqb_neq; congruence).
    reflexivity.
Qed.

(** C5 on the requests of the repository's tests: SDK "tvossimulator" with
    a cached tvOS simulator destination, and SDK "macosx" with a cached iOS
    simulator destination. *)
Lemma resolveDestination_cached_witness :
  explicitDestination (requestFor "tvossimulator" "platform=tvOS Simulator,id=TV-1") = None
  /\ platformsCompatible
       (platform (deriveSdkInfo (Some "tvossimulator")))
       (derivePlatformFromDestination (Some "platform=tvOS Simulator,id=TV-1")) = true
  /\ resolveDestination emptySimulatorCache
       (requestFor "tvossimulator" "platform=tvOS Simulator,id=TV-1")
     = Some "platform=tvOS Simulator,id=TV-1"
  /\ simulatorDestination "platform=iOS Simulator,id=CACHED" = true
  /\ resolveDestination emptySimulatorCache
       (requestFor "macosx" "platform=iOS Simulator,id=CACHED")
     = None.
Proof.
  assert (Hc : platformsCompatible
                 (platform (deriveSdkInfo (Some "tvossimulator")))
                 (derivePlatformFromDestination (Some "platform=tvOS Simulator,id=TV-1"))
               = true) by reflexivity.
  assert (Hs : simulatorDestination "platform=iOS Simulator,id=CACHED" = true)
    by reflexivity.
  split; [reflexivity|]. split; [exact Hc|]. split; [|split; [exact Hs|]].
  - assert (Hd : "platform=tvOS Simulator,id=TV-1" <> "") by discriminate.
    destruct (resolveDestination_cached emptySimulatorCache
                (requestFor "tvossimulator" "platform=tvOS Simulator,id=TV-1")
                "platform=tvOS Simulator,id=TV-1" eq_refl eq_refl Hd)
      as [_ [Hreuse _]].
    exact (Hreuse Hc).
  - assert (Hd : "platform=iOS Simulator,id=CACHED" <> "") by discriminate.
    destruct (resolveDestination_cached emptySimulatorCache
                (requestFor "macosx" "platform=iOS Simulator,id=CACHED")
                "platform=iOS Simulator,id=CACHED" eq_refl eq_refl Hd)
      as [_ [_ [_ Hmac]]].
    exact (Hmac eq_refl Hs).
Defined.

(** The earlier revision of the tool consults no SDK: [getSmartDestination]
    returns any cached destination. *)
Remark getSmartDestination_returns_cached (sc : SimulatorCache)
  (cfg : option BuildConfig) (project d : string) :
  preferredDestination cfg = Some d -> d <> "" ->
  getSmartDestination sc cfg project = Some d.
Proof.
  intros H Hd. unfold getSmartDestination. rewrite H. simpl.
  apply String.eqb_neq in Hd. now rewrite Hd.
Qed.

(* ================================================================= *)
(** ** The project preference cache *)

Module ProjectCacheFacts.
Import stdpp.base stdpp.option stdpp.gmap stdpp.strings stdpp.fin_maps.
Import ProjectCache.

Lemma getPreferred_record_same (cap : nat) (project : string) (config : BuildConfig)
  (outcome : BuildOutcome) (pc : gmap string ProjectInfo) :
  getPreferredBuildConfig project (recordBuildResult cap project config outcome pc)
  = if o_success outcome then Some config else getPreferredBuildConfig project pc.
Proof.
  unfold getPreferredBuildConfig, recordBuildResult.
  rewrite lookup_insert_eq. simpl.
  destruct (o_success outcome); [reflexivity|].
  destruct (pc !! project); reflexivity.
Qed.

Lemma getPreferred_record_other (cap : nat) (project other : string)
  (config : BuildConfig) (outcome : BuildOutcome) (pc : gmap string ProjectInfo) :
  other <> project ->
  getPreferredBuildConfig other (recordBuildResult cap project config outcome pc)
  = getPreferredBuildConfig other pc.
Proof.
  intros Hne. unfold getPreferredBuildConfig, recordBuildResult.
  rewrite lookup_insert_ne by congruence. reflexivity.
Qed.

(** ** Claim C4 *)

(** C4. For every project: recording a failed outcome leaves what
    [getPreferredBuildConfig] returns as it was, for that project and for
    every other; recording a successful outcome makes
    [getPreferredBuildConfig] return the configuration just recorded for
    that project, and leaves every other project as it was. *)
Theorem recordBuildResult_preferred (cap : nat) (project : string)
  (config : BuildConfig) (outcome : BuildOutcome) (pc : gmap string ProjectInfo) :
  (o_success outcome = false ->
   forall anyProject,
     getPreferredBuildConfig anyProject (recordBuildResult cap project config outcome pc)
     = getPreferredBuildConfig anyProject pc)
  /\ (o_success outcome = true ->
      getPreferredBuildConfig project (recordBuildResult cap project config outcome pc)
      = Some config
      /\ forall other,
          other <> project ->
          getPreferredBuildConfig other (recordBuildResult cap project config outcome pc)
          = getPreferredBuildConfig other pc).
Proof.
  split.
  - intros Hfail anyProject.
    destruct (decide (anyProject = project)) as [->|Hne].
    + rewrite getPreferred_record_same, Hfail. reflexivity.
    + now apply getPreferred_record_other.
  - intros Hok. split.
    + rewrite getPreferred_record_same, Hok. reflexivity.
    + intros other Hne. now apply getPreferred_record_other.
Qed.

(** C4 on a project whose debug build succeeded and whose release build
    then failed: the debug configuration stays preferred. *)
Lemma recordBuildResult_preferred_witness :
  o_success succeeded = true
  /\ o_success failed = false
  /\ getPreferredBuildConfig "App.xcodeproj"
       (recordBuildResult 10 "App.xcodeproj" debugConfig succeeded ∅)
     = Some debugConfig
  /\ getPreferredBuildConfig "App.xcodeproj"
       (recordBuildResult 10 "App.xcodeproj" releaseConfig failed
          (recordBuildResult 10 "App.xcodeproj" debugConfig succeeded ∅))
     = Some debugConfig.
Proof.
  split; [reflexivity|]. split; [reflexivity|].
  destruct (recordBuildResult_preferred 10 "App.xcodeproj" debugConfig succeeded ∅)
    as [_ Hok].
  destruct (Hok eq_refl) as [Hset _].
  split; [exact Hset|].
  destruct (recordBuildResult_preferred 10 "App.xcodeproj" releaseConfig failed
              (recordBuildResult 10 "App.xcodeproj" debugConfig succeeded ∅))
    as [Hfail _].
  rewrite (Hfail eq_refl "App.xcodeproj"). exact Hset.
Defined.

End ProjectCacheFacts.

(* ################################################################# *)
(** * Further properties of the sources *)

(* ================================================================= *)
(** ** [ResponseCache]: bounds, collisions, [delete], limits, [getStats] *)

Lemma map_set_self_In {V : Type} (k : string) (v : V) (m : JsMap V) :
  In (k, v) (map_set k v m).
Proof.
  induction m as [|[k' v'] m IH]; simpl; [now left|].
  destruct (String.eqb k' k); simpl; [now left | now right].
Qed.

Lemma map_set_length_has {V : Type} (k : string) (v : V) (m : JsMap V) :
  map_has k m = true -> List.length (map_set k v m) = List.length m.
Proof.
  unfold map_has. induction m as [|[k' v'] m IH]; simpl; [discriminate|].
  destruct (String.eqb k' k); simpl; [reflexivity|].
  intros H. now rewrite IH.
Qed.

Lemma map_get_set_eq {V : Type} (k : string) (v : V) (m : JsMap V) :
  map_get k (map_set k v m) = Some v.
Proof.
  induction m as [|[k' v'] m IH]; simpl.
  - now rewrite String.eqb_refl.
  - destruct (String.eqb k' k) eqn:E; simpl.
    + now rewrite String.eqb_refl.
    + now rewrite E.
Qed.

Lemma map_get_set_ne {V : Type} (k k0 : string) (v : V) (m : JsMap V) :
  k0 <> k -> map_get k0 (map_set k v m) = map_get k0 m.
Proof.
  intros Hne. induction m as [|[k' v'] m IH]; simpl.
  - apply String.eqb_neq in Hne. rewrite String.eqb_sym. now rewrite Hne.
  - destruct (String.eqb_spec k' k) as [->|Hk]; simpl.
    + destruct (String.eqb_spec k k0) as [E|_]; [congruence | reflexivity].
    + now rewrite IH.
Qed.

(** X1. After every [store] the cache holds at most [maxEntries] entries,
    none of them expired at the time of the cleanup, under unique
    handles. *)
Theorem store_keeps_bounds (data : ResponseData) (uuid : string) (created now : Z)
  (c : JsMap CachedResponse) :
  uniqueKeys c ->
  map_size (snd (store data uuid created now c)) <= maxEntries
  /\ (forall kv, In kv (snd (store data uuid created now c)) ->
                 expired now (snd kv) = false)
  /\ uniqueKeys (snd (store data uuid created now c)).
Proof.
  intros Hu. unfold store. simpl snd.
  assert (Hi : uniqueKeys (map_set uuid (mkCached data uuid created) c))
    by now apply uniqueKeys_set.
  destruct (cleanup_policy now _ Hi) as [_ [_ [Hsize [Hin _]]]].
  split; [lia|]. split; [|now apply uniqueKeys_cleanup].
  intros kv H. now apply Hin.
Qed.

Lemma store_keeps_bounds_witness :
  uniqueKeys sampleCache
  /\ map_size (snd (store sampleData "h3" 5000 5000 sampleCache)) <= maxEntries.
Proof.
  assert (Hu : uniqueKeys sampleCache) by (apply distinctb_NoDup; reflexivity).
  split; [exact Hu|].
  exact (proj1 (store_keeps_bounds sampleData "h3" 5000 5000 sampleCache Hu)).
Defined.

(** X2. A [store] under a handle the cache already holds overwrites that
    entry: with the cache within its limit, the handle afterwards gives the
    new payload and the cache has not grown. *)
Theorem store_existing_handle (data : ResponseData) (uuid : string) (created now : Z)
  (c : JsMap CachedResponse) :
  uniqueKeys c ->
  map_has uuid c = true ->
  map_size c <= maxEntries ->
  expired now (mkCached data uuid created) = false ->
  map_get uuid (snd (store data uuid created now c)) = Some (mkCached data uuid created)
  /\ map_size (snd (store data uuid created now c)) <= map_size c.
Proof.
  intros Hu Hhas Hsz Hlive. unfold store. simpl snd.
  set (e := mkCached data uuid created) in *.
  assert (Hi : uniqueKeys (map_set uuid e c)) by now apply uniqueKeys_set.
  assert (Hlen : map_size (map_set uuid e c) = map_size c).
  { unfold map_size. now rewrite map_set_length_has. }
  unfold cleanup. rewrite purgeExpired_filter by exact Hi.
  set (live := filter _ (map_set uuid e c)).
  assert (Hll : map_size live <= map_size (map_set uuid e c)).
  { unfold map_size, live. pose proof (filter_length_le
      (fun kv : string * CachedResponse => negb (expired now (snd kv)))
      (map_set uuid e c)). lia. }
  rewrite evictOldest_within by lia. split; [|lia].
  apply In_map_get; [now apply uniqueKeys_filter|].
  apply filter_In. split; [apply map_set_self_In|]. simpl. now rewrite Hlive.
Qed.

Lemma store_existing_handle_witness :
  uniqueKeys sampleCache
  /\ map_has "h1" sampleCache = true
  /\ map_size sampleCache <= maxEntries
  /\ expired 5000 (mkCached sampleData "h1" 5000) = false
  /\ map_get "h1" (snd (store sampleData "h1" 5000 5000 sampleCache))
     = Some (mkCached sampleData "h1" 5000).
Proof.
  assert (Hu : uniqueKeys sampleCache) by (apply distinctb_NoDup; reflexivity).
  assert (Hs : map_size sampleCache <= maxEntries) by (vm_compute; discriminate).
  split; [exact Hu|]. split; [reflexivity|]. split; [exact Hs|]. split; [reflexivity|].
  exact (proj1 (store_existing_handle sampleData "h1" 5000 5000 sampleCache
                  Hu eq_refl Hs eq_refl)).
Defined.

(** X3. A [store] never adds or alters the entry of another handle: what
    another handle gives afterwards it gave before. *)
Theorem store_leaves_others (data : ResponseData) (uuid other : string)
  (created now : Z) (c : JsMap CachedResponse) (e : CachedResponse) :
  uniqueKeys c ->
  other <> uuid ->
  map_get other (snd (store data uuid created now c)) = Some e ->
  map_get other c = Some e.
Proof.
  intros Hu Hne Hget. unfold store in Hget. simpl snd in Hget.
  apply map_get_In, cleanup_incl, map_set_In in Hget as [H|H].
  - congruence.
  - now apply In_map_get.
Qed.

Lemma store_leaves_others_witness :
  uniqueKeys sampleCache
  /\ "h2" <> "h3"
  /\ map_get "h2" (snd (store sampleData "h3" 5000 5000 sampleCache))
     = Some (mkCachedResponse "h2" "list" 2000 "b" "" 0 "c2" [])
  /\ map_get "h2" sampleCache = Some (mkCachedResponse "h2" "list" 2000 "b" "" 0 "c2" []).
Proof.
  assert (Hu : uniqueKeys sampleCache) by (apply distinctb_NoDup; reflexivity).
  assert (Hne : "h2" <> "h3") by discriminate.
  assert (Hg : map_get "h2" (snd (store sampleData "h3" 5000 5000 sampleCache))
               = Some (mkCachedResponse "h2" "list" 2000 "b" "" 0 "c2" []))
    by reflexivity.
  split; [exact Hu|]. split; [exact Hne|]. split; [exact Hg|].
  exact (store_leaves_others sampleData "h3" "h2" 5000 5000 sampleCache _ Hu Hne Hg).
Defined.

(** X4. [delete] answers whether the handle was held; afterwards the
    handle is gone and every other handle is as before; deleting a handle
    the cache does not hold changes nothing. *)
Theorem delete_spec (k : string) (c : JsMap CachedResponse) :
  (fst (delete k c) = true <-> In k (map_keys c))
  /\ map_get k (snd (delete k c)) = None
  /\ (forall other, other <> k -> map_get other (snd (delete k c)) = map_get other c)
  /\ (fst (delete k c) = false -> snd (delete k c) = c).
Proof.
  unfold delete. simpl. split; [apply map_has_In|].
  split; [apply map_get_delete_eq|]. split.
  - intros other Hne. now apply map_get_delete_ne.
  - intros Hno. unfold map_delete. apply filter_all. intros kv Hin.
    apply negb_true_iff. apply String.eqb_neq. intros E.
    assert (Hk : map_has k c = true).
    { apply map_has_In. rewrite <- E. unfold map_keys. now apply in_map. }
    congruence.
Qed.

Lemma delete_spec_witness :
  "h2" <> "h1"
  /\ map_get "h2" (snd (delete "h1" sampleCache)) = map_get "h2" sampleCache
  /\ fst (delete "nope" sampleCache) = false
  /\ snd (delete "nope" sampleCache) = sampleCache.
Proof.
  assert (Hne : "h2" <> "h1") by discriminate.
  destruct (delete_spec "h1" sampleCache) as [_ [_ [Hother _]]].
  destruct (delete_spec "nope" sampleCache) as [_ [_ [_ Hsame]]].
  split; [exact Hne|]. split; [exact (Hother "h2" Hne)|].
  split; [reflexivity|]. exact (Hsame eq_refl).
Defined.

(** X5. A lookup changes the cache only by removing the expired entry it
    finds: a hit and a miss leave the cache as it is, and a second [get] of
    the same handle at the same time returns the same answer and changes
    nothing more. *)
Theorem get_settles (k : string) (now : Z) (c : JsMap CachedResponse) :
  get k now (snd (get k now c)) = (fst (get k now c), snd (get k now c))
  /\ (forall e, fst (get k now c) = Some e -> snd (get k now c) = c)
  /\ (map_get k c = None -> get k now c = (None, c)).
Proof.
  unfold get. destruct (map_get k c) as [cached|] eqn:E.
  - destruct (expired now cached) eqn:X; simpl.
    + rewrite map_get_delete_eq. repeat split; discriminate.
    + rewrite E, X. repeat split; discriminate.
  - simpl. rewrite E. repeat split.
Qed.

Lemma get_settles_witness :
  fst (get "h2" 2000 sampleCache) = Some (mkCachedResponse "h2" "list" 2000 "b" "" 0 "c2" [])
  /\ snd (get "h2" 2000 sampleCache) = sampleCache
  /\ map_get "nope" sampleCache = None
  /\ get "nope" 2000 sampleCache = (None, sampleCache).
Proof.
  destruct (get_settles "h2" 2000 sampleCache) as [_ [Hhit _]].
  destruct (get_settles "nope" 2000 sampleCache) as [_ [_ Hmiss]].
  split; [reflexivity|]. split; [exact (Hhit _ eq_refl)|].
  split; [reflexivity|]. exact (Hmiss eq_refl).
Defined.

(** X6. The [limit] of [getRecentByTool] is the [end] of a [slice]: a
    non-negative limit gives at most [limit] entries, a limit of 0 none;
    a negative limit [-n] does not give an empty list but everything
    except the [n] oldest of the matching entries. *)
Theorem getRecentByTool_limit (t : string) (limit : Z) (c : JsMap CachedResponse) :
  let matching :=
    sort_by byAgeDesc (filter (fun e => String.eqb (tool e) t) (map_values c)) in
  (0 <= limit ->
   getRecentByTool t limit c = firstn (Z.to_nat limit) matching
   /\ Z.of_nat (List.length (getRecentByTool t limit c)) <= limit)
  /\ (limit < 0 ->
      getRecentByTool t limit c
      = firstn (List.length matching - Z.to_nat (- limit)) matching).
Proof.
  intros matching. split.
  - intros H. unfold getRecentByTool. fold matching.
    rewrite slice_from_0 by exact H. split; [reflexivity|].
    rewrite length_firstn. lia.
  - intros H. unfold getRecentByTool. fold matching. unfold slice.
    replace (0 <? 0) with false by reflexivity.
    replace (limit <? 0) with true by (symmetry; apply Z.ltb_lt; lia).
    rewrite (Z.min_l 0) by lia. change (skipn (Z.to_nat 0) matching) with matching.
    f_equal. lia.
Qed.

Lemma getRecentByTool_limit_witness :
  0 <= 0
  /\ getRecentByTool "build" 0 (storeAll spacedCalls []) = []
  /\ -1 < 0
  /\ map fullOutput (getRecentByTool "build" (-1) (storeAll spacedCalls []))
     = ["third"; "second"].
Proof.
  destruct (getRecentByTool_limit "build" 0 (storeAll spacedCalls [])) as [H0 _].
  destruct (getRecentByTool_limit "build" (-1) (storeAll spacedCalls [])) as [_ Hneg].
  assert (Hz : 0 <= 0) by lia. assert (Hn : -1 < 0) by lia.
  split; [exact Hz|]. split; [rewrite (proj1 (H0 Hz)); reflexivity|].
  split; [exact Hn|]. rewrite (Hneg Hn). reflexivity.
Defined.

(* ----------------------------------------------------------------- *)
(** *** [getStats] *)

Lemma tallySum_set_counted (k : string) (n : Z) (m : JsMap Tally) :
  map_get k m = Some (Counted n) ->
  tallySum (map_set k (Counted (n + 1)) m) = tallySum m + 1.
Proof.
  induction m as [|[k' v'] m IH]; simpl; [discriminate|].
  destruct (String.eqb k' k).
  - intros [= ->]. simpl. lia.
  - intros H. simpl. destruct v'; rewrite IH by exact H; lia.
Qed.

Lemma tallySum_set_new (k : string) (m : JsMap Tally) :
  map_get k m = None ->
  tallySum (map_set k (Counted 1) m) = tallySum m + 1.
Proof.
  induction m as [|[k' v'] m IH]; simpl; [reflexivity|].
  destruct (String.eqb k' k); [discriminate|].
  intros H. simpl. destruct v'; rewrite IH by exact H; lia.
Qed.

(** The state of [byTool] while only plain names are counted: every value
    is a number, the number of entries seen for its tool. *)
Lemma tally_counts (tools : list string) (acc : JsMap Tally) (seen : string -> Z) :
  forallb plainName tools = true ->
  (forall t, map_get t acc = if seen t =? 0 then None else Some (Counted (seen t))) ->
  (forall t, 0 <= seen t) ->
  let final := fold_left tally tools acc in
  (forall t,
      map_get t final
      = let n := seen t + Z.of_nat (List.length (filter (String.eqb t) tools)) in
        if n =? 0 then None else Some (Counted n))
  /\ tallySum final = tallySum acc + Z.of_nat (List.length tools).
Proof.
  revert acc seen. induction tools as [|x tools IH];
    intros acc seen Hplain Hacc Hpos final; subst final.
  - simpl. split; [|lia]. intros t. rewrite Z.add_0_r. apply Hacc.
  - simpl in Hplain. apply andb_true_iff in Hplain as [Hx Hplain].
    unfold plainName in Hx. apply andb_true_iff in Hx as [Hp Hi].
    apply negb_true_iff in Hp, Hi.
    set (seen' := fun t => if String.eqb t x then seen t + 1 else seen t).
    assert (Hacc' : forall t,
               map_get t (tally acc x)
               = if seen' t =? 0 then None else Some (Counted (seen' t))).
    { intros t. unfold tally, seen'. rewrite (Hacc x).
      destruct (Z.eqb_spec (seen x) 0) as [E0|E0].
      - rewrite Hp, Hi.
        destruct (String.eqb_spec t x) as [->|Hne].
        + rewrite map_get_set_eq, E0. reflexivity.
        + rewrite map_get_set_ne by exact Hne. apply Hacc.
      - destruct (String.eqb_spec t x) as [->|Hne].
        + rewrite map_get_set_eq.
          destruct (Z.eqb_spec (seen x + 1) 0); [specialize (Hpos x); lia | reflexivity].
        + rewrite map_get_set_ne by exact Hne. apply Hacc. }
    assert (Hpos' : forall t, 0 <= seen' t).
    { intros t. unfold seen'. specialize (Hpos t). destruct (String.eqb t x); lia. }
    destruct (IH (tally acc x) seen' Hplain Hacc' Hpos') as [Hget Hsum].
    simpl fold_left. split.
    + intros t. rewrite Hget. unfold seen'. simpl filter.
      destruct (String.eqb t x); simpl List.length;
        replace (seen t + 1 + Z.of_nat (List.length (filter (String.eqb t) tools)))
          with (seen t + Z.of_nat (S (List.length (filter (String.eqb t) tools))))
          by lia; reflexivity.
    + rewrite Hsum. simpl List.length.
      assert (Hs : tallySum (tally acc x) = tallySum acc + 1).
      { unfold tally. rewrite (Hacc x).
        destruct (Z.eqb_spec (seen x) 0) as [E0|E0].
        - rewrite Hp, Hi. apply tallySum_set_new. rewrite (Hacc x), E0.
          reflexivity.
        - apply tallySum_set_counted. rewrite (Hacc x).
          destruct (Z.eqb_spec (seen x) 0); [contradiction | reflexivity]. }
      lia.
Qed.

Lemma fold_left_through_map {A B C : Type} (f : C -> B -> C) (g : A -> B)
  (l : list A) (acc : C) :
  fold_left (fun a x => f a (g x)) l acc = fold_left f (map g l) acc.
Proof.
  revert acc. induction l as [|x l IH]; intros acc; simpl; [reflexivity | apply IH].
Qed.

Lemma filter_tool_length (t : string) (l : list CachedResponse) :
  List.length (filter (String.eqb t) (map tool l))
  = List.length (filter (fun e => String.eqb (tool e) t) l).
Proof.
  induction l as [|e l IH]; [reflexivity|]. simpl.
  rewrite (String.eqb_sym t (tool e)).
  destruct (String.eqb (tool e) t); simpl; now rewrite IH.
Qed.

(** X7. [getStats] counts every entry the cache holds, expired ones
    included: when no tool is named like a property of [Object.prototype],
    [byTool] gives each tool the number of its entries, has no property for
    a tool without entries, and its numbers add up to [totalEntries]. *)
Theorem getStats_counts (c : JsMap CachedResponse) :
  forallb plainName (map tool (map_values c)) = true ->
  totalEntries (getStats c) = map_size c
  /\ (forall t,
         map_get t (byTool (getStats c))
         = if entriesFor t c =? 0 then None else Some (Counted (entriesFor t c)))
  /\ tallySum (byTool (getStats c)) = totalEntries (getStats c).
Proof.
  intros Hplain. unfold getStats. simpl. split; [reflexivity|].
  assert (Hfold : fold_left (fun acc cached => tally acc (tool cached)) (map_values c) []
                  = fold_left tally (map tool (map_values c)) []).
  { apply fold_left_through_map. }
  rewrite Hfold.
  destruct (tally_counts (map tool (map_values c)) [] (fun _ => 0) Hplain
              (fun _ => eq_refl) (fun _ => Z.le_refl 0)) as [Hget Hsum].
  assert (Hcount : forall t,
             Z.of_nat (List.length (filter (String.eqb t) (map tool (map_values c))))
             = entriesFor t c).
  { intros t. unfold entriesFor. f_equal. apply filter_tool_length. }
  split.
  - intros t. rewrite Hget. simpl. now rewrite Hcount.
  - rewrite Hsum. simpl. unfold map_size, map_values. now rewrite !length_map.
Qed.

Lemma getStats_counts_witness :
  forallb plainName (map tool (map_values sampleCache)) = true
  /\ map_get "build" (byTool (getStats sampleCache)) = Some (Counted 1)
  /\ map_get "test" (byTool (getStats sampleCache)) = None
  /\ tallySum (byTool (getStats sampleCache)) = 2.
Proof.
  assert (Hp : forallb plainName (map tool (map_values sampleCache)) = true)
    by reflexivity.
  destruct (getStats_counts sampleCache Hp) as [_ [Hget Hsum]].
  split; [exact Hp|]. split; [rewrite Hget; reflexivity|].
  split; [rewrite Hget; reflexivity|]. rewrite Hsum. reflexivity.
Defined.

(* ================================================================= *)
(** ** [extractBuildSummary]: consistency, the two streams *)

Lemma split_app (sep : ascii) (a b : string) :
  split sep (a ++ String sep b) = (split sep a ++ split sep b)%list.
Proof.
  induction a as [|c a IH].
  - simpl. now rewrite Ascii.eqb_refl.
  - change (split sep (String c (a ++ String sep b))
            = (split sep (String c a) ++ split sep b)%list).
    simpl. destruct (Ascii.eqb c sep); rewrite IH; [reflexivity|].
    destruct (split sep a) as [|l ls] eqn:E; [now apply split_nonempty in E|].
    reflexivity.
Qed.

(** X8. The fields of a build summary agree with each other: [hasErrors]
    and [hasWarnings] say whether the counts are positive, the lists hold
    no more entries than the counts and at most 10, [firstError] is the
    first entry of [errors], and it is missing exactly when there is no
    error. *)
Theorem extractBuildSummary_consistent (output stderr_ : string) (code : Z) :
  let s := extractBuildSummary output stderr_ code in
  hasErrors s = (errorCount s >? 0)
  /\ hasWarnings s = (warningCount s >? 0)
  /\ Z.of_nat (List.length (errors s)) <= errorCount s
  /\ Z.of_nat (List.length (warnings s)) <= warningCount s
  /\ Z.of_nat (List.length (errors s)) <= 10
  /\ Z.of_nat (List.length (warnings s)) <= 10
  /\ firstError s = hd_error (errors s)
  /\ (firstError s = None <-> errorCount s = 0)
  /\ (errors s = [] <-> errorCount s = 0).
Proof.
  intros s. unfold s, extractBuildSummary. simpl.
  rewrite !slice_from_0 by lia. rewrite !length_map, !length_firstn.
  set (errs := filter isErrorLine (combinedLines output stderr_)).
  repeat split; try lia.
  - destruct errs; reflexivity.
  - destruct errs; simpl; [reflexivity | discriminate].
  - destruct errs; simpl; [reflexivity | lia].
  - destruct errs; simpl; [reflexivity | discriminate].
  - destruct errs; simpl; [reflexivity | lia].
Qed.

Lemma extractBuildSummary_consistent_witness :
  firstError (extractBuildSummary "" "error: no such module" 65)
  = hd_error (errors (extractBuildSummary "" "error: no such module" 65))
  /\ firstError (extractBuildSummary "" "error: no such module" 65)
     = Some "error: no such module".
Proof.
  destruct (extractBuildSummary_consistent "" "error: no such module" 65)
    as [_ [_ [_ [_ [_ [_ [H _]]]]]]].
  split; [exact H | reflexivity].
Defined.

(** X9. The two streams are read line by line and never run into one
    line: the counts are the sum of the counts over the lines of stdout
    and over the lines of stderr, and [success] needs exit code 0 and a
    success-marker line in one of the two. *)
Theorem extractBuildSummary_streams (output stderr_ : string) (code : Z) :
  let s := extractBuildSummary output stderr_ code in
  combinedLines output stderr_ = (split newline output ++ split newline stderr_)%list
  /\ errorCount s
     = Z.of_nat (List.length (filter isErrorLine (split newline output)))
       + Z.of_nat (List.length (filter isErrorLine (split newline stderr_)))
  /\ warningCount s
     = Z.of_nat (List.length (filter isWarningLine (split newline output)))
       + Z.of_nat (List.length (filter isWarningLine (split newline stderr_)))
  /\ success s
     = (code =? 0)
       && (existsb isSuccessLine (split newline output)
           || existsb isSuccessLine (split newline stderr_)).
Proof.
  intros s.
  assert (E : combinedLines output stderr_
              = (split newline output ++ split newline stderr_)%list)
    by apply split_app.
  split; [exact E|]. unfold s, extractBuildSummary. simpl. rewrite E.
  rewrite existsb_filter_length, existsb_app, !filter_app, !length_app.
  repeat split; lia.
Qed.

(* ================================================================= *)
(** ** [executeCommandStreaming]: settling, the result, the fatal match *)

(** X10. The first settlement stands: once the promise is resolved or
    rejected, nothing the child or the timer delivers afterwards changes
    the outcome. *)
Theorem first_settlement_stands (opts : StreamingOptions) (evs more : list ChildEvent) :
  executeCommandStreaming opts evs <> Pending ->
  executeCommandStreaming opts (evs ++ more) = executeCommandStreaming opts evs.
Proof.
  unfold executeCommandStreaming. intros H. rewrite runFrom_app.
  now apply runFrom_settled.
Qed.

Lemma first_settlement_stands_witness :
  executeCommandStreaming tinyOptions [StdoutData "hello"] <> Pending
  /\ executeCommandStreaming tinyOptions ([StdoutData "hello"] ++ [Close (Some 0)])
     = Rejected (BufferExceeded 4).
Proof.
  assert (H : executeCommandStreaming tinyOptions [StdoutData "hello"] <> Pending)
    by discriminate.
  split; [exact H|].
  rewrite (first_settlement_stands tinyOptions [StdoutData "hello"] [Close (Some 0)] H).
  reflexivity.
Defined.

Lemma runFrom_stderr (opts : StreamingOptions) (evs : list ChildEvent) (s : ExecState) :
  st_stderr (runFrom opts s evs) = st_stderr s ++ stderrText evs.
Proof.
  revert s. induction evs as [|ev evs IH]; intros s; simpl.
  - now rewrite string_app_nil_r.
  - rewrite IH. destruct ev as [text|text| |code|message]; simpl.
    + unfold onStdout.
      destruct (checkPatterns_frame opts text
                  {| st_stdout := st_stdout s ++ text; st_stderr := st_stderr s;
                     st_timedOut := st_timedOut s; st_fatalMatch := st_fatalMatch s;
                     timerArmed := timerArmed s; kills := kills s;
                     notified := notified s; promise := promise s |})
        as [_ [He _]].
      destruct (strlen _ >? maxBuffer opts); simpl; now rewrite He.
    + rewrite (proj2 (proj2 (proj2 (proj2 (onStderr_frame opts text s))))).
      now rewrite string_app_assoc.
    + unfold onTimer. now destruct (timerArmed s).
    + reflexivity.
    + reflexivity.
Qed.

(** X11. When the process closes with the promise pending, the result
    holds everything delivered on stdout and on stderr, each joined in
    order of arrival and trimmed as a whole, and the exit code, 0 standing
    in for a missing one (a process ended by a signal). *)
Theorem resolved_result (opts : StreamingOptions) (evs : list ChildEvent)
  (code : option Z) :
  promise (runFrom opts initialState evs) = Pending ->
  exists r,
    executeCommandStreaming opts (evs ++ [Close code]) = Resolved r
    /\ r_stdout r = trim (stdoutText evs)
    /\ r_stderr r = trim (stderrText evs)
    /\ r_code r = match code with Some c => c | None => 0 end.
Proof.
  intros Hp. eexists. unfold executeCommandStreaming. rewrite runFrom_app. simpl.
  rewrite Hp. simpl. split; [reflexivity|]. simpl.
  rewrite runFrom_stdout, runFrom_stderr. repeat split.
Qed.

Lemma resolved_result_witness :
  promise (runFrom buildOptions initialState
             [StdoutData " a"; StderrData "x "; StdoutData "b "]) = Pending
  /\ exists r,
       executeCommandStreaming buildOptions
         ([StdoutData " a"; StderrData "x "; StdoutData "b "] ++ [Close None])
       = Resolved r
       /\ r_stdout r = "ab" /\ r_stderr r = "x" /\ r_code r = 0.
Proof.
  assert (Hp : promise (runFrom buildOptions initialState
                          [StdoutData " a"; StderrData "x "; StdoutData "b "]) = Pending)
    by reflexivity.
  split; [exact Hp|].
  destruct (resolved_result buildOptions
              [StdoutData " a"; StderrData "x "; StdoutData "b "] None Hp)
    as [r [Hr [Ho [He Hc]]]].
  exists r. split; [exact Hr|]. split; [exact Ho|]. split; [exact He | exact Hc].
Defined.

(** While no pattern matches the empty text, [notified] holds exactly the
    fatal match, if there is one. *)
Lemma fatal_latch (opts : StreamingOptions) (evs : list ChildEvent) (s : ExecState) :
  matchesNonEmpty opts ->
  st_fatalMatch s <> Some EmptyString ->
  notified s = match st_fatalMatch s with Some m => [m] | None => [] end ->
  st_fatalMatch (runFrom opts s evs) <> Some EmptyString
  /\ notified (runFrom opts s evs)
     = match st_fatalMatch (runFrom opts s evs) with Some m => [m] | None => [] end.
Proof.
  intros Hne. revert s.
  assert (Hcheck : forall chunk s,
             st_fatalMatch s <> Some EmptyString ->
             notified s = match st_fatalMatch s with Some m => [m] | None => [] end ->
             st_fatalMatch (checkPatterns opts chunk s) <> Some EmptyString
             /\ notified (checkPatterns opts chunk s)
                = match st_fatalMatch (checkPatterns opts chunk s) with
                  | Some m => [m]
                  | None => []
                  end).
  { intros chunk s H1 H2. unfold checkPatterns.
    destruct (st_fatalMatch s) as [m|] eqn:E; simpl.
    - destruct (String.eqb_spec m "") as [->|_]; [contradiction|]. simpl.
      rewrite E. tauto.
    - destruct (firstMatch (fatalPatterns opts) chunk) as [m|] eqn:F; simpl.
      + rewrite H2. split; [|reflexivity]. intros [= ->]. now apply (Hne chunk "").
      + rewrite E. tauto. }
  induction evs as [|ev evs IH]; intros s H1 H2; [tauto|].
  simpl. apply IH; destruct ev as [text|text| |code|message]; simpl; try assumption.
  - unfold onStdout. set (s1 := checkPatterns opts text _).
    assert (Hs : st_fatalMatch s1 <> Some EmptyString) by (apply Hcheck; assumption).
    destruct (strlen _ >? _); exact Hs.
  - unfold onStderr. apply Hcheck; assumption.
  - unfold onTimer. now destruct (timerArmed s).
  - unfold onStdout. set (s1 := checkPatterns opts text _).
    assert (Hs : notified s1
                 = match st_fatalMatch s1 with Some m => [m] | None => [] end)
      by (apply Hcheck; assumption).
    destruct (strlen _ >? _); exact Hs.
  - unfold onStderr. apply Hcheck; assumption.
  - unfold onTimer. now destruct (timerArmed s).
Qed.

(** X12. When no fatal pattern can match the empty text, the callback
    [onFatalMatch] is called at most once in a run, with the very text that
    ends up in [fatalMatch]; without a fatal match it is never called. *)
Theorem onFatalMatch_once (opts : StreamingOptions) (evs : list ChildEvent) :
  matchesNonEmpty opts ->
  let final := runFrom opts initialState evs in
  notified final = match st_fatalMatch final with Some m => [m] | None => [] end
  /\ (List.length (notified final) <= 1)%nat.
Proof.
  intros Hne final.
  destruct (fatal_latch opts evs initialState Hne) as [_ H];
    [discriminate | reflexivity |].
  fold final in H. split; [exact H|]. rewrite H.
  destruct (st_fatalMatch final); simpl; lia.
Qed.

Lemma onFatalMatch_once_witness :
  matchesNonEmpty passcodeOptions
  /\ notified (runFrom passcodeOptions initialState
                 [StderrData "passcode needed"; StdoutData "passcode again"; Close None])
     = ["passcode"].
Proof.
  assert (Hne : matchesNonEmpty passcodeOptions).
  { intros chunk m. simpl. destruct (includes "passcode" chunk); [|discriminate].
    intros [= <-]. discriminate. }
  split; [exact Hne|].
  destruct (onFatalMatch_once passcodeOptions
              [StderrData "passcode needed"; StdoutData "passcode again"; Close None] Hne)
    as [H _].
  rewrite H. reflexivity.
Defined.

(* ================================================================= *)
(** ** [executeCommandWithArgs] *)

Section SpawnFacts.

Variable opts : SpawnOptions.
Variable command_ : string.
Variable args : list string.

Lemma spawnHandle_settled (s : SpawnState) (ev : ChildEvent) :
  sp_promise s <> SpawnPending ->
  sp_promise (spawnHandle opts command_ args s ev) = sp_promise s.
Proof.
  intros H. destruct ev as [text|text| |code|message]; simpl.
  - destruct (_ >? _); simpl; [|reflexivity]. now destruct (sp_promise s).
  - reflexivity.
  - destruct (sp_timerArmed s); simpl; [|reflexivity]. now destruct (sp_promise s).
  - destruct (killed s); [reflexivity|]. now destruct (sp_promise s).
  - destruct (killed s); [reflexivity|]. now destruct (sp_promise s).
Qed.

Lemma spawnRun_settled (evs : list ChildEvent) (s : SpawnState) :
  sp_promise s <> SpawnPending ->
  sp_promise (spawnRun opts command_ args s evs) = sp_promise s.
Proof.
  revert s. induction evs as [|ev evs IH]; intros s H; simpl; [reflexivity|].
  rewrite IH; rewrite spawnHandle_settled by exact H; [reflexivity | exact H].
Qed.

(** From a clean state, a run that resolves has seen the process close
    before the timer fired and before stdout outgrew the buffer. *)
Lemma spawn_resolved_origin (evs : list ChildEvent) (s : SpawnState) (r : CommandResult) :
  spawnClean opts s ->
  sp_promise (spawnRun opts command_ args s evs) = SpawnResolved r ->
  exists pre code post,
    evs = (pre ++ Close code :: post)%list
    /\ existsb isTimerFired pre = false
    /\ strlen (sp_stdout s ++ stdoutText pre) <= sp_maxBuffer opts
    /\ r = {| c_stdout := trim (sp_stdout s ++ stdoutText pre);
              c_stderr := trim (sp_stderr s ++ stderrText pre);
              c_code := match code with Some c => c | None => 0 end |}.
Proof.
  revert s. induction evs as [|ev evs IH]; intros s [Hp [Hk [Ha Hb]]] Hr; simpl in Hr.
  - congruence.
  - destruct ev as [text|text| |code|message]; simpl in Hr.
    + destruct (strlen (sp_stdout s ++ text) >? sp_maxBuffer opts) eqn:E.
      * rewrite spawnRun_settled in Hr; simpl in *; rewrite Hp in *; simpl in *;
          congruence.
      * apply IH in Hr as [pre [code [post [E1 [E2 [E3 E4]]]]]].
        -- simpl in E3, E4. rewrite string_app_assoc in E3, E4.
           exists (StdoutData text :: pre), code, post. subst evs. simpl. tauto.
        -- unfold spawnClean. simpl. rewrite Z.gtb_ltb in E. apply Z.ltb_ge in E. tauto.
    + apply IH in Hr as [pre [code [post [E1 [E2 [E3 E4]]]]]].
      * simpl in E3, E4. rewrite string_app_assoc in E4.
        exists (StderrData text :: pre), code, post. subst evs. simpl. tauto.
      * unfold spawnClean. simpl. tauto.
    + rewrite Ha in Hr.
      rewrite spawnRun_settled in Hr; simpl in *; rewrite Hp in *; simpl in *;
        congruence.
    + rewrite Hk, Hp in Hr. simpl in Hr.
      rewrite spawnRun_settled in Hr by (simpl; discriminate). simpl in Hr.
      injection Hr as <-.
      exists [], code, evs. simpl. rewrite !string_app_nil_r. tauto.
    + rewrite Hk, Hp in Hr. simpl in Hr.
      rewrite spawnRun_settled in Hr; simpl in *; congruence.
Qed.

(** A run from a clean state that is still pending is still clean. *)
Lemma spawn_pending_clean (evs : list ChildEvent) (s : SpawnState) :
  spawnClean opts s ->
  sp_promise (spawnRun opts command_ args s evs) = SpawnPending ->
  spawnClean opts (spawnRun opts command_ args s evs).
Proof.
  revert s. induction evs as [|ev evs IH]; intros s [Hp [Hk [Ha Hb]]] Hr; simpl in *.
  - unfold spawnClean. tauto.
  - destruct ev as [text|text| |code|message]; simpl in *.
    + destruct (strlen (sp_stdout s ++ text) >? sp_maxBuffer opts) eqn:E.
      * rewrite spawnRun_settled in Hr; simpl in *; rewrite Hp in *; simpl in *;
          congruence.
      * apply IH; [|exact Hr]. unfold spawnClean. simpl.
        rewrite Z.gtb_ltb in E. apply Z.ltb_ge in E. tauto.
    + apply IH; [|exact Hr]. unfold spawnClean. simpl. tauto.
    + rewrite Ha in Hr.
      rewrite spawnRun_settled in Hr; simpl in *; rewrite Hp in *; simpl in *;
        congruence.
    + rewrite Hk, Hp in Hr. simpl in Hr.
      rewrite spawnRun_settled in Hr; simpl in *; congruence.
    + rewrite Hk, Hp in Hr. simpl in Hr.
      rewrite spawnRun_settled in Hr; simpl in *; congruence.
Qed.

Lemma spawnRun_app (evs evs' : list ChildEvent) (s : SpawnState) :
  spawnRun opts command_ args s (evs ++ evs')
  = spawnRun opts command_ args (spawnRun opts command_ args s evs) evs'.
Proof. unfold spawnRun. apply fold_left_app. Qed.

End SpawnFacts.

(** X13. [executeCommandWithArgs] resolves only for a run in which the
    process closed before the timer fired and before stdout outgrew the
    buffer; the result then holds the trimmed stdout and stderr delivered
    before the close, and the exit code, 0 for a missing one. *)
Theorem withArgs_resolves_clean (opts : SpawnOptions) (command_ : string)
  (args : list string) (evs : list ChildEvent) (r : CommandResult) :
  0 <= sp_maxBuffer opts ->
  executeCommandWithArgs opts command_ args evs = SpawnResolved r ->
  exists pre code post,
    evs = (pre ++ Close code :: post)%list
    /\ existsb isTimerFired pre = false
    /\ strlen (stdoutText pre) <= sp_maxBuffer opts
    /\ r = {| c_stdout := trim (stdoutText pre);
              c_stderr := trim (stderrText pre);
              c_code := match code with Some c => c | None => 0 end |}.
Proof.
  intros Hb Hr.
  apply (spawn_resolved_origin opts command_ args evs spawnInitial r); [|exact Hr].
  unfold spawnClean. simpl. tauto.
Qed.

Lemma withArgs_resolves_clean_witness :
  0 <= sp_maxBuffer defaultSpawnOptions
  /\ executeCommandWithArgs defaultSpawnOptions "xcrun" ["simctl"; "list"]
       [StdoutData "== Devices =="; Close (Some 0); TimerFired]
     = SpawnResolved (mkCommandResult "== Devices ==" "" 0)
  /\ exists pre code post,
       [StdoutData "== Devices =="; Close (Some 0); TimerFired]
       = (pre ++ Close code :: post)%list
       /\ existsb isTimerFired pre = false.
Proof.
  assert (Hb : 0 <= sp_maxBuffer defaultSpawnOptions) by (simpl; lia).
  assert (Hr : executeCommandWithArgs defaultSpawnOptions "xcrun" ["simctl"; "list"]
                 [StdoutData "== Devices =="; Close (Some 0); TimerFired]
               = SpawnResolved (mkCommandResult "== Devices ==" "" 0)) by reflexivity.
  split; [exact Hb|]. split; [exact Hr|].
  destruct (withArgs_resolves_clean _ _ _ _ _ Hb Hr) as [pre [code [post [E [T _]]]]].
  exists pre, code, post. split; [exact E | exact T].
Defined.

(** X14. In [executeCommandWithArgs] a timeout is an error: when the timer
    fires with the promise pending the promise is rejected as timed out,
    and nothing that follows, not even a close with exit code 0, changes
    that. *)
Theorem withArgs_timeout_rejects (opts : SpawnOptions) (command_ : string)
  (args : list string) (evs more : list ChildEvent) :
  0 <= sp_maxBuffer opts ->
  executeCommandWithArgs opts command_ args evs = SpawnPending ->
  executeCommandWithArgs opts command_ args (evs ++ TimerFired :: more)
  = SpawnRejected (SpawnTimedOut (sp_timeout opts) command_ args).
Proof.
  intros Hb Hp. unfold executeCommandWithArgs in *.
  assert (Hc : spawnClean opts (spawnRun opts command_ args spawnInitial evs)).
  { apply spawn_pending_clean; [|exact Hp]. unfold spawnClean. simpl. tauto. }
  destruct Hc as [Hpp [_ [Ha _]]].
  rewrite spawnRun_app. simpl. rewrite Ha.
  rewrite spawnRun_settled; simpl; rewrite Hpp; simpl; [reflexivity | discriminate].
Qed.

Lemma withArgs_timeout_rejects_witness :
  0 <= sp_maxBuffer defaultSpawnOptions
  /\ executeCommandWithArgs defaultSpawnOptions "idb" ["list-targets"]
       [StdoutData "partial"] = SpawnPending
  /\ executeCommandWithArgs defaultSpawnOptions "idb" ["list-targets"]
       ([StdoutData "partial"] ++ TimerFired :: [Close (Some 0)])
     = SpawnRejected (SpawnTimedOut 300000 "idb" ["list-targets"]).
Proof.
  assert (Hb : 0 <= sp_maxBuffer defaultSpawnOptions) by (simpl; lia).
  assert (Hp : executeCommandWithArgs defaultSpawnOptions "idb" ["list-targets"]
                 [StdoutData "partial"] = SpawnPending) by reflexivity.
  split; [exact Hb|]. split; [exact Hp|].
  exact (withArgs_timeout_rejects defaultSpawnOptions "idb" ["list-targets"]
           [StdoutData "partial"] [Close (Some 0)] Hb Hp).
Defined.

Lemma spawnRun_stdout (opts : SpawnOptions) (command_ : string) (args : list string)
  (evs : list ChildEvent) (s : SpawnState) :
  sp_stdout (spawnRun opts command_ args s evs) = sp_stdout s ++ stdoutText evs.
Proof.
  revert s. induction evs as [|ev evs IH]; intros s.
  - simpl. now rewrite string_app_nil_r.
  - change (spawnRun opts command_ args s (ev :: evs))
      with (spawnRun opts command_ args (spawnHandle opts command_ args s ev) evs).
    rewrite IH.
    destruct ev as [text|text| |code|message]; simpl; try reflexivity.
    + destruct (_ >? _); simpl; now rewrite string_app_assoc.
    + now destruct (sp_timerArmed s).
Qed.

(** X15. [executeCommandWithArgs] measures stdout only: a chunk of stdout
    that brings the collected stdout above [maxBuffer] rejects the pending
    promise as over the buffer, whatever follows, while a chunk of stderr
    of any size leaves the promise pending. *)
Theorem withArgs_buffer_rejects (opts : SpawnOptions) (command_ : string)
  (args : list string) (evs more : list ChildEvent) (text : string) :
  0 <= sp_maxBuffer opts ->
  executeCommandWithArgs opts command_ args evs = SpawnPending ->
  (strlen (stdoutText evs ++ text) > sp_maxBuffer opts ->
   executeCommandWithArgs opts command_ args (evs ++ StdoutData text :: more)
   = SpawnRejected (SpawnBufferExceeded (sp_maxBuffer opts)))
  /\ executeCommandWithArgs opts command_ args (evs ++ [StderrData text]) = SpawnPending.
Proof.
  intros Hb Hp. unfold executeCommandWithArgs in *.
  rewrite !spawnRun_app. split.
  - intros Hlen. simpl.
    rewrite spawnRun_stdout.
    change (sp_stdout spawnInitial ++ stdoutText evs) with (stdoutText evs).
    replace (strlen (stdoutText evs ++ text) >? sp_maxBuffer opts) with true
      by (symmetry; rewrite Z.gtb_ltb; apply Z.ltb_lt; lia).
    rewrite spawnRun_settled; simpl; rewrite Hp; simpl; [reflexivity | discriminate].
  - simpl. exact Hp.
Qed.

Lemma withArgs_buffer_rejects_witness :
  0 <= sp_maxBuffer (mkSpawnOptions 1000 4)
  /\ executeCommandWithArgs (mkSpawnOptions 1000 4) "idb" ["log"]
       [StdoutData "abc"; StderrData "a long line on stderr"] = SpawnPending
  /\ executeCommandWithArgs (mkSpawnOptions 1000 4) "idb" ["log"]
       ([StdoutData "abc"; StderrData "a long line on stderr"]
        ++ StdoutData "de" :: [Close (Some 0)])
     = SpawnRejected (SpawnBufferExceeded 4).
Proof.
  assert (Hb : 0 <= sp_maxBuffer (mkSpawnOptions 1000 4)) by (simpl; lia).
  assert (Hp : executeCommandWithArgs (mkSpawnOptions 1000 4) "idb" ["log"]
                 [StdoutData "abc"; StderrData "a long line on stderr"] = SpawnPending)
    by reflexivity.
  split; [exact Hb|]. split; [exact Hp|].
  destruct (withArgs_buffer_rejects (mkSpawnOptions 1000 4) "idb" ["log"]
              [StdoutData "abc"; StderrData "a long line on stderr"]
              [Close (Some 0)] "de" Hb Hp) as [H _].
  apply H. vm_compute. reflexivity.
Defined.

(* ================================================================= *)
(** ** More on destination resolution *)

Lemma strlen_pos (s : string) : (strlen s >? 0) = negb (String.eqb s EmptyString).
Proof.
  destruct s as [|c s]; [reflexivity|].
  unfold strlen. simpl String.length. simpl String.eqb. simpl negb.
  rewrite Z.gtb_ltb. apply Z.ltb_lt. lia.
Qed.

Lemma trim_nonempty (d : string) : trim d <> EmptyString -> d <> EmptyString.
Proof. intros H ->. now apply H. Qed.

(** X16. The caller's destination wins: an explicit destination that is
    not blank is returned as given, whatever the SDK, the cached
    configuration and the simulators are; a blank one (empty or white space
    only) counts as not given. *)
Theorem resolveDestination_explicit (sc : SimulatorCache) (params : ResolveParams)
  (d : string) :
  explicitDestination params = Some d ->
  (trim d <> EmptyString -> resolveDestination sc params = Some d)
  /\ (trim d = EmptyString ->
      resolveDestination sc params
      = resolveDestination sc (withoutExplicitDestination params)).
Proof.
  intros He. unfold resolveDestination. rewrite He. rewrite strlen_pos. split.
  - intros Ht. pose proof (trim_nonempty d Ht) as Hd.
    apply String.eqb_neq in Ht, Hd. simpl. now rewrite Ht, Hd.
  - intros Ht. rewrite Ht. simpl String.eqb. simpl negb. rewrite andb_false_r.
    reflexivity.
Qed.

Lemma resolveDestination_explicit_witness :
  resolveDestination emptySimulatorCache
    {| explicitDestination := Some "platform=macOS";
       preferredConfig := Some (cachedConfig "platform=iOS Simulator,id=CACHED");
       projectPath := "SpaceTime.xcodeproj";
       p_sdk := Some "iphonesimulator" |}
  = Some "platform=macOS"
  /\ resolveDestination emptySimulatorCache
       {| explicitDestination := Some "   ";
          preferredConfig := Some (cachedConfig "platform=iOS Simulator,id=CACHED");
          projectPath := "SpaceTime.xcodeproj";
          p_sdk := Some "iphonesimulator" |}
     = Some "platform=iOS Simulator,id=CACHED".
Proof.
  split.
  - apply (resolveDestination_explicit emptySimulatorCache
             {| explicitDestination := Some "platform=macOS";
                preferredConfig := Some (cachedConfig "platform=iOS Simulator,id=CACHED");
                projectPath := "SpaceTime.xcodeproj";
                p_sdk := Some "iphonesimulator" |}
             "platform=macOS" eq_refl).
    discriminate.
  - rewrite (proj2 (resolveDestination_explicit emptySimulatorCache
                      {| explicitDestination := Some "   ";
                         preferredConfig :=
                           Some (cachedConfig "platform=iOS Simulator,id=CACHED");
                         projectPath := "SpaceTime.xcodeproj";
                         p_sdk := Some "iphonesimulator" |}
                      "   " eq_refl) eq_refl).
    reflexivity.
Defined.

(** X17. For an SDK that names a platform and is no simulator SDK (a
    device SDK such as "iphoneos", or "macosx") the resolver never turns to
    the simulators: whatever the simulator cache holds, the result is the
    explicit destination, the cached one, or none. *)
Theorem resolveDestination_device_sdk (sc sc' : SimulatorCache) (params : ResolveParams) :
  platform (deriveSdkInfo (p_sdk params)) <> None ->
  isSimulator (deriveSdkInfo (p_sdk params)) = false ->
  resolveDestination sc params = resolveDestination sc' params
  /\ (resolveDestination sc params = explicitDestination params
      \/ resolveDestination sc params = preferredDestination (preferredConfig params)
      \/ resolveDestination sc params = None).
Proof.
  intros Hp Hs. unfold resolveDestination.
  destruct (truthy (explicitDestination params) && _); [auto|].
  destruct (truthy (preferredDestination (preferredConfig params)) && _); [auto|].
  rewrite Hs, deriveSdkInfo_truthy.
  destruct (platform (deriveSdkInfo (p_sdk params))) as [p|]; [|congruence].
  destruct (String.eqb p "macos"); simpl; auto.
Qed.

Lemma resolveDestination_device_sdk_witness :
  resolveDestination tvSimulatorCache
    {| explicitDestination := None; preferredConfig := None;
       projectPath := "SpaceTime.xcodeproj"; p_sdk := Some "appletvos" |}
  = resolveDestination emptySimulatorCache
      {| explicitDestination := None; preferredConfig := None;
         projectPath := "SpaceTime.xcodeproj"; p_sdk := Some "appletvos" |}
  /\ resolveDestination tvSimulatorCache
       {| explicitDestination := None; preferredConfig := None;
          projectPath := "SpaceTime.xcodeproj"; p_sdk := Some "appletvsimulator" |}
     = Some "platform=tvOS Simulator,id=TV-1".
Proof.
  split; [|reflexivity].
  apply (resolveDestination_device_sdk tvSimulatorCache emptySimulatorCache
           {| explicitDestination := None; preferredConfig := None;
              projectPath := "SpaceTime.xcodeproj"; p_sdk := Some "appletvos" |}).
  - discriminate.
  - reflexivity.
Defined.

Lemma firstAvailable_origin (hint : string) (devices : list (string * list SimulatorDevice))
  (d : string) :
  hint <> EmptyString ->
  firstAvailable (Some hint) devices = Some d ->
  exists runtime devs dev,
    In (runtime, devs) devices /\ In dev devs /\ isAvailable dev = true
    /\ runtimeMatchesPlatform runtime hint = true
    /\ d = buildDestinationFromUdid (udid dev) (Some runtime).
Proof.
  intros Hh. apply String.eqb_neq in Hh.
  induction devices as [|[runtime devs] rest IH]; intros H; [discriminate|].
  simpl in H. rewrite Hh in H. simpl in H.
  destruct (runtimeMatchesPlatform runtime hint) eqn:Em; simpl in H.
  - destruct (find isAvailable devs) as [dev|] eqn:Ef.
    + injection H as <-. apply find_some in Ef as [Hin Hav].
      exists runtime, devs, dev. repeat split; auto. now left.
    + destruct (IH H) as [r [ds [dev [H1 H2]]]].
      exists r, ds, dev. split; [now right | exact H2].
  - destruct (IH H) as [r [ds [dev [H1 H2]]]].
    exists r, ds, dev. split; [now right | exact H2].
Qed.

(** X18. With a platform hint, a destination suggested from the simulators
    is always made from a simulator listed under a runtime whose name
    holds the hint (letter case aside): either the project's preferred
    simulator, or the first available simulator of the first such
    runtime. *)
Theorem smart_destination_matches_hint (sc : SimulatorCache) (path hint d : string) :
  hint <> EmptyString ->
  getSmartSimulatorDestination sc path (Some hint) = Some d ->
  exists devices runtime devs dev,
    getSimulatorList sc = Some devices
    /\ In (runtime, devs) devices
    /\ In dev devs
    /\ runtimeMatchesPlatform runtime hint = true
    /\ d = buildDestinationFromUdid (udid dev) (Some runtime)
    /\ (isAvailable dev = true
        \/ exists sim, getPreferredSimulator sc path = Some (Some sim)
                       /\ udid sim = udid dev).
Proof.
  intros Hh H. unfold getSmartSimulatorDestination in H.
  assert (Ht : truthy (Some hint) = true).
  { simpl. apply negb_true_iff. now apply String.eqb_neq. }
  destruct (getPreferredSimulator sc path) as [[sim|]|] eqn:Ep; [| |discriminate].
  - destruct (getSimulatorList sc) as [devices|] eqn:El; [|discriminate].
    rewrite Ht in H. simpl negb in H. simpl orb in H.
    destruct (findRuntimeForUdid devices (udid sim)) as [r|] eqn:Er.
    + destruct (truthy (Some r) && runtimeMatchesPlatform r hint) eqn:Em.
      * injection H as <-. apply andb_true_iff in Em as [_ Em].
        unfold findRuntimeForUdid in Er.
        destruct (find _ devices) as [[r' devs]|] eqn:Ef; [|discriminate].
        simpl in Er. injection Er as ->.
        apply find_some in Ef as [Hin Hex]. simpl in Hex.
        apply existsb_exists in Hex as [dev [Hdev Hu]].
        apply String.eqb_eq in Hu.
        exists devices, r, devs, dev. repeat split; auto.
        -- now rewrite Hu.
        -- right. exists sim. auto.
      * destruct (firstAvailable_origin hint devices d Hh H)
          as [r' [devs [dev [H1 [H2 [H3 [H4 H5]]]]]]].
        exists devices, r', devs, dev. repeat split; auto.
    + simpl in H.
      destruct (firstAvailable_origin hint devices d Hh H)
        as [r' [devs [dev [H1 [H2 [H3 [H4 H5]]]]]]].
      exists devices, r', devs, dev. repeat split; auto.
  - destruct (getSimulatorList sc) as [devices|] eqn:El; [|discriminate].
    destruct (firstAvailable_origin hint devices d Hh H)
      as [r' [devs [dev [H1 [H2 [H3 [H4 H5]]]]]]].
    exists devices, r', devs, dev. repeat split; auto.
Qed.

Lemma smart_destination_matches_hint_witness :
  getSmartSimulatorDestination tvSimulatorCache "SpaceTime.xcodeproj" (Some "tvos")
  = Some "platform=tvOS Simulator,id=TV-1"
  /\ exists devices runtime devs dev,
       getSimulatorList tvSimulatorCache = Some devices
       /\ In (runtime, devs) devices
       /\ In dev devs
       /\ runtimeMatchesPlatform runtime "tvos" = true.
Proof.
  assert (Hh : "tvos" <> EmptyString) by discriminate.
  assert (H : getSmartSimulatorDestination tvSimulatorCache "SpaceTime.xcodeproj"
                (Some "tvos")
              = Some "platform=tvOS Simulator,id=TV-1") by reflexivity.
  split; [exact H|].
  destruct (smart_destination_matches_hint tvSimulatorCache "SpaceTime.xcodeproj"
              "tvos" "platform=tvOS Simulator,id=TV-1" Hh H)
    as [devices [runtime [devs [dev [H1 [H2 [H3 [H4 _]]]]]]]].
  exists devices, runtime, devs, dev. auto.
Defined.

(* ================================================================= *)
(** ** More on what the build tool reports *)

(** A text that trims to nothing holds no word that begins with a
    character other than white space. *)
Lemma trim_empty_includes (a : ascii) (p s : string) :
  isWhiteSpace a = false ->
  trim s = EmptyString -> includes (String a p) s = false.
Proof.
  intros Ha. induction s as [|c s IH]; intros Ht; [reflexivity|].
  unfold trim in Ht. simpl trimStart in Ht.
  destruct (isWhiteSpace c) eqn:Ec.
  - simpl. rewrite (IH Ht), orb_false_r.
    destruct (Ascii.eqb_spec a c) as [->|_]; [congruence | reflexivity].
  - simpl trimEnd in Ht. rewrite Ec in Ht.
    destruct (trimEnd s); discriminate.
Qed.

Lemma error_line_not_blank (line : string) :
  isErrorLine line = true -> trim line <> EmptyString.
Proof.
  unfold isErrorLine. intros H Ht.
  rewrite (trim_empty_includes "e" "rror:" line eq_refl Ht) in H.
  rewrite (trim_empty_includes "*" "* BUILD FAILED **" line eq_refl Ht) in H.
  discriminate.
Qed.

Lemma firstError_truthy (output stderr_ : string) (code : Z) :
  truthy (firstError (extractBuildSummary output stderr_ code))
  = negb (errorCount (extractBuildSummary output stderr_ code) =? 0).
Proof.
  unfold extractBuildSummary. simpl.
  destruct (filter isErrorLine (combinedLines output stderr_)) as [|l ls] eqn:E;
    [reflexivity|].
  simpl hd_error. simpl option_map. simpl truthy.
  assert (Hl : isErrorLine l = true).
  { assert (Hin : In l (filter isErrorLine (combinedLines output stderr_)))
      by (rewrite E; now left).
    now apply filter_In in Hin. }
  apply error_line_not_blank, String.eqb_neq in Hl. rewrite Hl.
  simpl List.length. symmetry. apply negb_true_iff, Z.eqb_neq. lia.
Qed.

Lemma errors_nil (output stderr_ : string) (code : Z) :
  errors (extractBuildSummary output stderr_ code) = []
  <-> errorCount (extractBuildSummary output stderr_ code) = 0.
Proof.
  unfold extractBuildSummary. simpl.
  destruct (filter isErrorLine (combinedLines output stderr_)) as [|l ls].
  - split; reflexivity.
  - rewrite slice_from_0 by lia. simpl. split; [discriminate | lia].
Qed.

Lemma nonEmptyOrUndefined_None {A : Type} (l : list A) :
  nonEmptyOrUndefined l = None <-> l = [].
Proof.
  unfold nonEmptyOrUndefined. destruct l as [|x l].
  - split; reflexivity.
  - replace (Z.of_nat (List.length (x :: l)) >? 0) with true.
    + split; discriminate.
    + symmetry. rewrite Z.gtb_ltb. apply Z.ltb_lt. simpl List.length. lia.
Qed.

(** X19. The tool's response names a first error exactly when it lists
    errors, and it does neither exactly when the log has no error line, no
    fatal pattern matched and the run did not time out; a run that timed
    out is never a success and its list of errors begins with the timeout
    message. *)
Theorem build_errors_consistent (result : StreamingCommandResult) :
  let summary := extractBuildSummary (r_stdout result) (r_stderr result) (r_code result) in
  let out := buildToolResult result in
  (response_errors out = None
   <-> errorCount summary = 0 /\ truthy (fatalMatch result) = false
       /\ timedOut result = false)
  /\ (response_firstError out = None <-> response_errors out = None)
  /\ (timedOut result = true ->
      response_success out = false
      /\ exists rest,
           response_errors out = Some ("Build aborted after 55000ms (timeout)" :: rest)).
Proof.
  intros summary out.
  pose proof (firstError_truthy (r_stdout result) (r_stderr result) (r_code result)) as Hf.
  pose proof (errors_nil (r_stdout result) (r_stderr result) (r_code result)) as He.
  fold summary in Hf, He.
  assert (H1 : response_errors out = None
               <-> errorCount summary = 0 /\ truthy (fatalMatch result) = false
                   /\ timedOut result = false).
  { unfold out, buildToolResult. cbn [response_errors]. fold summary.
    rewrite nonEmptyOrUndefined_None.
    destruct (timedOut result).
    - split; [discriminate | intros [_ [_ H]]; discriminate].
    - destruct (fatalMatch result) as [m|].
      + destruct (truthy (Some m)) eqn:Em.
        * split; [discriminate | intros [_ [H _]]; discriminate].
        * rewrite He. tauto.
      + rewrite He. cbn [truthy]. tauto. }
  assert (H2 : response_firstError out = None
               <-> errorCount summary = 0 /\ truthy (fatalMatch result) = false
                   /\ timedOut result = false).
  { unfold out, buildToolResult. cbn [response_firstError]. fold summary.
    unfold orElse. rewrite Hf.
    destruct (errorCount summary =? 0) eqn:Ec; cbn [negb].
    - apply Z.eqb_eq in Ec.
      destruct (truthy (fatalMatch result)) eqn:Em.
      + split; [intros H; rewrite H in Em; discriminate|].
        intros [_ [H _]]. discriminate.
      + destruct (timedOut result).
        * split; [discriminate | intros [_ [_ H]]; discriminate].
        * tauto.
    - apply Z.eqb_neq in Ec. rewrite Hf. cbn [negb].
      destruct (firstError summary) as [fe|] eqn:Efe.
      + split; [discriminate | tauto].
      + discriminate Hf. }
  split; [exact H1|]. split; [rewrite H1; exact H2|].
  intros Ht. unfold out, buildToolResult.
  cbn [response_success response_errors]. rewrite Ht. split; [apply andb_false_r|].
  unfold nonEmptyOrUndefined. eexists.
  match goal with
  | |- (if ?c then _ else _) = _ => replace c with true; [reflexivity|]
  end.
  symmetry. rewrite Z.gtb_ltb. apply Z.ltb_lt. cbn [List.length]. lia.
Qed.

Lemma build_errors_consistent_witness :
  timedOut (mkStreamingResult "** BUILD SUCCEEDED **" "" 0 true None) = true
  /\ response_success
       (buildToolResult (mkStreamingResult "** BUILD SUCCEEDED **" "" 0 true None)) = false
  /\ response_firstError
       (buildToolResult (mkStreamingResult "** BUILD SUCCEEDED **" "" 0 true None))
     <> None.
Proof.
  destruct (build_errors_consistent
              (mkStreamingResult "** BUILD SUCCEEDED **" "" 0 true None))
    as [_ [H2 H3]].
  split; [reflexivity|]. split.
  - exact (proj1 (H3 eq_refl)).
  - intros H. apply H2 in H. destruct (H3 eq_refl) as [_ [rest Hr]]. congruence.
Defined.

(* ================================================================= *)
(** ** [executeCommand] and [executeCommandSync] *)

Lemma codeOr1_nonzero (c : JsCode) :
  codeOr1 c <> NumberCode 0 /\ codeOr1 c <> TextCode EmptyString.
Proof.
  destruct c as [|n|s]; simpl.
  - split; discriminate.
  - destruct (Z.eqb_spec n 0) as [_|Hn]; split; try discriminate. congruence.
  - destruct (String.eqb_spec s EmptyString) as [_|Hs]; split; try discriminate.
    congruence.
Qed.

Lemma trimmedOr_empty (s : option string) (fallback : string) :
  trimmedOr s fallback = EmptyString -> fallback = EmptyString.
Proof.
  unfold trimmedOr. destruct s as [t|]; [|auto].
  destruct (String.eqb_spec (trim t) EmptyString); [auto | contradiction].
Qed.

(** X20. [executeCommand] and [executeCommandSync] never report a failed
    command with exit code 0: the code of a failure is the error's own
    code (for [exec] possibly the name of a system error, a text), and 1
    when that is missing, 0 or empty.  The stderr of a failure falls back
    on the error's message, and an error with code "ETIMEDOUT" makes
    [executeCommand] throw. *)
Theorem failure_never_code_zero (timeout : Z) (command_ : string) (e : ExecError) :
  (forall r, executeCommand timeout command_ (Failed e) = Returned r ->
     x_code r <> NumberCode 0
     /\ x_code r = codeOr1 (e_code e)
     /\ (x_stderr r = EmptyString -> e_message e = EmptyString))
  /\ (e_code e = TextCode "ETIMEDOUT" <->
      executeCommand timeout command_ (Failed e) = ThrownTimedOut timeout command_)
  /\ x_code (executeCommandSync (SyncFailed e)) <> NumberCode 0
  /\ (x_stderr (executeCommandSync (SyncFailed e)) = EmptyString ->
      e_message e = EmptyString).
Proof.
  split; [|split; [|split]].
  - intros r H. simpl in H.
    assert (Hr : r = failureResult e (codeOr1 (e_code e))).
    { destruct (e_code e) as [|n|s]; try (injection H as <-; reflexivity).
      destruct (String.eqb s "ETIMEDOUT"); [discriminate|].
      injection H as <-; reflexivity. }
    subst r. simpl. split; [apply codeOr1_nonzero|]. split; [reflexivity|].
    apply trimmedOr_empty.
  - simpl. destruct (e_code e) as [|n|s]; try (split; discriminate).
    destruct (String.eqb_spec s "ETIMEDOUT") as [->|Hs]; split; try reflexivity;
      try discriminate.
    intros H. congruence.
  - simpl. apply codeOr1_nonzero.
  - simpl. apply trimmedOr_empty.
Qed.

Lemma failure_never_code_zero_witness :
  executeCommand 300000 "xcodebuild -list"
    (Failed (mkExecError None (Some "  ") "spawn ENOENT" (NumberCode 0) None))
  = Returned (mkExecResult "" "spawn ENOENT" (NumberCode 1))
  /\ x_code (mkExecResult "" "spawn ENOENT" (NumberCode 1)) <> NumberCode 0.
Proof.
  assert (H : executeCommand 300000 "xcodebuild -list"
                (Failed (mkExecError None (Some "  ") "spawn ENOENT" (NumberCode 0) None))
              = Returned (mkExecResult "" "spawn ENOENT" (NumberCode 1)))
    by reflexivity.
  split; [exact H|].
  destruct (failure_never_code_zero 300000 "xcodebuild -list"
              (mkExecError None (Some "  ") "spawn ENOENT" (NumberCode 0) None))
    as [H1 _].
  exact (proj1 (H1 _ H)).
Defined.

(* ================================================================= *)
(** ** Command lines *)

Lemma join_cons (sep p : string) (rest : list string) :
  rest <> [] -> join sep (p :: rest) = p ++ sep ++ join sep rest.
Proof. destruct rest; [contradiction | reflexivity]. Qed.

Lemma join_app (sep : string) (l1 l2 : list string) :
  l1 <> [] -> l2 <> [] ->
  join sep (l1 ++ l2)%list = join sep l1 ++ sep ++ join sep l2.
Proof.
  intros H1 H2. induction l1 as [|p l1 IH]; [contradiction|].
  destruct l1 as [|q l1].
  - simpl app. now rewrite join_cons.
  - change ((p :: q :: l1) ++ l2)%list with (p :: ((q :: l1) ++ l2))%list.
    rewrite join_cons by discriminate.
    rewrite IH by discriminate.
    rewrite (join_cons sep p (q :: l1)) by discriminate.
    now rewrite !string_app_assoc.
Qed.

(** X21. [buildSimctlCommand] uses its options for five actions only: for
    any action other than list, boot, shutdown, delete and create the
    command is "xcrun simctl" followed by the action, whatever the options
    hold, so a device id given with another action is dropped. *)
Theorem buildSimctlCommand_other_actions (action : string) (o : SimctlOptions) :
  action <> "list" -> action <> "boot" -> action <> "shutdown" ->
  action <> "delete" -> action <> "create" ->
  buildSimctlCommand action o = "xcrun simctl " ++ action.
Proof.
  intros Hl Hb Hs Hd Hc. unfold buildSimctlCommand, simctlParts.
  apply String.eqb_neq in Hl, Hb, Hs, Hd, Hc.
  cbn [existsb]. rewrite Hl, Hb, Hs, Hd, Hc.
  rewrite !andb_false_r. reflexivity.
Qed.

Lemma buildSimctlCommand_other_actions_witness :
  buildSimctlCommand "erase"
    {| so_deviceId := Some "ABC-123"; so_deviceType := None; so_runtime := None;
       so_name := None; so_json := true |}
  = "xcrun simctl erase"
  /\ buildSimctlCommand "boot"
       {| so_deviceId := Some "ABC-123"; so_deviceType := None; so_runtime := None;
          so_name := None; so_json := true |}
     = "xcrun simctl boot ABC-123".
Proof.
  split; [|reflexivity].
  apply (buildSimctlCommand_other_actions "erase"); discriminate.
Defined.

(* ================================================================= *)
(** ** From the arguments to the command line *)

Lemma buildDestinationFromUdid_nonempty (udid_ : string) (runtime : option string) :
  buildDestinationFromUdid udid_ runtime <> EmptyString.
Proof.
  unfold buildDestinationFromUdid.
  destruct (if truthy runtime then _ else _); discriminate.
Qed.

Lemma firstAvailable_nonempty (hint : option string)
  (devices : list (string * list SimulatorDevice)) (d : string) :
  firstAvailable hint devices = Some d -> d <> EmptyString.
Proof.
  induction devices as [|[runtime devs] rest IH]; intros H; [discriminate|].
  simpl in H. destruct (truthy hint && _); [now apply IH|].
  destruct (find isAvailable devs); [|now apply IH].
  injection H as <-. apply buildDestinationFromUdid_nonempty.
Qed.

Lemma getSmartSimulatorDestination_nonempty (sc : SimulatorCache) (path : string)
  (hint : option string) (d : string) :
  getSmartSimulatorDestination sc path hint = Some d -> d <> EmptyString.
Proof.
  unfold getSmartSimulatorDestination.
  destruct (getPreferredSimulator sc path) as [[sim|]|]; [| |discriminate].
  - destruct (getSimulatorList sc) as [devices|]; [|discriminate].
    destruct (negb (truthy hint) || _).
    + intros H. injection H as <-. apply buildDestinationFromUdid_nonempty.
    + apply firstAvailable_nonempty.
  - destruct (getSimulatorList sc) as [devices|]; [|discriminate].
    apply firstAvailable_nonempty.
Qed.

Lemma truthy_nonempty (d : string) : truthy (Some d) = true -> d <> EmptyString.
Proof. simpl. intros H. now apply String.eqb_neq, negb_true_iff. Qed.

(** The resolver never returns the empty string. *)
Lemma resolveDestination_nonempty (sc : SimulatorCache) (params : ResolveParams)
  (d : string) :
  resolveDestination sc params = Some d -> d <> EmptyString.
Proof.
  unfold resolveDestination.
  destruct (truthy (explicitDestination params)) eqn:E1; cbn [andb].
  - destruct (strlen _ >? 0).
    + intros H. rewrite H in E1. now apply truthy_nonempty.
    + destruct (truthy (preferredDestination (preferredConfig params))) eqn:E2;
        cbn [andb].
      * destruct (platformsCompatible _ _).
        -- intros H. rewrite H in E2. now apply truthy_nonempty.
        -- destruct (match platform _ with Some _ => _ | None => _ end);
             [discriminate|].
           destruct (_ && _); [discriminate|].
           apply getSmartSimulatorDestination_nonempty.
      * destruct (match platform _ with Some _ => _ | None => _ end);
          [discriminate|].
        destruct (_ && _); [discriminate|].
        apply getSmartSimulatorDestination_nonempty.
  - destruct (truthy (preferredDestination (preferredConfig params))) eqn:E2;
      cbn [andb].
    + destruct (platformsCompatible _ _).
      * intros H. rewrite H in E2. now apply truthy_nonempty.
      * destruct (match platform _ with Some _ => _ | None => _ end);
          [discriminate|].
        destruct (_ && _); [discriminate|].
        apply getSmartSimulatorDestination_nonempty.
    + destruct (match platform _ with Some _ => _ | None => _ end);
        [discriminate|].
      destruct (_ && _); [discriminate|].
      apply getSmartSimulatorDestination_nonempty.
Qed.

Lemma whenTruthy_some (d : string) (f : string -> list string) :
  d <> EmptyString -> whenTruthy (Some d) f = f d.
Proof. intros H. simpl. apply String.eqb_neq in H. now rewrite H. Qed.

Lemma xcodebuildParts_destination (action path : string) (o : XcodebuildOptions)
  (d : string) :
  xo_destination o = Some d -> d <> EmptyString -> action <> EmptyString ->
  exists A B,
    A <> []
    /\ xcodebuildParts action path o
       = (A ++ ["-destination"; quoted d] ++ B ++ [action])%list.
Proof.
  intros Hd Hne Ha. unfold xcodebuildParts.
  rewrite Hd, whenTruthy_some by exact Hne.
  apply String.eqb_neq in Ha. rewrite Ha.
  exists (["xcodebuild"]
          ++ (if xo_workspace o || endsWith ".xcworkspace" path
              then ["-workspace"; quoted path]
              else ["-project"; quoted path])
          ++ whenTruthy (xo_scheme o) (fun s => ["-scheme"; quoted s])
          ++ whenTruthy (xo_configuration o) (fun s => ["-configuration"; s]))%list.
  exists (whenTruthy (xo_sdk o) (fun s => ["-sdk"; s])
          ++ whenTruthy (xo_derivedDataPath o) (fun s => ["-derivedDataPath"; quoted s])
          ++ (if xo_json o then ["-json"] else []))%list.
  split; [discriminate|].
  repeat rewrite <- app_assoc. reflexivity.
Qed.

Lemma join_around (A B : list string) (flag value action : string) :
  A <> [] ->
  exists middle,
    join " " (A ++ [flag; value] ++ B ++ [action])%list
    = join " " A ++ " " ++ flag ++ " " ++ value ++ middle ++ " " ++ action.
Proof.
  intros HA.
  rewrite join_app by (try assumption; discriminate).
  change ([flag; value] ++ B ++ [action])%list
    with (flag :: value :: (B ++ [action]))%list.
  rewrite join_cons by discriminate.
  rewrite join_cons by (destruct B; discriminate).
  destruct B as [|b B].
  - exists EmptyString. reflexivity.
  - exists (" " ++ join " " (b :: B)).
    rewrite join_app by discriminate.
    cbn [join]. rewrite !string_app_assoc. reflexivity.
Qed.

(** X22. A destination the tool resolves always reaches xcodebuild: the
    resolved destination is never the empty string, and the command line
    holds it, in double quotes, after [-destination]; the action [build]
    ends the command line. *)
Theorem resolved_destination_reaches_command (sc : SimulatorCache)
  (preferred : option BuildConfig) (args : BuildToolArgs) (d : string) :
  destination (finalConfig sc preferred args) = Some d ->
  d <> EmptyString
  /\ exists before middle,
       toolCommand sc preferred args
       = before ++ " -destination " ++ quoted d ++ middle ++ " build".
Proof.
  intros Hd.
  assert (Hne : d <> EmptyString).
  { unfold finalConfig in Hd. cbn [destination] in Hd.
    now apply resolveDestination_nonempty in Hd. }
  split; [exact Hne|].
  unfold toolCommand, buildXcodebuildCommand.
  destruct (xcodebuildParts_destination "build" (a_projectPath args)
              (optionsOf (finalConfig sc preferred args)) d Hd Hne)
    as [A [B [HA ->]]]; [discriminate|].
  destruct (join_around A B "-destination" (quoted d) "build" HA) as [middle ->].
  exists (join " " A), middle.
  change (" -destination " ++ quoted d ++ middle ++ " build")
    with (" " ++ "-destination" ++ " " ++ quoted d ++ middle ++ " build").
  reflexivity.
Qed.

Lemma resolved_destination_reaches_command_witness :
  toolCommand tvSimulatorCache None
    {| a_projectPath := "TV.xcodeproj"; a_scheme := "TV";
       a_configuration := Absent; a_destination := Absent;
       a_sdk := Given (Some "appletvsimulator"); a_derivedDataPath := Absent |}
  = "xcodebuild -project " ++ quoted "TV.xcodeproj" ++ " -scheme " ++ quoted "TV"
    ++ " -configuration Debug -destination "
    ++ quoted "platform=tvOS Simulator,id=TV-1"
    ++ " -sdk appletvsimulator build"
  /\ exists before middle,
       toolCommand tvSimulatorCache None
         {| a_projectPath := "TV.xcodeproj"; a_scheme := "TV";
            a_configuration := Absent; a_destination := Absent;
            a_sdk := Given (Some "appletvsimulator"); a_derivedDataPath := Absent |}
       = before ++ " -destination " ++ quoted "platform=tvOS Simulator,id=TV-1"
         ++ middle ++ " build".
Proof.
  split; [reflexivity|].
  apply (resolved_destination_reaches_command tvSimulatorCache None
           {| a_projectPath := "TV.xcodeproj"; a_scheme := "TV";
              a_configuration := Absent; a_destination := Absent;
              a_sdk := Given (Some "appletvsimulator"); a_derivedDataPath := Absent |}
           "platform=tvOS Simulator,id=TV-1" eq_refl).
Defined.

(** X23. A call that names only the project and the scheme replays the
    cached configuration: when the cached destination is compatible with
    the cached SDK, the tool builds with the cached configuration name,
    destination, SDK and derived-data path, under the scheme of the call.
    The response then reports [usedSmartDestination], and reports
    [usedSmartConfiguration] unless the cached configuration is "Debug". *)
Theorem cached_config_replayed (sc : SimulatorCache) (cfg : BuildConfig)
  (path scheme_ d : string) :
  destination cfg = Some d ->
  d <> EmptyString ->
  platformsCompatible (platform (deriveSdkInfo (sdk cfg)))
    (derivePlatformFromDestination (Some d)) = true ->
  finalConfig sc (Some cfg) (bareArgs path scheme_)
  = {| scheme := scheme_; configuration := configuration cfg;
       destination := Some d; sdk := sdk cfg;
       derivedDataPath := derivedDataPath cfg |}
  /\ usedSmartDestination (bareArgs path scheme_)
       (finalConfig sc (Some cfg) (bareArgs path scheme_)) = true
  /\ usedSmartConfiguration (bareArgs path scheme_)
       (finalConfig sc (Some cfg) (bareArgs path scheme_))
     = negb (String.eqb (configuration cfg) "Debug").
Proof.
  intros Hd Hne Hc.
  assert (Ht : truthy (Some d) = true).
  { simpl. apply negb_true_iff. now apply String.eqb_neq. }
  assert (E : finalConfig sc (Some cfg) (bareArgs path scheme_)
              = {| scheme := scheme_; configuration := configuration cfg;
                   destination := Some d; sdk := sdk cfg;
                   derivedDataPath := derivedDataPath cfg |}).
  { unfold finalConfig, bareArgs.
    cbn [a_sdk a_configuration a_destination a_derivedDataPath a_scheme a_projectPath
         argValue nullish].
    f_equal. unfold resolveDestination.
    cbn [explicitDestination preferredConfig p_sdk preferredDestination truthy andb].
    rewrite Hd, Ht, Hc. reflexivity. }
  rewrite E. split; [reflexivity|]. split.
  - unfold usedSmartDestination. cbn [bareArgs a_destination provided destination negb andb].
    exact Ht.
  - reflexivity.
Qed.

Lemma cached_config_replayed_witness :
  finalConfig emptySimulatorCache
    (Some {| scheme := "Old"; configuration := "Release";
             destination := Some "platform=iOS Simulator,id=CACHED";
             sdk := Some "iphonesimulator"; derivedDataPath := None |})
    (bareArgs "SpaceTime.xcodeproj" "SpaceTime")
  = {| scheme := "SpaceTime"; configuration := "Release";
       destination := Some "platform=iOS Simulator,id=CACHED";
       sdk := Some "iphonesimulator"; derivedDataPath := None |}.
Proof.
  apply (cached_config_replayed emptySimulatorCache
           {| scheme := "Old"; configuration := "Release";
              destination := Some "platform=iOS Simulator,id=CACHED";
              sdk := Some "iphonesimulator"; derivedDataPath := None |}
           "SpaceTime.xcodeproj" "SpaceTime" "platform=iOS Simulator,id=CACHED").
  - reflexivity.
  - discriminate.
  - reflexivity.
Defined.

(* ================================================================= *)
(** ** The simulator summary *)

Lemma filter_length_bound {A : Type} (f : A -> bool) (l : list A) :
  (List.length (filter f l) <= List.length l)%nat.
Proof.
  induction l as [|x l IH]; simpl; [lia|]. destruct (f x); simpl; lia.
Qed.

(** A device of the list is found under some runtime key. *)
Lemma device_has_runtime (cachedList : CachedSimulatorList) (d : SummaryDevice) :
  In d (allDevicesOf cachedList) ->
  exists runtimeKey devs,
    find (fun rd => existsb (fun d' => String.eqb (sd_udid d') (sd_udid d)) (snd rd))
         (cl_devices cachedList) = Some (runtimeKey, devs).
Proof.
  unfold allDevicesOf, map_values. intros Hin.
  apply in_concat in Hin as [devs [Hdevs Hd]].
  apply in_map_iff in Hdevs as [[k devs'] [E Hk]]. simpl in E. subst devs'.
  destruct (find _ (cl_devices cachedList)) as [[k' devs']|] eqn:Ef.
  - now exists k', devs'.
  - exfalso. apply (find_none _ _ Ef) in Hk. simpl in Hk.
    assert (Ht : existsb (fun d' => String.eqb (sd_udid d') (sd_udid d)) devs = true).
    { apply existsb_exists. exists d. split; [exact Hd | apply String.eqb_refl]. }
    congruence.
Qed.

(** X24. The simulator summary is consistent with the list it is made
    from: the booted devices are among the available ones and these among
    all; [bootedList] has one entry for each booted device, each in state
    "Booted", and the runtime of an entry is never the fallback for a
    device that is not found: it is the formatted name of the first runtime
    key that lists a device with the entry's udid. *)
Theorem simulator_summary_consistent (cachedList : CachedSimulatorList) :
  let s := extractSimulatorSummary cachedList in
  0 <= bootedDevices s <= availableDevices s
  /\ availableDevices s <= totalDevices s
  /\ Z.of_nat (List.length (bootedList s)) = bootedDevices s
  /\ forall e, In e (bootedList s) ->
       b_state e = "Booted"
       /\ exists d runtimeKey devs,
            In d (allDevicesOf cachedList)
            /\ sd_isAvailable d = true
            /\ sd_udid d = b_udid e /\ sd_name d = b_name e
            /\ find (fun rd => existsb (fun d' => String.eqb (sd_udid d') (b_udid e))
                                 (snd rd))
                    (cl_devices cachedList) = Some (runtimeKey, devs)
            /\ b_runtime e = formatRuntimeName runtimeKey.
Proof.
  intros s. unfold s, extractSimulatorSummary.
  cbn [bootedDevices availableDevices totalDevices bootedList].
  split; [|split; [|split]].
  - split; [lia|]. apply inj_le, filter_length_bound.
  - apply inj_le, filter_length_bound.
  - now rewrite length_map.
  - intros e He. apply in_map_iff in He as [d [<- Hd]].
    apply filter_In in Hd as [Hd Hb]. apply String.eqb_eq in Hb.
    unfold availableOf in Hd. apply filter_In in Hd as [Hd Ha].
    cbn [b_state b_udid b_name b_runtime]. split; [exact Hb|].
    destruct (device_has_runtime cachedList d Hd) as [k [devs Hf]].
    exists d, k, devs. repeat split; auto.
    unfold extractRuntimeFromDevice. now rewrite Hf.
Qed.

Lemma simulator_summary_consistent_witness :
  In (mkBootedEntry "iPhone 16" "A-1" "Booted" "iOS 18.0")
     (bootedList (extractSimulatorSummary sampleSimulators))
  /\ exists d runtimeKey,
       In d (allDevicesOf sampleSimulators)
       /\ sd_udid d = "A-1"
       /\ formatRuntimeName runtimeKey = "iOS 18.0".
Proof.
  assert (Hin : In (mkBootedEntry "iPhone 16" "A-1" "Booted" "iOS 18.0")
                  (bootedList (extractSimulatorSummary sampleSimulators)))
    by (now left).
  split; [exact Hin|].
  destruct (simulator_summary_consistent sampleSimulators) as [_ [_ [_ H]]].
  destruct (H _ Hin) as [_ [d [k [devs [H1 [_ [H3 [_ [_ H6]]]]]]]]].
  exists d, k. repeat split; [exact H1 | exact H3 | now rewrite <- H6].
Defined.

Lemma countType_keys (m : JsMap Z) (d : SummaryDevice) (t : string) :
  In t (map_keys (countType m d))
  <-> In t (map_keys m) \/ t = extractDeviceType (sd_name d).
Proof.
  unfold countType. rewrite map_keys_set.
  destruct (map_has (extractDeviceType (sd_name d)) m) eqn:E.
  - apply map_has_In in E. split; [auto|]. intros [H| ->]; assumption.
  - rewrite in_app_iff. simpl. split.
    + intros [H|[H|[]]]; auto.
    + intros [H|H]; auto.
Qed.

Lemma countTypes_keys (l : list SummaryDevice) (m : JsMap Z) :
  uniqueKeys m ->
  uniqueKeys (fold_left countType l m)
  /\ forall t, In t (map_keys (fold_left countType l m))
               <-> In t (map_keys m)
                   \/ exists d, In d l /\ extractDeviceType (sd_name d) = t.
Proof.
  revert m. induction l as [|d l IH]; intros m Hu.
  - split; [exact Hu|]. intros t. simpl. split; [auto|].
    intros [H|[d [[] _]]]. exact H.
  - simpl fold_left.
    destruct (IH (countType m d)) as [Hu' Hk].
    { unfold countType. now apply uniqueKeys_set. }
    split; [exact Hu'|]. intros t. rewrite Hk, countType_keys. split.
    + intros [[H|H]|[d' [Hd' Ht]]]; auto.
      * right. exists d. split; [now left | now symmetry].
      * right. exists d'. split; [now right | exact Ht].
    + intros [H|[d' [[<-|Hd'] Ht]]]; auto.
      right. exists d'. auto.
Qed.

Lemma NoDup_firstn_of {A : Type} (n : nat) (l : list A) : NoDup l -> NoDup (firstn n l).
Proof.
  intros H. rewrite <- (firstn_skipn n l) in H. now apply NoDup_app_remove_r in H.
Qed.

(** X25. [deviceTypes] lists device types without repetition, at most
    five of them; every type listed is the type of some available device,
    and the type of every available device is listed unless the list is
    full. *)
Theorem deviceTypes_distinct (cachedList : CachedSimulatorList) :
  let s := extractSimulatorSummary cachedList in
  NoDup (deviceTypes s)
  /\ (List.length (deviceTypes s) <= 5)%nat
  /\ (forall t, In t (deviceTypes s) ->
        exists d, In d (availableOf cachedList) /\ extractDeviceType (sd_name d) = t)
  /\ (forall d, In d (availableOf cachedList) ->
        In (extractDeviceType (sd_name d)) (deviceTypes s)
        \/ List.length (deviceTypes s) = 5%nat).
Proof.
  intros s. unfold s, extractSimulatorSummary. cbn [deviceTypes].
  rewrite slice_from_0 by lia. change (Z.to_nat 5) with 5%nat.
  destruct (countTypes_keys (availableOf cachedList) []) as [Hu Hk].
  { constructor. }
  split; [|split; [|split]].
  - now apply NoDup_firstn_of.
  - rewrite length_firstn. lia.
  - intros t Ht. apply in_firstn_in, Hk in Ht as [[]|Ht]. exact Ht.
  - intros d Hd.
    assert (Hin : In (extractDeviceType (sd_name d))
                    (map_keys (fold_left countType (availableOf cachedList) []))).
    { apply Hk. right. now exists d. }
    destruct (Nat.le_gt_cases
                (List.length (map_keys (fold_left countType (availableOf cachedList) [])))
                5) as [Hle|Hgt].
    + left. now rewrite firstn_all2.
    + right. rewrite length_firstn. lia.
Qed.

Lemma deviceTypes_distinct_witness :
  deviceTypes (extractSimulatorSummary sampleSimulators) = ["iPhone"; "iPad"; "Apple TV"]
  /\ exists d, In d (availableOf sampleSimulators)
               /\ extractDeviceType (sd_name d) = "Apple TV".
Proof.
  split; [reflexivity|].
  destruct (deviceTypes_distinct sampleSimulators) as [_ [_ [H _]]].
  apply H. right. right. now left.
Defined.

Lemma byLastUsedDesc_key (a b : SummaryDevice) :
  byLastUsedDesc a b <= 0 <-> - lastUsedTime a <= - lastUsedTime b.
Proof. unfold byLastUsedDesc. lia. Qed.

(** X26. [recentlyUsed] names the most recently used simulators: at most
    three, all of them available and with a time of last use, the most
    recent first; no available simulator with a time of last use that is
    left out was used later than one that is named. *)
Theorem recentlyUsed_most_recent (cachedList : CachedSimulatorList) :
  let s := extractSimulatorSummary cachedList in
  let used := filter hasLastUsed (availableOf cachedList) in
  recentlyUsed s = map (fun d => (sd_name d, sd_udid d)) (recentDevices cachedList)
  /\ List.length (recentlyUsed s) = Nat.min 3 (List.length used)
  /\ StronglySorted newer_first (recentDevices cachedList)
  /\ exists rest,
       Permutation (recentDevices cachedList ++ rest)%list used
       /\ forall a b, In a (recentDevices cachedList) -> In b rest ->
                      lastUsedTime b <= lastUsedTime a.
Proof.
  intros s used. unfold s, extractSimulatorSummary. cbn [recentlyUsed].
  unfold recentDevices. fold used.
  rewrite slice_from_0 by lia. change (Z.to_nat 3) with 3%nat.
  pose proof (sort_by_sorted byLastUsedDesc (fun d => - lastUsedTime d)
                byLastUsedDesc_key used) as Hs.
  split; [reflexivity|]. split; [|split].
  - rewrite length_map, length_firstn.
    now rewrite (sort_by_length byLastUsedDesc).
  - apply StronglySorted_firstn.
    eapply StronglySorted_weaken; [|exact Hs].
    unfold key_le, newer_first. intros a b H. lia.
  - exists (skipn 3 (sort_by byLastUsedDesc used)). split.
    + rewrite firstn_skipn. apply sort_by_perm.
    + intros a b Ha Hb.
      pose proof (sorted_firstn_skipn (fun d => - lastUsedTime d) 3
                    (sort_by byLastUsedDesc used) Hs a b Ha Hb) as H.
      simpl in H. lia.
Qed.

Lemma recentlyUsed_most_recent_witness :
  recentlyUsed (extractSimulatorSummary sampleSimulators)
  = [("iPad Air", "A-2"); ("Apple TV 4K", "B-1"); ("iPhone 16", "A-1")]
  /\ StronglySorted newer_first (recentDevices sampleSimulators).
Proof.
  split; [reflexivity|].
  exact (proj1 (proj2 (proj2 (recentlyUsed_most_recent sampleSimulators)))).
Defined.

Lemma gtb_false_le (a b : Z) : a <= b -> (a >? b) = false.
Proof. intros H. rewrite Z.gtb_ltb. apply Z.ltb_ge. exact H. Qed.

Lemma gtb_true_lt (a b : Z) : b < a -> (a >? b) = true.
Proof. intros H. rewrite Z.gtb_ltb. apply Z.ltb_lt. exact H. Qed.

(** X27. [formatTimeAgo] names the largest unit that has passed at least
    once: less than a minute (a time in the future included) is "Just
    now"; from a minute up to an hour it counts 1 to 59 whole minutes; from
    an hour up to a day, 1 to 23 whole hours; from a day on, whole days.
    The unit takes its plural "s" exactly for a count above 1. *)
Theorem formatTimeAgo_buckets (now target : Z) :
  let d := now - target in
  (d < 60000 -> formatTimeAgo now target = "Just now")
  /\ (60000 <= d < 3600000 ->
      1 <= d / 60000 <= 59
      /\ formatTimeAgo now target
         = decimal (d / 60000) ++ " minute"
           ++ (if d / 60000 >? 1 then "s" else "") ++ " ago")
  /\ (3600000 <= d < 86400000 ->
      1 <= d / 3600000 <= 23
      /\ formatTimeAgo now target
         = decimal (d / 3600000) ++ " hour"
           ++ (if d / 3600000 >? 1 then "s" else "") ++ " ago")
  /\ (86400000 <= d ->
      1 <= d / 86400000
      /\ formatTimeAgo now target
         = decimal (d / 86400000) ++ " day"
           ++ (if d / 86400000 >? 1 then "s" else "") ++ " ago").
Proof.
  intros d. unfold formatTimeAgo. fold d.
  change (1000 * 60 * 60 * 24) with 86400000.
  change (1000 * 60 * 60) with 3600000.
  change (1000 * 60) with 60000.
  split; [|split; [|split]].
  - intros H.
    assert (d / 86400000 <= 0) by (apply Z.lt_succ_r, Z.div_lt_upper_bound; lia).
    assert (d / 3600000 <= 0) by (apply Z.lt_succ_r, Z.div_lt_upper_bound; lia).
    assert (d / 60000 <= 0) by (apply Z.lt_succ_r, Z.div_lt_upper_bound; lia).
    now rewrite !gtb_false_le by assumption.
  - intros [H1 H2].
    assert (d / 86400000 <= 0) by (apply Z.lt_succ_r, Z.div_lt_upper_bound; lia).
    assert (d / 3600000 <= 0) by (apply Z.lt_succ_r, Z.div_lt_upper_bound; lia).
    assert (1 <= d / 60000) by (apply Z.div_le_lower_bound; lia).
    assert (d / 60000 <= 59) by (apply Z.lt_succ_r, Z.div_lt_upper_bound; lia).
    split; [lia|].
    rewrite (gtb_false_le (d / 86400000)), (gtb_false_le (d / 3600000)) by assumption.
    now rewrite (gtb_true_lt (d / 60000) 0) by lia.
  - intros [H1 H2].
    assert (d / 86400000 <= 0) by (apply Z.lt_succ_r, Z.div_lt_upper_bound; lia).
    assert (1 <= d / 3600000) by (apply Z.div_le_lower_bound; lia).
    assert (d / 3600000 <= 23) by (apply Z.lt_succ_r, Z.div_lt_upper_bound; lia).
    split; [lia|].
    rewrite (gtb_false_le (d / 86400000)) by assumption.
    now rewrite (gtb_true_lt (d / 3600000) 0) by lia.
  - intros H1.
    assert (1 <= d / 86400000) by (apply Z.div_le_lower_bound; lia).
    split; [lia|].
    now rewrite (gtb_true_lt (d / 86400000) 0) by lia.
Qed.

Lemma formatTimeAgo_buckets_witness :
  3600000 <= 7200000 - 0 < 86400000
  /\ formatTimeAgo 7200000 0 = "2 hours ago".
Proof.
  assert (H : 3600000 <= 7200000 - 0 < 86400000) by lia.
  split; [exact H|].
  pose proof (formatTimeAgo_buckets 7200000 0) as B. cbv zeta in B.
  destruct B as [_ [_ [B _]]]. destruct (B H) as [_ E]. rewrite E. reflexivity.
Defined.

(* ================================================================= *)
(** ** Destinations made from a runtime identifier *)

Lemma split_lacks (sep : ascii) (s : string) :
  lacks sep s = true -> split sep s = [s].
Proof.
  induction s as [|c s IH]; intros H; [reflexivity|].
  simpl in H. apply andb_true_iff in H as [Hc Hs]. apply negb_true_iff in Hc.
  simpl. rewrite Hc, (IH Hs). reflexivity.
Qed.

Lemma lacks_app (c : ascii) (a b : string) :
  lacks c (a ++ b) = lacks c a && lacks c b.
Proof.
  induction a as [|x a IH]; [reflexivity|].
  change (lacks c (String x (a ++ b)) = lacks c (String x a) && lacks c b).
  simpl. rewrite IH. now rewrite andb_assoc.
Qed.

Lemma platformLabel_of_identifier (pre base version : string) :
  base <> EmptyString ->
  lacks "." base = true -> lacks "-" base = true -> lacks "." version = true ->
  platformLabelFromRuntime (pre ++ String "." (base ++ String "-" version))
  = Some (base ++ " Simulator").
Proof.
  intros Hb Hd Hm Hv. unfold platformLabelFromRuntime.
  rewrite split_app.
  rewrite (split_lacks "." (base ++ String "-" version)).
  2:{ rewrite lacks_app, Hd. simpl. exact Hv. }
  rewrite last_last.
  assert (Hne : String.eqb (base ++ String "-" version) EmptyString = false).
  { destruct base; [contradiction | reflexivity]. }
  rewrite Hne, split_app, (split_lacks "-" base Hm).
  simpl hd. apply String.eqb_neq in Hb. now rewrite Hb.
Qed.

(** X28. From a runtime identifier of the usual form, a dotted prefix
    followed by a platform name, a dash and a version, the destination
    built for a simulator is "platform=<name> Simulator,id=<udid>": only
    the last dotted segment counts, and of it only what comes before the
    first dash. *)
Theorem destination_from_identifier (pre base version udid_ : string) :
  base <> EmptyString ->
  lacks "." base = true -> lacks "-" base = true -> lacks "." version = true ->
  buildDestinationFromUdid udid_ (Some (pre ++ String "." (base ++ String "-" version)))
  = "platform=" ++ (base ++ " Simulator") ++ ",id=" ++ udid_.
Proof.
  intros Hb Hd Hm Hv. unfold buildDestinationFromUdid.
  assert (Ht : truthy (Some (pre ++ String "." (base ++ String "-" version))) = true).
  { destruct pre; reflexivity. }
  rewrite Ht, platformLabel_of_identifier by assumption.
  reflexivity.
Qed.

Lemma destination_from_identifier_witness :
  buildDestinationFromUdid "TV-1" (Some "com.apple.CoreSimulator.SimRuntime.tvOS-17-0")
  = "platform=tvOS Simulator,id=TV-1".
Proof.
  apply (destination_from_identifier "com.apple.CoreSimulator.SimRuntime"
           "tvOS" "17-0" "TV-1").
  - discriminate.
  - reflexivity.
  - reflexivity.
  - reflexivity.
Defined.

(* ================================================================= *)
(** ** Letter case in platform names *)

Lemma toLowerChar_idem (c : ascii) : toLowerChar (toLowerChar c) = toLowerChar c.
Proof.
  destruct c as [[] [] [] [] [] [] [] []]; reflexivity.
Qed.

Lemma toLowerChar_comma (c : ascii) :
  Ascii.eqb (toLowerChar c) "," = Ascii.eqb c ",".
Proof.
  destruct c as [[] [] [] [] [] [] [] []]; reflexivity.
Qed.

Lemma toLowerCase_idem (s : string) : toLowerCase (toLowerCase s) = toLowerCase s.
Proof.
  induction s as [|c s IH]; [reflexivity|].
  simpl. now rewrite toLowerChar_idem, IH.
Qed.

Lemma toLowerCase_empty (s : string) :
  String.eqb (toLowerCase s) EmptyString = String.eqb s EmptyString.
Proof. destruct s; reflexivity. Qed.

Lemma takeNonComma_lower (s : string) :
  takeNonComma (toLowerCase s) = toLowerCase (takeNonComma s).
Proof.
  induction s as [|c s IH]; [reflexivity|].
  simpl. rewrite toLowerChar_comma.
  destruct (Ascii.eqb c ","); [reflexivity|]. simpl. now rewrite IH.
Qed.

Lemma dropPrefix_ci_lower (p s : string) :
  dropPrefix_ci p (toLowerCase s) = option_map toLowerCase (dropPrefix_ci p s).
Proof.
  revert s. induction p as [|a p IH]; intros s; [reflexivity|].
  destruct s as [|b s]; [reflexivity|].
  simpl. rewrite toLowerChar_idem.
  destruct (Ascii.eqb (toLowerChar a) (toLowerChar b)); [apply IH | reflexivity].
Qed.

Lemma matchPlatform_lower (s : string) :
  matchPlatform (toLowerCase s) = option_map toLowerCase (matchPlatform s).
Proof.
  induction s as [|c s IH]; [reflexivity|].
  change (toLowerCase (String c s)) with (String (toLowerChar c) (toLowerCase s)).
  change (matchPlatform (String (toLowerChar c) (toLowerCase s)))
    with (match dropPrefix_ci "platform=" (String (toLowerChar c) (toLowerCase s)) with
          | Some rest =>
              match takeNonComma rest with
              | EmptyString => matchPlatform (toLowerCase s)
              | captured => Some captured
              end
          | None => matchPlatform (toLowerCase s)
          end).
  change (matchPlatform (String c s))
    with (match dropPrefix_ci "platform=" (String c s) with
          | Some rest =>
              match takeNonComma rest with
              | EmptyString => matchPlatform s
              | captured => Some captured
              end
          | None => matchPlatform s
          end).
  change (String (toLowerChar c) (toLowerCase s)) with (toLowerCase (String c s)).
  rewrite dropPrefix_ci_lower.
  destruct (dropPrefix_ci "platform=" (String c s)) as [rest|]; [|exact IH].
  change (option_map toLowerCase (Some rest)) with (Some (toLowerCase rest)).
  cbv iota beta. rewrite takeNonComma_lower.
  destruct (takeNonComma rest); [exact IH | reflexivity].
Qed.

Lemma derivePlatformFromToken_lower (t : string) :
  derivePlatformFromToken (Some (toLowerCase t)) = derivePlatformFromToken (Some t).
Proof.
  unfold derivePlatformFromToken.
  now rewrite toLowerCase_empty, toLowerCase_idem.
Qed.

(** X29. Platform names are read without regard to letter case: an SDK
    name and a destination give the same platform, and an SDK name the same
    simulator flag, as their lower-case forms; so whether a cached
    destination is compatible with an SDK does not depend on letter
    case. *)
Theorem platform_reading_ignores_case (sdk_ dest : string) :
  deriveSdkInfo (Some (toLowerCase sdk_)) = deriveSdkInfo (Some sdk_)
  /\ derivePlatformFromDestination (Some (toLowerCase dest))
     = derivePlatformFromDestination (Some dest)
  /\ platformsCompatible (platform (deriveSdkInfo (Some (toLowerCase sdk_))))
       (derivePlatformFromDestination (Some (toLowerCase dest)))
     = platformsCompatible (platform (deriveSdkInfo (Some sdk_)))
         (derivePlatformFromDestination (Some dest)).
Proof.
  assert (H1 : deriveSdkInfo (Some (toLowerCase sdk_)) = deriveSdkInfo (Some sdk_)).
  { unfold deriveSdkInfo. cbn [truthy].
    now rewrite toLowerCase_empty, toLowerCase_idem. }
  assert (H2 : derivePlatformFromDestination (Some (toLowerCase dest))
               = derivePlatformFromDestination (Some dest)).
  { unfold derivePlatformFromDestination. cbn [truthy].
    rewrite toLowerCase_empty, matchPlatform_lower.
    destruct (String.eqb dest EmptyString); [reflexivity|]. cbn [negb].
    destruct (matchPlatform dest) as [token|]; [|reflexivity].
    apply derivePlatformFromToken_lower. }
  split; [exact H1|]. split; [exact H2|]. now rewrite H1, H2.
Qed.
